(** * QR generation pipeline and payload contract

    A shallow embedding of the two services of the repository,
    [QRApiService] (remote providers) and [QRService] (payload assembly,
    hashing, fallback sequencing, parsing), together with the parts of the
    JavaScript platform they call: strings of UTF-16 code units,
    [JSON.stringify] and [JSON.parse], [encodeURIComponent],
    [URLSearchParams], [TextEncoder] and SHA-256.

    The handler [handleRegenerate] of the [QRCodeDisplay] component, the
    caller of the enhanced generation, is embedded in the last module, on
    the part of the component's props and state it reads and writes.

    Asynchronous calls are awaited one after the other in the source, so
    a call is embedded as a function from the state of the world to an
    outcome and a new state; a rejected promise is a thrown value.
    Console output is left out: it cannot fail and nothing reads it. *)

From Stdlib Require Import Ascii String.
From Stdlib Require Import List ZArith NArith Bool Lia.
From Stdlib Require Import DecimalN DecimalFacts.
Import ListNotations.

Set Implicit Arguments.

(** ** JavaScript strings *)

(** A JavaScript string is a sequence of UTF-16 code units. *)
Definition js_string := list N.

(** [str "abc"] is the JavaScript string with the code units of an ASCII
    literal. *)
Definition str (s : string) : js_string :=
  List.map N_of_ascii (list_ascii_of_string s).

Arguments str s%_string.

Definition js_string_eqb (a b : js_string) : bool :=
  if list_eq_dec N.eq_dec a b then true else false.

Module Str.

Local Open Scope N_scope.

(** WhiteSpace and LineTerminator code points of ECMAScript, the set
    [String.prototype.trim] strips. *)
Definition is_white_space (c : N) : bool :=
  (c =? 9) || (c =? 10) || (c =? 11) || (c =? 12) || (c =? 13) || (c =? 32)
  || (c =? 160) || (c =? 5760) || ((8192 <=? c) && (c <=? 8202))
  || (c =? 8232) || (c =? 8233) || (c =? 8239) || (c =? 8287)
  || (c =? 12288) || (c =? 65279).

Fixpoint trim_start (s : js_string) : js_string :=
  match s with
  | c :: t => if is_white_space c then trim_start t else s
  | [] => []
  end.

Definition trim_end (s : js_string) : js_string :=
  rev (trim_start (rev s)).

(** [String.prototype.trim]. *)
Definition trim (s : js_string) : js_string := trim_end (trim_start s).

Definition is_digit (c : N) : bool := (48 <=? c) && (c <=? 57).

Definition hex_digit (d : N) : N := if d <? 10 then 48 + d else 87 + d.

Definition hex_value (c : N) : option N :=
  if (48 <=? c) && (c <=? 57) then Some (c - 48)
  else if (97 <=? c) && (c <=? 102) then Some (c - 87)
  else if (65 <=? c) && (c <=? 70) then Some (c - 55)
  else None.

Fixpoint digits_of_uint (u : Decimal.uint) : js_string :=
  match u with
  | Decimal.Nil => []
  | Decimal.D0 u => 48 :: digits_of_uint u
  | Decimal.D1 u => 49 :: digits_of_uint u
  | Decimal.D2 u => 50 :: digits_of_uint u
  | Decimal.D3 u => 51 :: digits_of_uint u
  | Decimal.D4 u => 52 :: digits_of_uint u
  | Decimal.D5 u => 53 :: digits_of_uint u
  | Decimal.D6 u => 54 :: digits_of_uint u
  | Decimal.D7 u => 55 :: digits_of_uint u
  | Decimal.D8 u => 56 :: digits_of_uint u
  | Decimal.D9 u => 57 :: digits_of_uint u
  end.

(** Decimal digits of a natural number, without leading zeros. *)
Definition of_N (n : N) : js_string := digits_of_uint (N.to_uint n).

(** Decimal form of an integer, as [Number.prototype.toString] prints an
    integer-valued number of magnitude below 2^53. *)
Definition of_Z (z : Z) : js_string :=
  match z with
  | Zneg p => 45 :: of_N (Npos p)
  | _ => of_N (Z.to_N z)
  end.

Definition digit_cons (c : N) (u : Decimal.uint) : Decimal.uint :=
  match c with
  | 48 => Decimal.D0 u | 49 => Decimal.D1 u | 50 => Decimal.D2 u
  | 51 => Decimal.D3 u | 52 => Decimal.D4 u | 53 => Decimal.D5 u
  | 54 => Decimal.D6 u | 55 => Decimal.D7 u | 56 => Decimal.D8 u
  | _ => Decimal.D9 u
  end.

(** The longest prefix of decimal digits, and what follows it. *)
Fixpoint scan_digits (s : js_string) : Decimal.uint * js_string :=
  match s with
  | c :: t =>
      if is_digit c
      then let (u, r) := scan_digits t in (digit_cons c u, r)
      else (Decimal.Nil, s)
  | [] => (Decimal.Nil, [])
  end.

End Str.

(** ** JavaScript values *)

Module Js.

(** Numbers.  [Int z] is an integer-valued number; [Dec m e] is the
    non-integer decimal [m * 10^e] with [e < 0] and [m] not a multiple of
    ten, as [JSON.parse] reads it from a literal with a fraction or an
    exponent.  The embedding is exact for integers of magnitude at most
    2^53 - 1 (see [safe_integer]); the timestamps of [Date.now] are such
    integers. *)
Inductive number : Type :=
| Int (z : Z)
| Dec (m : Z) (e : Z).

(** The values a payload is built from: primitives, arrays and plain
    objects whose own properties are listed in enumeration order. *)
#[local] Unset Elimination Schemes.
Inductive value : Type :=
| VUndefined
| VNull
| VBool (b : bool)
| VNum (n : number)
| VStr (s : js_string)
| VArr (l : list value)
| VObj (l : list (js_string * value)).
#[local] Set Elimination Schemes.

Definition props := list (js_string * value).

Definition safe_integer (z : Z) : bool :=
  ((- 9007199254740991 <=? z) && (z <=? 9007199254740991))%Z.

(** A decimal of magnitude at most 2^-1075 rounds to zero as a double. *)
Definition underflows (m e : Z) : bool :=
  ((e <? 0) && (Z.abs m * 2 ^ 1075 <=? 10 ^ (- e)))%Z.

(** ToBoolean. *)
Definition truthy (v : value) : bool :=
  match v with
  | VUndefined | VNull => false
  | VBool b => b
  | VNum (Int z) => negb (z =? 0)%Z
  | VNum (Dec m e) => negb ((m =? 0)%Z || underflows m e)
  | VStr s => match s with [] => false | _ => true end
  | VArr _ | VObj _ => true
  end.

Definition is_undefined (v : value) : bool :=
  match v with VUndefined => true | _ => false end.

(** Number::toString, on the digits of the decimal. *)
Definition number_to_string (n : number) : js_string :=
  match n with
  | Int z => Str.of_Z z
  | Dec m e =>
      let ds := Str.of_N (Z.abs_N m) in
      let n := (Z.of_nat (length ds) + e)%Z in
      let body :=
        if ((0 <? n) && (n <=? 21))%Z
        then firstn (Z.to_nat n) ds ++ 46%N :: skipn (Z.to_nat n) ds
        else if ((-6 <? n) && (n <=? 0))%Z
        then 48%N :: 46%N :: repeat 48%N (Z.to_nat (- n)) ++ ds
        else
          let x := (n - 1)%Z in
          let ex := 101%N :: (if (x <? 0)%Z then 45%N else 43%N)
                            :: Str.of_N (Z.abs_N x) in
          match ds with
          | [] => []
          | [d] => d :: ex
          | d :: rest => d :: 46%N :: rest ++ ex
          end in
      if (m <? 0)%Z then 45%N :: body else body
  end.

Fixpoint has_key (k : js_string) (l : props) : bool :=
  match l with
  | [] => false
  | (k', _) :: t => js_string_eqb k k' || has_key k t
  end.

Fixpoint lookup (k : js_string) (l : props) : option value :=
  match l with
  | [] => None
  | (k', v) :: t => if js_string_eqb k k' then Some v else lookup k t
  end.

(** Outcome of a property read [v.k]: reading from [undefined] or [null]
    throws a TypeError. *)
Inductive access : Type :=
| Got (v : value)
| Nullish.

(** [v.k] for a property name [k] that is neither inherited from a
    prototype nor an index or [length]: the names the services read. *)
Definition get (v : value) (k : js_string) : access :=
  match v with
  | VUndefined | VNull => Nullish
  | VObj l => match lookup k l with Some x => Got x | None => Got VUndefined end
  | _ => Got VUndefined
  end.

(** ToString, as a template literal applies it.  [None] is a TypeError:
    a plain object whose own [toString] property is not callable. *)
Fixpoint to_string (v : value) : option js_string :=
  match v with
  | VUndefined => Some (str "undefined")
  | VNull => Some (str "null")
  | VBool true => Some (str "true")
  | VBool false => Some (str "false")
  | VNum n => Some (number_to_string n)
  | VStr s => Some s
  | VArr l =>
      (fix join (l : list value) : option js_string :=
         match l with
         | [] => Some []
         | x :: t =>
             let e := match x with
                      | VUndefined | VNull => Some []
                      | _ => to_string x
                      end in
             match t with
             | [] => e
             | _ :: _ =>
                 match e, join t with
                 | Some a, Some b => Some (a ++ 44%N :: b)
                 | _, _ => None
                 end
             end
         end) l
  | VObj l => if has_key (str "toString") l then None
              else Some (str "[object Object]")
  end.

(** A canonical array index: the decimal form of an integer below
    2^32 - 1.  Such keys are enumerated first, in ascending order. *)
Definition array_index (k : js_string) : option N :=
  let (u, r) := Str.scan_digits k in
  match r with
  | [] => let n := N.of_uint u in
          if js_string_eqb (Str.of_N n) k && (n <? 4294967295)%N
          then Some n else None
  | _ :: _ => None
  end.

Fixpoint replace_prop (k : js_string) (v : value) (l : props) : props :=
  match l with
  | [] => []
  | (k', v') :: t =>
      if js_string_eqb k k' then (k', v) :: t
      else (k', v') :: replace_prop k v t
  end.

Fixpoint insert_index (n : N) (k : js_string) (v : value) (l : props) : props :=
  match l with
  | [] => [(k, v)]
  | (k', v') :: t =>
      match array_index k' with
      | Some n' => if (n' <? n)%N then (k', v') :: insert_index n k v t
                   else (k, v) :: l
      | None => (k, v) :: l
      end
  end.

(** CreateDataProperty on an ordinary object: an existing property keeps
    its place, a new index goes among the indices, any other new name goes
    last. *)
Definition define_prop (l : props) (k : js_string) (v : value) : props :=
  if has_key k l then replace_prop k v l
  else match array_index k with
       | Some n => insert_index n k v l
       | None => l ++ [(k, v)]
       end.

Definition define_props (l : props) (kvs : props) : props :=
  fold_left (fun o kv => define_prop o (fst kv) (snd kv)) kvs l.

Fixpoint indexed (A : Type) (i : N) (l : list A) : list (js_string * A) :=
  match l with
  | [] => []
  | x :: t => (Str.of_N i, x) :: indexed (N.succ i) t
  end.

(** The own enumerable properties an object spread [{...v}] copies. *)
Definition own_props (v : value) : props :=
  match v with
  | VObj l => l
  | VArr l => indexed 0 l
  | VStr s => indexed 0 (List.map (fun c => VStr [c]) s)
  | _ => []
  end.

Fixpoint distinct_keys (l : props) : bool :=
  match l with
  | [] => true
  | (k, _) :: t => negb (has_key k t) && distinct_keys t
  end.

(** The values the embedding is exact for: every number is a safe
    integer and no object lists a property name twice. *)
Fixpoint well_formed (v : value) : bool :=
  match v with
  | VNum (Int z) => safe_integer z
  | VNum (Dec _ _) => false
  | VArr l => forallb well_formed l
  | VObj l => distinct_keys l && forallb (fun kv => well_formed (snd kv)) l
  | _ => true
  end.

End Js.

(** ** JSON *)

Module JSON.

Import Js.
Local Open Scope N_scope.

Definition is_high_surrogate (c : N) : bool := (55296 <=? c) && (c <=? 56319).
Definition is_low_surrogate (c : N) : bool := (56320 <=? c) && (c <=? 57343).

(** UnicodeEscape: a backslash, [u] and four lowercase hexadecimal digits. *)
Definition unicode_escape (c : N) : js_string :=
  [92; 117; Str.hex_digit (c / 4096 mod 16); Str.hex_digit (c / 256 mod 16);
   Str.hex_digit (c / 16 mod 16); Str.hex_digit (c mod 16)].

(** One code unit that is not half of a surrogate pair, as
    QuoteJSONString writes it. *)
Definition escape_unit (c : N) : js_string :=
  if c =? 8 then [92; 98]
  else if c =? 9 then [92; 116]
  else if c =? 10 then [92; 110]
  else if c =? 12 then [92; 102]
  else if c =? 13 then [92; 114]
  else if c =? 34 then [92; 34]
  else if c =? 92 then [92; 92]
  else if (c <? 32) || is_high_surrogate c || is_low_surrogate c
       then unicode_escape c
  else [c].

Fixpoint quote_units (s : js_string) : js_string :=
  match s with
  | [] => []
  | c :: t =>
      if is_high_surrogate c then
        match t with
        | d :: t' =>
            if is_low_surrogate d then c :: d :: quote_units t'
            else unicode_escape c ++ quote_units t
        | [] => unicode_escape c
        end
      else escape_unit c ++ quote_units t
  end.

(** QuoteJSONString. *)
Definition quote (s : js_string) : js_string := 34 :: quote_units s ++ [34].

Fixpoint join_comma (l : list js_string) : js_string :=
  match l with
  | [] => []
  | [x] => x
  | x :: t => x ++ 44 :: join_comma t
  end.

(** The members of a serialized object: a property whose value is
    [undefined] is left out. *)
Definition members (ser : value -> js_string) : props -> list js_string :=
  fix go (l : props) : list js_string :=
    match l with
    | [] => []
    | (k, x) :: t =>
        if is_undefined x then go t
        else (quote k ++ 58 :: ser x) :: go t
    end.

(** SerializeJSONProperty without indentation, for a value that is not
    [undefined]; an [undefined] array element is written [null]. *)
Fixpoint serialize (v : value) : js_string :=
  match v with
  | VUndefined | VNull => str "null"
  | VBool true => str "true"
  | VBool false => str "false"
  | VNum n => number_to_string n
  | VStr s => quote s
  | VArr l => 91 :: join_comma (List.map serialize l) ++ [93]
  | VObj l => 123 :: join_comma (members serialize l) ++ [125]
  end.

Definition kept (norm : value -> value) : props -> props :=
  fix go (l : props) : props :=
    match l with
    | [] => []
    | (k, x) :: t =>
        if is_undefined x then go t else (k, norm x) :: go t
    end.

(** What survives serialization: [undefined] array elements become
    [null], [undefined] properties disappear, and an object is rebuilt
    property by property. *)
Fixpoint normalize (v : value) : value :=
  match v with
  | VUndefined => VNull
  | VArr l => VArr (List.map normalize l)
  | VObj l => VObj (define_props [] (kept normalize l))
  | _ => v
  end.

(** [JSON.stringify(v)]; [None] is the result [undefined]. *)
Definition stringify (v : value) : option js_string :=
  if is_undefined v then None else Some (serialize v).

(** *** Parsing *)

Definition is_ws (c : N) : bool :=
  (c =? 9) || (c =? 10) || (c =? 13) || (c =? 32).

Fixpoint skip_ws (s : js_string) : js_string :=
  match s with
  | c :: t => if is_ws c then skip_ws t else s
  | [] => []
  end.

Definition unescape (c : N) : option N :=
  if c =? 34 then Some 34
  else if c =? 92 then Some 92
  else if c =? 47 then Some 47
  else if c =? 98 then Some 8
  else if c =? 102 then Some 12
  else if c =? 110 then Some 10
  else if c =? 114 then Some 13
  else if c =? 116 then Some 9
  else None.

(** The characters of a string literal after its opening quote, up to
    the closing quote, and the rest of the input. *)
Fixpoint parse_chars (s : js_string) : option (js_string * js_string) :=
  match s with
  | [] => None
  | c :: t =>
      if c =? 34 then Some ([], t)
      else if c =? 92 then
        match t with
        | [] => None
        | e :: t1 =>
            if e =? 117 then
              match t1 with
              | h1 :: h2 :: h3 :: h4 :: t2 =>
                  match Str.hex_value h1, Str.hex_value h2,
                        Str.hex_value h3, Str.hex_value h4 with
                  | Some a, Some b, Some c', Some d =>
                      match parse_chars t2 with
                      | Some (u, r) =>
                          Some ((a * 4096 + b * 256 + c' * 16 + d) :: u, r)
                      | None => None
                      end
                  | _, _, _, _ => None
                  end
              | _ => None
              end
            else
              match unescape e with
              | Some x =>
                  match parse_chars t1 with
                  | Some (u, r) => Some (x :: u, r)
                  | None => None
                  end
              | None => None
              end
        end
      else if c <? 32 then None
      else
        match parse_chars t with
        | Some (u, r) => Some (c :: u, r)
        | None => None
        end
  end.

Fixpoint strip_tens (fuel : nat) (m e : Z) : Z * Z :=
  match fuel with
  | O => (m, e)
  | S f => if ((e <? 0) && (m mod 10 =? 0))%Z
           then strip_tens f (m / 10)%Z (e + 1)%Z
           else (m, e)
  end.

(** The number denoted by the digits [m], the decimal exponent [e] and
    the sign. *)
Definition make_number (neg : bool) (m : N) (e : Z) : number :=
  if m =? 0 then Int 0
  else
    let (m', e') := strip_tens (Z.to_nat (- e)) (Z.of_N m) e in
    let s := if neg then (- m')%Z else m' in
    if (0 <=? e')%Z then Int (s * 10 ^ e')%Z else Dec s e'.

Definition uint_is_nil (u : Decimal.uint) : bool :=
  match u with Decimal.Nil => true | _ => false end.

Definition leading_zero (u : Decimal.uint) : bool :=
  match u with
  | Decimal.D0 Decimal.Nil => false
  | Decimal.D0 _ => true
  | _ => false
  end.

(** An optional fraction: a point and at least one digit. *)
Definition parse_fraction (s : js_string) : option (Decimal.uint * js_string) :=
  match s with
  | c :: t =>
      if c =? 46 then
        let (f, r) := Str.scan_digits t in
        if uint_is_nil f then None else Some (f, r)
      else Some (Decimal.Nil, s)
  | [] => Some (Decimal.Nil, s)
  end.

(** An optional exponent: [e] or [E], an optional sign and at least one
    digit. *)
Definition parse_exponent (s : js_string) : option (Z * js_string) :=
  match s with
  | c :: t =>
      if (c =? 101) || (c =? 69) then
        let (eneg, t1) :=
          match t with
          | d :: t' => if d =? 45 then (true, t')
                       else if d =? 43 then (false, t')
                       else (false, t)
          | [] => (false, t)
          end in
        let (x, r) := Str.scan_digits t1 in
        if uint_is_nil x then None
        else Some (if eneg then (- Z.of_N (N.of_uint x))%Z
                   else Z.of_N (N.of_uint x), r)
      else Some (0%Z, s)
  | [] => Some (0%Z, s)
  end.

(** The digits of a number literal after its sign: an integer part
    without leading zeros, then fraction and exponent. *)
Definition parse_unsigned (neg : bool) (s : js_string) : option (number * js_string) :=
  let (ip, s2) := Str.scan_digits s in
  if uint_is_nil ip || leading_zero ip then None
  else
    match parse_fraction s2 with
    | None => None
    | Some (f, s3) =>
        match parse_exponent s3 with
        | None => None
        | Some (x, r) =>
            Some (make_number neg (N.of_uint (Decimal.app ip f))
                    (x - Z.of_nat (Decimal.nb_digits f))%Z, r)
        end
    end.

(** A JSON number literal. *)
Definition parse_number (s : js_string) : option (number * js_string) :=
  match s with
  | c :: t => if c =? 45 then parse_unsigned true t else parse_unsigned false s
  | [] => None
  end.

Fixpoint strip_prefix (p s : js_string) : option js_string :=
  match p, s with
  | [], _ => Some s
  | a :: p', b :: s' => if a =? b then strip_prefix p' s' else None
  | _ :: _, [] => None
  end.

(** Result of a parser: a value and the rest of the input, a syntax
    error, or recursion budget exhausted. *)
Inductive presult (A : Type) : Type :=
| POk (a : A) (rest : js_string)
| PErr
| PFuel.
Arguments PErr {A}.
Arguments PFuel {A}.

Definition keyword (w : js_string) (v : value) (s : js_string) : presult value :=
  match strip_prefix w s with
  | Some r => POk v r
  | None => PErr
  end.

Fixpoint parse_value (fuel : nat) (s : js_string) {struct fuel} : presult value :=
  match fuel with
  | O => PFuel
  | S f =>
      match s with
      | [] => PErr
      | c :: t =>
          if c =? 34 then
            match parse_chars t with
            | Some (u, r) => POk (VStr u) r
            | None => PErr
            end
          else if c =? 91 then
            match skip_ws t with
            | [] => PErr
            | d :: r =>
                if d =? 93 then POk (VArr []) r
                else match parse_elements f (d :: r) with
                     | POk l r' => POk (VArr l) r'
                     | PErr => PErr
                     | PFuel => PFuel
                     end
            end
          else if c =? 123 then
            match skip_ws t with
            | [] => PErr
            | d :: r =>
                if d =? 125 then POk (VObj []) r
                else match parse_members f (d :: r) with
                     | POk l r' => POk (VObj (define_props [] l)) r'
                     | PErr => PErr
                     | PFuel => PFuel
                     end
            end
          else if c =? 116 then keyword (str "rue") (VBool true) t
          else if c =? 102 then keyword (str "alse") (VBool false) t
          else if c =? 110 then keyword (str "ull") VNull t
          else
            match parse_number s with
            | Some (n, r) => POk (VNum n) r
            | None => PErr
            end
      end
  end

with parse_elements (fuel : nat) (s : js_string) {struct fuel}
  : presult (list value) :=
  match fuel with
  | O => PFuel
  | S f =>
      match parse_value f s with
      | POk v r =>
          match skip_ws r with
          | [] => PErr
          | d :: r1 =>
              if d =? 44 then
                match parse_elements f (skip_ws r1) with
                | POk l r2 => POk (v :: l) r2
                | PErr => PErr
                | PFuel => PFuel
                end
              else if d =? 93 then POk [v] r1
              else PErr
          end
      | PErr => PErr
      | PFuel => PFuel
      end
  end

with parse_members (fuel : nat) (s : js_string) {struct fuel}
  : presult props :=
  match fuel with
  | O => PFuel
  | S f =>
      match s with
      | [] => PErr
      | c :: t =>
          if c =? 34 then
            match parse_chars t with
            | None => PErr
            | Some (k, r) =>
                match skip_ws r with
                | [] => PErr
                | d :: r1 =>
                    if d =? 58 then
                      match parse_value f (skip_ws r1) with
                      | POk v r2 =>
                          match skip_ws r2 with
                          | [] => PErr
                          | x :: r3 =>
                              if x =? 44 then
                                match parse_members f (skip_ws r3) with
                                | POk l r4 => POk ((k, v) :: l) r4
                                | PErr => PErr
                                | PFuel => PFuel
                                end
                              else if x =? 125 then POk [(k, v)] r3
                              else PErr
                          end
                      | PErr => PErr
                      | PFuel => PFuel
                      end
                    else PErr
                end
            end
          else PErr
      end
  end.

(** [JSON.parse(s)]; [None] is a SyntaxError. *)
Definition parse (s : js_string) : option value :=
  match parse_value (S (2 * List.length s)) (skip_ws s) with
  | POk v r => match skip_ws r with [] => Some v | _ :: _ => None end
  | _ => None
  end.

End JSON.

(** ** UTF-8, percent-encoding and query strings *)

Module URI.

Local Open Scope N_scope.

(** The code points of a string; [None] stands for a lone surrogate. *)
Fixpoint code_points (s : js_string) : list (option N) :=
  match s with
  | [] => []
  | c :: t =>
      if JSON.is_high_surrogate c then
        match t with
        | d :: t' =>
            if JSON.is_low_surrogate d
            then Some (65536 + (c - 55296) * 1024 + (d - 56320)) :: code_points t'
            else None :: code_points t
        | [] => [None]
        end
      else if JSON.is_low_surrogate c then None :: code_points t
      else Some c :: code_points t
  end.

Definition utf8_of_code_point (c : N) : list N :=
  if c <? 128 then [c]
  else if c <? 2048 then [192 + c / 64; 128 + c mod 64]
  else if c <? 65536 then [224 + c / 4096; 128 + (c / 64) mod 64; 128 + c mod 64]
  else [240 + c / 262144; 128 + (c / 4096) mod 64;
        128 + (c / 64) mod 64; 128 + c mod 64].

(** [TextEncoder.encode] and the USVString conversion: a lone surrogate
    becomes U+FFFD. *)
Definition utf8 (s : js_string) : list N :=
  flat_map (fun c => utf8_of_code_point
                       (match c with Some n => n | None => 65533 end))
           (code_points s).

Definition upper_hex (d : N) : N := if d <? 10 then 48 + d else 55 + d.

Definition percent (b : N) : js_string := [37; upper_hex (b / 16); upper_hex (b mod 16)].

Definition is_alnum (c : N) : bool :=
  ((48 <=? c) && (c <=? 57)) || ((65 <=? c) && (c <=? 90))
  || ((97 <=? c) && (c <=? 122)).

(** Characters [encodeURIComponent] leaves alone: alphanumerics and
    [- _ . ! ~ * ' ( )]. *)
Definition uri_unreserved (c : N) : bool :=
  is_alnum c || (c =? 45) || (c =? 95) || (c =? 46) || (c =? 33)
  || (c =? 126) || (c =? 42) || (c =? 39) || (c =? 40) || (c =? 41).

Fixpoint encode_points (l : list (option N)) : option js_string :=
  match l with
  | [] => Some []
  | None :: _ => None
  | Some c :: t =>
      match encode_points t with
      | Some r =>
          Some ((if uri_unreserved c then [c]
                 else flat_map percent (utf8_of_code_point c)) ++ r)
      | None => None
      end
  end.

(** [encodeURIComponent(s)]; [None] is the URIError a lone surrogate
    raises. *)
Definition encodeURIComponent (s : js_string) : option js_string :=
  encode_points (code_points s).

(** The application/x-www-form-urlencoded byte serializer: alphanumerics
    and [* - . _] stay, a space becomes [+], every other byte is
    percent-encoded. *)
Definition form_byte (b : N) : js_string :=
  if is_alnum b || (b =? 42) || (b =? 45) || (b =? 46) || (b =? 95) then [b]
  else if b =? 32 then [43]
  else percent b.

Definition form_encode (s : js_string) : js_string :=
  flat_map form_byte (utf8 s).

Fixpoint join_amp (l : list js_string) : js_string :=
  match l with
  | [] => []
  | [x] => x
  | x :: t => x ++ 38 :: join_amp t
  end.

(** [new URLSearchParams(record).toString()]. *)
Definition URLSearchParams_toString (l : list (js_string * js_string)) : js_string :=
  join_amp (List.map (fun kv => form_encode (fst kv) ++ 61 :: form_encode (snd kv)) l).

(** *** Reading a query string back *)

Fixpoint split_on (sep : N) (s : js_string) : list js_string :=
  match s with
  | [] => [[]]
  | c :: t =>
      if c =? sep then [] :: split_on sep t
      else match split_on sep t with
           | x :: r => (c :: x) :: r
           | [] => [[c]]
           end
  end.

Fixpoint split_first (sep : N) (s : js_string) : js_string * option js_string :=
  match s with
  | [] => ([], None)
  | c :: t =>
      if c =? sep then ([], Some t)
      else let (a, b) := split_first sep t in (c :: a, b)
  end.

(** Percent-decoding of a byte sequence, with [+] read as a space. *)
Fixpoint form_decode_bytes (s : list N) : list N :=
  match s with
  | [] => []
  | c :: t =>
      if c =? 43 then 32 :: form_decode_bytes t
      else if c =? 37 then
        match t with
        | h1 :: h2 :: t' =>
            match Str.hex_value h1, Str.hex_value h2 with
            | Some a, Some b => (a * 16 + b) :: form_decode_bytes t'
            | _, _ => c :: form_decode_bytes t
            end
        | _ => c :: form_decode_bytes t
        end
      else c :: form_decode_bytes t
  end.

(** State of the UTF-8 decoder between bytes of one sequence. *)
Record decoder : Type := {
  code_point : N;
  bytes_needed : nat;
  lower : N;
  upper : N
}.

Definition utf16_of_code_point (c : N) : js_string :=
  if c <? 65536 then [c]
  else [55296 + (c - 65536) / 1024; 56320 + (c - 65536) mod 1024].

(** A byte met when no sequence is open. *)
Definition lead_byte (b : N) : js_string * option decoder :=
  if b <? 128 then ([b], None)
  else if (194 <=? b) && (b <=? 223)
  then ([], Some {| code_point := b mod 32; bytes_needed := 1;
                    lower := 128; upper := 191 |})
  else if (224 <=? b) && (b <=? 239)
  then ([], Some {| code_point := b mod 16; bytes_needed := 2;
                    lower := if b =? 224 then 160 else 128;
                    upper := if b =? 237 then 159 else 191 |})
  else if (240 <=? b) && (b <=? 244)
  then ([], Some {| code_point := b mod 8; bytes_needed := 3;
                    lower := if b =? 240 then 144 else 128;
                    upper := if b =? 244 then 143 else 191 |})
  else ([65533], None).

(** UTF-8 decode without BOM, ill-formed sequences replaced by U+FFFD. *)
Fixpoint utf8_decode (st : option decoder) (l : list N) : js_string :=
  match l with
  | [] => match st with Some _ => [65533] | None => [] end
  | b :: t =>
      match st with
      | None => let (out, st') := lead_byte b in out ++ utf8_decode st' t
      | Some d =>
          if (lower d <=? b) && (b <=? upper d) then
            let cp := code_point d * 64 + b mod 64 in
            match bytes_needed d with
            | 1%nat | 0%nat => utf16_of_code_point cp ++ utf8_decode None t
            | S n => utf8_decode (Some {| code_point := cp; bytes_needed := n;
                                         lower := 128; upper := 191 |}) t
            end
          else
            let (out, st') := lead_byte b in
            65533 :: out ++ utf8_decode st' t
      end
  end.

Definition form_decode (s : js_string) : js_string :=
  utf8_decode None (form_decode_bytes s).

(** The name-value pairs of a query string, as the
    application/x-www-form-urlencoded parser reads them. *)
Definition parse_query (q : js_string) : list (js_string * js_string) :=
  List.map (fun seg => let (n, v) := split_first 61 seg in
                       (form_decode n,
                        form_decode (match v with Some x => x | None => [] end)))
           (List.filter (fun seg => match seg with [] => false | _ => true end)
                        (split_on 38 q)).

Fixpoint assoc (k : js_string) (l : list (js_string * js_string)) : option js_string :=
  match l with
  | [] => None
  | (k', v) :: t => if js_string_eqb k k' then Some v else assoc k t
  end.

(** [new URL(url).searchParams.get(name)] for a URL without fragment. *)
Definition searchParams_get (url name : js_string) : option js_string :=
  match split_first 63 url with
  | (_, Some q) => assoc name (parse_query q)
  | (_, None) => None
  end.

End URI.

(** ** SHA-256 *)

Module SHA256.

Local Open Scope N_scope.

Definition w32 (x : N) : N := x mod 4294967296.
Definition add (a b : N) : N := w32 (a + b).
Definition rotr (n x : N) : N := N.lor (N.shiftr x n) (w32 (N.shiftl x (32 - n))).
Definition shr (n x : N) : N := N.shiftr x n.
Definition lnot32 (x : N) : N := N.lxor x 4294967295.

Definition Ch (x y z : N) : N := N.lxor (N.land x y) (N.land (lnot32 x) z).
Definition Maj (x y z : N) : N :=
  N.lxor (N.lxor (N.land x y) (N.land x z)) (N.land y z).
Definition Sigma0 (x : N) : N := N.lxor (N.lxor (rotr 2 x) (rotr 13 x)) (rotr 22 x).
Definition Sigma1 (x : N) : N := N.lxor (N.lxor (rotr 6 x) (rotr 11 x)) (rotr 25 x).
Definition sigma0 (x : N) : N := N.lxor (N.lxor (rotr 7 x) (rotr 18 x)) (shr 3 x).
Definition sigma1 (x : N) : N := N.lxor (N.lxor (rotr 17 x) (rotr 19 x)) (shr 10 x).

Definition K : list N :=
  [1116352408; 1899447441; 3049323471; 3921009573; 961987163;
   1508970993; 2453635748; 2870763221; 3624381080; 310598401; 607225278;
   1426881987; 1925078388; 2162078206; 2614888103; 3248222580;
   3835390401; 4022224774; 264347078; 604807628; 770255983; 1249150122;
   1555081692; 1996064986; 2554220882; 2821834349; 2952996808;
   3210313671; 3336571891; 3584528711; 113926993; 338241895; 666307205;
   773529912; 1294757372; 1396182291; 1695183700; 1986661051;
   2177026350; 2456956037; 2730485921; 2820302411; 3259730800;
   3345764771; 3516065817; 3600352804; 4094571909; 275423344; 430227734;
   506948616; 659060556; 883997877; 958139571; 1322822218; 1537002063;
   1747873779; 1955562222; 2024104815; 2227730452; 2361852424;
   2428436474; 2756734187; 3204031479; 3329325298].

Record state : Type := {
  ha : N; hb : N; hc : N; hd : N; he : N; hf : N; hg : N; hh : N
}.

Definition initial : state :=
  {| ha := 1779033703; hb := 3144134277; hc := 1013904242; hd := 2773480762;
     he := 1359893119; hf := 2600822924; hg := 528734635; hh := 1541459225 |}.

(** Message padding: a one bit, zeros up to 56 modulo 64 bytes, and the
    length in bits on eight bytes. *)
Definition pad (m : list N) : list N :=
  let len := List.length m in
  let zeros := ((119 - len mod 64) mod 64)%nat in
  let bits := N.of_nat len * 8 in
  m ++ 128 :: repeat 0 zeros
    ++ List.map (fun i => (bits / 256 ^ i) mod 256) [7; 6; 5; 4; 3; 2; 1; 0].

Fixpoint words (bytes : list N) : list N :=
  match bytes with
  | a :: b :: c :: d :: t => (a * 16777216 + b * 65536 + c * 256 + d) :: words t
  | _ => []
  end.

Fixpoint blocks (n : nat) (ws : list N) : list (list N) :=
  match n with
  | O => []
  | S n' => firstn 16 ws :: blocks n' (skipn 16 ws)
  end.

(** The message schedule, most recent word first. *)
Fixpoint schedule (n : nat) (rw : list N) : list N :=
  match n with
  | O => rw
  | S n' =>
      let w := add (add (sigma1 (nth 1 rw 0)) (nth 6 rw 0))
                   (add (sigma0 (nth 14 rw 0)) (nth 15 rw 0)) in
      schedule n' (w :: rw)
  end.

Definition round (s : state) (kw : N * N) : state :=
  let t1 := add (add (add (hh s) (Sigma1 (he s))) (Ch (he s) (hf s) (hg s)))
                (add (fst kw) (snd kw)) in
  let t2 := add (Sigma0 (ha s)) (Maj (ha s) (hb s) (hc s)) in
  {| ha := add t1 t2; hb := ha s; hc := hb s; hd := hc s;
     he := add (hd s) t1; hf := he s; hg := hf s; hh := hg s |}.

Definition compress (s : state) (block : list N) : state :=
  let w := rev (schedule 48 (rev block)) in
  let r := fold_left round (combine K w) s in
  {| ha := add (ha s) (ha r); hb := add (hb s) (hb r);
     hc := add (hc s) (hc r); hd := add (hd s) (hd r);
     he := add (he s) (he r); hf := add (hf s) (hf r);
     hg := add (hg s) (hg r); hh := add (hh s) (hh r) |}.

Definition word_bytes (w : N) : list N :=
  [w / 16777216 mod 256; w / 65536 mod 256; w / 256 mod 256; w mod 256].

(** The 32 bytes of the digest of a byte sequence. *)
Definition digest (m : list N) : list N :=
  let p := pad m in
  let s := fold_left compress (blocks (List.length p / 64) (words p)) initial in
  word_bytes (ha s) ++ word_bytes (hb s) ++ word_bytes (hc s)
    ++ word_bytes (hd s) ++ word_bytes (he s) ++ word_bytes (hf s)
    ++ word_bytes (hg s) ++ word_bytes (hh s).

(** [b.toString(16).padStart(2, '0')] for a byte. *)
Definition hex_byte (b : N) : js_string :=
  [Str.hex_digit (b / 16); Str.hex_digit (b mod 16)].

Definition hex (bytes : list N) : js_string := flat_map hex_byte bytes.

End SHA256.

(** ** Effects: network, clock, renderer, exceptions *)

Inductive http_method : Type := GET | HEAD.

(** Error-correction levels ['L'], ['M'], ['Q'], ['H']. *)
Module Ec.
Inductive level : Type := L | M | Q | H.
End Ec.

Inductive image_format : Type := png | svg | jpg.

Record blob : Type := { blob_type : js_string; blob_bytes : list N }.

(** What [fetch] resolves to: a rejected promise, or a response with its
    [ok] flag and the blob [response.blob()] yields ([None] when reading
    the body fails). *)
Inductive fetched : Type :=
| Rejected
| Response (ok : bool) (body : option blob).

(** The options object handed to [QRCode.toDataURL]. *)
Record render_options : Type := {
  errorCorrectionLevel : Ec.level;
  image_type : js_string;
  quality : Js.number;
  render_margin : Z;
  dark : js_string;
  light : js_string;
  width : Z
}.

Inductive event : Type :=
| Fetch (m : http_method) (url : js_string)
| Render (text : js_string) (o : render_options).

Inductive type_error : Type :=
| ReadOfNullish (k : js_string)
| NotPrimitive
| FetchFailed
| BodyFailed
| NoSubtleCrypto.

(** Thrown values: [Error] objects made by the code or the local renderer,
    exceptions of the engine and the platform, the event a failing
    [FileReader] rejects with. *)
Inductive exn : Type :=
| Error (message : js_string)
| TypeError (t : type_error)
| URIError
| SyntaxError
| ProgressEvent.

(** The [message] of a caught value: the text given to [new Error], or a
    text worded by the platform. *)
Inductive message : Type :=
| Text (s : js_string)
| Worded (e : exn).

Definition message_of (e : exn) : option message :=
  match e with
  | Error m => Some (Text m)
  | ProgressEvent => None
  | _ => Some (Worded e)
  end.

(** The environment a call runs in. *)
Record Env : Type := {
  origin : js_string;
  clock : nat -> Z;
  network : list event -> http_method -> js_string -> fetched;
  file_reader : blob -> option js_string;
  local_render : js_string -> render_options -> js_string + js_string;
  subtle_crypto : bool
}.

(** What has happened so far: requests and renderer calls in order, and
    how often the clock was read. *)
Record world : Type := { trace : list event; clock_reads : nat }.

Definition start : world := {| trace := []; clock_reads := 0 |}.

Inductive outcome (A : Type) : Type :=
| Ret (a : A)
| Throw (e : exn).
Arguments Throw {A}.

Definition M (A : Type) : Type := world -> outcome A * world.

Definition ret (A : Type) (a : A) : M A := fun w => (Ret a, w).

Definition throw (A : Type) (e : exn) : M A := fun w => (Throw e, w).
Arguments throw {A}.

Definition bind (A B : Type) (c : M A) (k : A -> M B) : M B :=
  fun w => match c w with
           | (Ret a, w') => k a w'
           | (Throw e, w') => (Throw e, w')
           end.

Definition try_catch (A : Type) (c : M A) (h : exn -> M A) : M A :=
  fun w => match c w with
           | (Ret a, w') => (Ret a, w')
           | (Throw e, w') => h e w'
           end.

Definition of_option (A : Type) (e : exn) (o : option A) : M A :=
  match o with Some a => ret a | None => throw e end.

Notation "x <- c ;; k" := (bind c (fun x => k))
  (at level 61, c at next level, right associativity).

Definition record (e : event) : M unit :=
  fun w => (Ret tt, {| trace := trace w ++ [e]; clock_reads := clock_reads w |}).

(** Synchronous code that may throw. *)
Definition obind (A B : Type) (c : outcome A) (k : A -> outcome B) : outcome B :=
  match c with
  | Ret a => k a
  | Throw e => Throw e
  end.

Definition otry (A : Type) (c : outcome A) (h : exn -> outcome A) : outcome A :=
  match c with
  | Ret a => Ret a
  | Throw e => h e
  end.

Notation "x <~ c ;; k" := (obind c (fun x => k))
  (at level 61, c at next level, right associativity).

Definition lift (A : Type) (c : outcome A) : M A := fun w => (c, w).

(** A property read [v.k]. *)
Definition read (v : Js.value) (k : js_string) : outcome Js.value :=
  match Js.get v k with
  | Js.Got x => Ret x
  | Js.Nullish => Throw (TypeError (ReadOfNullish k))
  end.

(** [JSON.parse(s)]. *)
Definition JSON_parse (s : js_string) : outcome Js.value :=
  match JSON.parse s with
  | Some v => Ret v
  | None => Throw SyntaxError
  end.

(** The result objects of the generation and parsing calls; an absent
    field is [None]. *)
Record result : Type := {
  success : bool;
  dataURL : option js_string;
  url : option js_string;
  trackingUrl : option js_string;
  qrHash : option js_string;
  data : option Js.value;
  error : option message
}.

Definition failure (m : option message) : result :=
  {| success := false; dataURL := None; url := None; trackingUrl := None;
     qrHash := None; data := None; error := m |}.

Section Platform.

Variable env : Env.

(** [Date.now()]. *)
Definition now : M Z :=
  fun w => (Ret (clock env (clock_reads w)),
            {| trace := trace w; clock_reads := S (clock_reads w) |}).

(** [fetch(url, { method })]. *)
Definition fetch (m : http_method) (u : js_string) : M (bool * option blob) :=
  fun w =>
    let w' := {| trace := trace w ++ [Fetch m u]; clock_reads := clock_reads w |} in
    match network env (trace w) m u with
    | Rejected => (Throw (TypeError FetchFailed), w')
    | Response ok body => (Ret (ok, body), w')
    end.

(** [response.blob()]. *)
Definition blob_of (r : bool * option blob) : M blob :=
  of_option (TypeError BodyFailed) (snd r).

(** [QRCode.toDataURL(text, options)]. *)
Definition toDataURL (text : js_string) (o : render_options) : M js_string :=
  _ <- record (Render text o) ;;
  match local_render env text o with
  | inr d => ret d
  | inl m => throw (Error m)
  end.

End Platform.

(** ** QRApiService: the remote providers *)

Module QRApiService.

(** The options a caller may pass; an absent option is [None]. *)
Record options : Type := {
  size : option Z;
  format : option image_format;
  errorCorrection : option Ec.level;
  margin : option Z;
  color : option js_string;
  backgroundColor : option js_string
}.

(** The options after the defaults are filled in. *)
Record style : Type := {
  style_size : Z;
  style_format : image_format;
  style_errorCorrection : Ec.level;
  style_margin : Z;
  style_color : js_string;
  style_backgroundColor : js_string
}.

Definition default (A : Type) (d : A) (o : option A) : A :=
  match o with Some a => a | None => d end.

Definition resolve (o : options) : style :=
  {| style_size := default 300%Z (size o);
     style_format := default png (format o);
     style_errorCorrection := default Ec.H (errorCorrection o);
     style_margin := default 2%Z (margin o);
     style_color := default (str "2D5A27") (color o);
     style_backgroundColor := default (str "FFFFFF") (backgroundColor o) |}.

Definition format_name (f : image_format) : js_string :=
  match f with png => str "png" | svg => str "svg" | jpg => str "jpg" end.

Definition level_name (l : Ec.level) : js_string :=
  match l with
  | Ec.L => str "L" | Ec.M => str "M" | Ec.Q => str "Q" | Ec.H => str "H"
  end.

Definition providers_qrserver : js_string :=
  str "https://api.qrserver.com/v1/create-qr-code/".

Definition providers_quickchart : js_string := str "https://quickchart.io/qr".

Definition square (n : Z) : js_string := Str.of_Z n ++ str "x" ++ Str.of_Z n.

Definition buildQRServerUrl (data : js_string) (o : style) : outcome js_string :=
  match URI.encodeURIComponent data with
  | None => Throw URIError
  | Some d =>
      Ret (providers_qrserver ++ str "?" ++
           URI.URLSearchParams_toString
             [(str "data", d);
              (str "size", square (style_size o));
              (str "format", format_name (style_format o));
              (str "ecc", level_name (style_errorCorrection o));
              (str "margin", Str.of_Z (style_margin o));
              (str "color", style_color o);
              (str "bgcolor", style_backgroundColor o)])
  end.

Definition buildQuickChartUrl (data : js_string) (sz : Z) (f : image_format)
  : outcome js_string :=
  match URI.encodeURIComponent data with
  | None => Throw URIError
  | Some d =>
      Ret (providers_quickchart ++ str "?" ++
           URI.URLSearchParams_toString
             [(str "text", d);
              (str "size", square sz);
              (str "format", format_name f)])
  end.

Definition unavailable : result :=
  failure (Some (Text (str "All QR code APIs are unavailable"))).

Definition served (u d : js_string) : result :=
  {| success := true; dataURL := Some d; url := Some u; trackingUrl := None;
     qrHash := None; data := None; error := None |}.

Section WithEnv.

Variable env : Env.

Definition blobToDataURL (b : blob) : M js_string :=
  of_option ProgressEvent (file_reader env b).

Definition generateQRWithAPI (data : js_string) (o : options) : M result :=
  let st := resolve o in
  try_catch
    (qrServerUrl <- lift (buildQRServerUrl data st) ;;
     response <- fetch env HEAD qrServerUrl ;;
     if fst response then
       imageResponse <- fetch env GET qrServerUrl ;;
       b <- blob_of imageResponse ;;
       d <- blobToDataURL b ;;
       ret (served qrServerUrl d)
     else throw (Error (str "QR Server API not accessible")))
    (fun _ =>
       r <- try_catch
              (quickChartUrl <- lift (buildQuickChartUrl data (style_size st)
                                        (style_format st)) ;;
               response <- fetch env GET quickChartUrl ;;
               if fst response then
                 b <- blob_of response ;;
                 d <- blobToDataURL b ;;
                 ret (Some (served quickChartUrl d))
               else ret None)
              (fun _ => ret None) ;;
       match r with
       | Some x => ret x
       | None => ret unavailable
       end).

(** The object [generateBatchQR] serializes. *)
Definition batch_qrData (batchData : Js.value) (timestamp : Z) : Js.props :=
  Js.define_props (Js.define_props [] (Js.own_props batchData))
    [(str "timestamp", Js.VNum (Js.Int timestamp));
     (str "version", Js.VStr (str "1.0"));
     (str "network", Js.VStr (str "hyperledger-fabric"))].

Definition batch_options : options :=
  {| size := Some 300%Z; format := Some png; errorCorrection := Some Ec.H;
     margin := Some 2%Z; color := Some (str "2D5A27");
     backgroundColor := Some (str "FFFFFF") |}.

Definition generateBatchQR (batchData : Js.value) : M result :=
  timestamp <- now env ;;
  let qrData := batch_qrData batchData timestamp in
  let dataString := JSON.serialize (Js.VObj qrData) in
  generateQRWithAPI dataString batch_options.

Definition tracking_options : options :=
  {| size := Some 200%Z; format := Some png; errorCorrection := Some Ec.M;
     margin := None; color := None; backgroundColor := None |}.

Definition generateTrackingQR (trackingUrl : js_string) : M result :=
  generateQRWithAPI trackingUrl tracking_options.

End WithEnv.

Record validation : Type := {
  valid : bool;
  valid_data : option Js.value;
  valid_error : option js_string
}.

Definition invalid (e : string) : validation :=
  {| valid := false; valid_data := None; valid_error := Some (str e) |}.

Definition validateQRData (qrString : js_string) : outcome validation :=
  otry
    (data <~ JSON_parse qrString ;;
     batchId <~ read data (str "batchId") ;;
     if negb (Js.truthy batchId)
     then Ret (invalid "Missing required fields in QR code") else
     eventId <~ read data (str "eventId") ;;
     if negb (Js.truthy eventId)
     then Ret (invalid "Missing required fields in QR code") else
     type <~ read data (str "type") ;;
     if negb (Js.truthy type)
     then Ret (invalid "Missing required fields in QR code") else
     Ret {| valid := true; valid_data := Some data; valid_error := None |})
    (fun _ => Ret (invalid "Invalid QR code format")).

End QRApiService.

(** ** QRService: payload, hash, fallback chain, parsing *)

Module QRService.

Definition succeeded (d : js_string) (t h : option js_string) : result :=
  {| success := true; dataURL := Some d; url := None; trackingUrl := t;
     qrHash := h; data := None; error := None |}.

Definition caught (e : exn) : result := failure (message_of e).

(** The object [generateQR] and [generateEnhancedQR] serialize: the
    caller's properties, then [trackingUrl], [timestamp] and [version]. *)
Definition enrich (data : Js.value) (trackingUrl : js_string) (timestamp : Z)
  : Js.props :=
  Js.define_props (Js.define_props [] (Js.own_props data))
    [(str "trackingUrl", Js.VStr trackingUrl);
     (str "timestamp", Js.VNum (Js.Int timestamp));
     (str "version", Js.VStr (str "1.0"))].

(** Truthiness of a [dataURL] field. *)
Definition usable (r : result) : option js_string :=
  if success r then
    match dataURL r with
    | Some (c :: d) => Some (c :: d)
    | _ => None
    end
  else None.

Definition api_options : QRApiService.options :=
  {| QRApiService.size := Some 300%Z;
     QRApiService.format := Some png;
     QRApiService.errorCorrection := Some Ec.H;
     QRApiService.margin := Some 2%Z;
     QRApiService.color := Some (str "2D5A27");
     QRApiService.backgroundColor := Some (str "FFFFFF") |}.

Definition local_options (d l : js_string) (w : Z) : render_options :=
  {| errorCorrectionLevel := Ec.H; image_type := str "image/png";
     quality := Js.Dec 92 (-2); render_margin := 2;
     dark := d; light := l; width := w |}.

Definition tracking_local_options : render_options :=
  {| errorCorrectionLevel := Ec.M; image_type := str "image/png";
     quality := Js.Dec 92 (-2); render_margin := 1;
     dark := str "#000000"; light := str "#FFFFFF"; width := 200 |}.

(** The [options] of [generateEnhancedQR]; an absent option is [None]. *)
Record enhanced_options : Type := {
  size : option Z;
  useAPI : option bool;
  customization_color : option js_string;
  customization_backgroundColor : option js_string
}.

(** [a || b]. *)
Definition or_else (a b : Js.value) : Js.value := if Js.truthy a then a else b.

Section WithEnv.

Variable env : Env.

Definition generateHash (s : js_string) : M js_string :=
  if subtle_crypto env
  then ret (SHA256.hex (SHA256.digest (URI.utf8 s)))
  else throw (TypeError NoSubtleCrypto).

(** The template literal [`${this.baseUrl}/track/${data.eventId}`]. *)
Definition tracking_url (data : Js.value) : outcome js_string :=
  eventId <~ read data (str "eventId") ;;
  match Js.to_string eventId with
  | Some e => Ret (origin env ++ str "/track/" ++ e)
  | None => Throw (TypeError NotPrimitive)
  end.

Definition generateQR (data : Js.value) (title : js_string) : M result :=
  try_catch
    (trackingUrl <- lift (tracking_url data) ;;
     timestamp <- now env ;;
     let qrData := enrich data trackingUrl timestamp in
     let qrString := JSON.serialize (Js.VObj qrData) in
     qrHash <- generateHash qrString ;;
     qrCodeDataURL <-
       try_catch
         (apiResult <- QRApiService.generateQRWithAPI env qrString api_options ;;
          match usable apiResult with
          | Some d => ret d
          | None => throw (Error (str "API generation failed"))
          end)
         (fun _ =>
            toDataURL env qrString
              (local_options (str "#2D5A27") (str "#FFFFFF") 300)) ;;
     ret (succeeded qrCodeDataURL (Some trackingUrl) (Some qrHash)))
    (fun e => ret (caught e)).

Definition non_empty (d : js_string) (o : option js_string) : js_string :=
  match o with
  | Some (c :: s) => c :: s
  | _ => d
  end.

Definition generateEnhancedQR (data : Js.value) (o : enhanced_options) : M result :=
  try_catch
    (trackingUrl <- lift (tracking_url data) ;;
     timestamp <- now env ;;
     let qrData := enrich data trackingUrl timestamp in
     let qrString := JSON.serialize (Js.VObj qrData) in
     qrHash <- generateHash qrString ;;
     qrCodeDataURL <-
       (if QRApiService.default true (useAPI o) then
          batchId <- lift (read data (str "batchId")) ;;
          eventId <- lift (read data (str "eventId")) ;;
          type <- lift (read data (str "type")) ;;
          herbSpecies <- lift (read data (str "herbSpecies")) ;;
          collector <- lift (read data (str "collector")) ;;
          tester <- lift (read data (str "tester")) ;;
          processor <- lift (read data (str "processor")) ;;
          manufacturer <- lift (read data (str "manufacturer")) ;;
          apiResult <- QRApiService.generateBatchQR env
            (Js.VObj [(str "batchId", batchId); (str "eventId", eventId);
                      (str "type", type); (str "herbSpecies", herbSpecies);
                      (str "participant",
                       or_else (or_else (or_else collector tester) processor)
                               manufacturer);
                      (str "trackingUrl", Js.VStr trackingUrl)]) ;;
          match usable apiResult with
          | Some d => ret d
          | None => throw (Error (str "API generation failed"))
          end
        else
          toDataURL env qrString
            (local_options (non_empty (str "#2D5A27") (customization_color o))
               (non_empty (str "#FFFFFF") (customization_backgroundColor o))
               (QRApiService.default 300%Z (size o)))) ;;
     ret (succeeded qrCodeDataURL (Some trackingUrl) (Some qrHash)))
    (fun e => ret (caught e)).

(** The options the four stage wrappers pass: size 300, the providers
    on, and the colours of the stage. *)
Definition stage_options (c b : string) : enhanced_options :=
  {| size := Some 300%Z; useAPI := Some true;
     customization_color := Some (str c);
     customization_backgroundColor := Some (str b) |}.

Definition generateCollectionQR
  (batchId eventId herbSpecies collectorName : js_string) : M result :=
  let data :=
    Js.VObj [(str "type", Js.VStr (str "collection"));
             (str "batchId", Js.VStr batchId);
             (str "eventId", Js.VStr eventId);
             (str "herbSpecies", Js.VStr herbSpecies);
             (str "collector", Js.VStr collectorName)] in
  generateEnhancedQR data (stage_options "16A34A" "F0FDF4").

Definition generateQualityTestQR
  (batchId eventId testerName : js_string) : M result :=
  let data :=
    Js.VObj [(str "type", Js.VStr (str "quality_test"));
             (str "batchId", Js.VStr batchId);
             (str "eventId", Js.VStr eventId);
             (str "tester", Js.VStr testerName)] in
  generateEnhancedQR data (stage_options "2563EB" "EFF6FF").

Definition generateProcessingQR
  (batchId eventId processorName method : js_string) : M result :=
  let data :=
    Js.VObj [(str "type", Js.VStr (str "processing"));
             (str "batchId", Js.VStr batchId);
             (str "eventId", Js.VStr eventId);
             (str "processor", Js.VStr processorName);
             (str "method", Js.VStr method)] in
  generateEnhancedQR data (stage_options "7C3AED" "F3E8FF").

Definition generateManufacturingQR
  (batchId eventId manufacturerName productName : js_string) : M result :=
  let data :=
    Js.VObj [(str "type", Js.VStr (str "manufacturing"));
             (str "batchId", Js.VStr batchId);
             (str "eventId", Js.VStr eventId);
             (str "manufacturer", Js.VStr manufacturerName);
             (str "productName", Js.VStr productName)] in
  generateEnhancedQR data (stage_options "EA580C" "FFF7ED").

Definition generateTrackingQR (trackingUrl : js_string) : M result :=
  try_catch
    (r <- QRApiService.generateTrackingQR env trackingUrl ;;
     if negb (success r) then
       d <- toDataURL env trackingUrl tracking_local_options ;;
       ret (succeeded d None None)
     else ret r)
    (fun e => ret (caught e)).

End WithEnv.

Definition direct_id (qrString : js_string) : Js.value :=
  Js.VObj [(str "eventId", Js.VStr (Str.trim qrString));
           (str "type", Js.VStr (str "direct_id"));
           (str "batchId", Js.VStr (Str.trim qrString))].

Definition parsed (d : option Js.value) : result :=
  {| success := true; dataURL := None; url := None; trackingUrl := None;
     qrHash := None; data := d; error := None |}.

Definition parseQRData (qrString : js_string) : outcome result :=
  otry
    (apiValidation <~ QRApiService.validateQRData qrString ;;
     if QRApiService.valid apiValidation
     then Ret (parsed (QRApiService.valid_data apiValidation)) else
     qrData <~ otry (JSON_parse qrString) (fun _ => Ret (direct_id qrString)) ;;
     eventId <~ read qrData (str "eventId") ;;
     if negb (Js.truthy eventId)
     then Throw (Error (str "Invalid QR code format - missing event ID"))
     else Ret (parsed (Some qrData)))
    (fun e => Ret (caught e)).

End QRService.

(** ** QRCodeDisplay: regenerating the displayed code *)

Module QRCodeDisplay.

(** The [batchData] prop. *)
Record batch_data : Type := {
  batchId : js_string;
  type : js_string;
  herbSpecies : option js_string;
  participant : option js_string
}.

(** The component's props, as far as [handleRegenerate] reads them. *)
Record component_props : Type := {
  qrData_eventId : js_string;
  batchData : option batch_data
}.

(** The component's state. *)
Record state : Type := {
  currentQR : js_string;
  isRegenerating : bool;
  customization_color : js_string;
  customization_backgroundColor : js_string;
  customization_size : Z
}.

Definition setCurrentQR (d : js_string) (s : state) : state :=
  {| currentQR := d; isRegenerating := isRegenerating s;
     customization_color := customization_color s;
     customization_backgroundColor := customization_backgroundColor s;
     customization_size := customization_size s |}.

Definition setIsRegenerating (b : bool) (s : state) : state :=
  {| currentQR := currentQR s; isRegenerating := b;
     customization_color := customization_color s;
     customization_backgroundColor := customization_backgroundColor s;
     customization_size := customization_size s |}.

Definition optional (o : option js_string) : Js.value :=
  match o with Some s => Js.VStr s | None => Js.VUndefined end.

(** The computed property name of the participant. *)
Definition participant_key (type : js_string) : js_string :=
  if js_string_eqb type (str "collection") then str "collector"
  else if js_string_eqb type (str "quality_test") then str "tester"
  else if js_string_eqb type (str "processing") then str "processor"
  else str "manufacturer".

Definition regenerate_data (p : component_props) (b : batch_data) : Js.value :=
  Js.VObj [(str "type", Js.VStr (type b));
           (str "batchId", Js.VStr (batchId b));
           (str "eventId", Js.VStr (qrData_eventId p));
           (str "herbSpecies", optional (herbSpecies b));
           (participant_key (type b), optional (participant b))].

Definition regenerate_options (s : state) : QRService.enhanced_options :=
  {| QRService.size := Some (customization_size s);
     QRService.useAPI := Some true;
     QRService.customization_color := Some (customization_color s);
     QRService.customization_backgroundColor :=
       Some (customization_backgroundColor s) |}.

Section WithEnv.

Variable env : Env.

Definition handleRegenerate (p : component_props) (s : state) : M state :=
  match batchData p with
  | None => ret s
  | Some b =>
      let s1 := setIsRegenerating true s in
      s2 <- try_catch
              (result <- QRService.generateEnhancedQR env (regenerate_data p b)
                           (regenerate_options s) ;;
               match QRService.usable result with
               | Some d => ret (setCurrentQR d s1)
               | None => ret s1
               end)
              (fun _ => ret s1) ;;
      ret (setIsRegenerating false s2)
  end.

End WithEnv.

End QRCodeDisplay.

Unset Implicit Arguments.

Import Js JSON.

(** ** Vocabulary of the statements *)

(** The input after a number literal does not go on with a digit. *)
Definition no_digit_ahead (rest : js_string) : bool :=
  match rest with
  | [] => true
  | c :: _ => negb (Str.is_digit c)
  end.

(** What may follow a serialized value: the end of the text, a comma or
    a closing bracket or brace. *)
Definition stop (rest : js_string) : bool :=
  match rest with
  | [] => true
  | c :: _ => (c =? 44)%N || (c =? 93)%N || (c =? 125)%N
  end.

Definition push (c : N) (o : option (js_string * js_string)) :=
  match o with
  | Some (u, r) => Some (c :: u, r)
  | None => None
  end.

(** The first character of a serialized value. *)
Definition opener (c : N) : bool :=
  (c =? 34)%N || (c =? 91)%N || (c =? 123)%N || (c =? 116)%N || (c =? 102)%N
  || (c =? 110)%N || (c =? 45)%N || Str.is_digit c.

(** The parser reads the serialized form of [v] back, whatever follows. *)
Definition parses (v : value) : Prop :=
  forall fuel rest, stop rest = true ->
    (2 * List.length (serialize v ++ rest) < fuel)%nat ->
    parse_value fuel (serialize v ++ rest) = POk (normalize v) rest.

Definition all_values (P : value -> bool) (l : props) : bool :=
  forallb (fun kv => P (snd kv)) l.

(** Every successful parse consumes input. *)
Definition consumes (fuel : nat) : Prop :=
  (forall s v r, parse_value fuel s = POk v r -> List.length r < List.length s)
  /\ (forall s l r, parse_elements fuel s = POk l r -> List.length r < List.length s)
  /\ (forall s l r, parse_members fuel s = POk l r -> List.length r < List.length s).

(** A budget above twice the input length is never exhausted. *)
Definition funded (fuel : nat) : Prop :=
  (forall s, 2 * List.length s < fuel -> parse_value fuel s <> PFuel)
  /\ (forall s, 2 * List.length s + 1 < fuel -> parse_elements fuel s <> PFuel)
  /\ (forall s, 2 * List.length s + 1 < fuel -> parse_members fuel s <> PFuel).

(** A computation that never throws. *)
Definition returns (A : Type) (c : M A) : Prop :=
  forall w, exists a w', c w = (Ret a, w').

Definition tick (w : world) : world :=
  {| trace := trace w; clock_reads := S (clock_reads w) |}.

Definition rendered (w : world) (text : js_string) (o : render_options) : world :=
  {| trace := trace w ++ [Render text o]; clock_reads := clock_reads w |}.

(** The failure [parseQRData] reports for a candidate without event id. *)
Definition missing_event_id : result :=
  failure (Some (Text (str "Invalid QR code format - missing event ID"))).

(** The properties [generateQR] adds to the caller's object. *)
Definition enrichment (u : js_string) (ts : Z) : props :=
  [(str "trackingUrl", VStr u); (str "timestamp", VNum (Int ts));
   (str "version", VStr (str "1.0"))].

(** The properties [generateBatchQR] adds to the batch object. *)
Definition batch_fields (ts : Z) : props :=
  [(str "timestamp", VNum (Int ts)); (str "version", VStr (str "1.0"));
   (str "network", VStr (str "hyperledger-fabric"))].

(** The string [generateQR] serializes, hashes and hands to the tiers when
    it starts in world [w]. *)
Definition payload_string (env : Env) (data : value) (w : world) : outcome js_string :=
  u <~ QRService.tracking_url env data ;;
  Ret (serialize (VObj (QRService.enrich data u (clock env (clock_reads w))))).


(** Every full transfer in a trace follows a probe of the same URL. *)
Definition probed_before_transfer (tr : list event) : Prop :=
  forall pre u post, tr = pre ++ Fetch GET u :: post -> In (Fetch HEAD u) pre.

Definition probe_ok (f : fetched) : bool :=
  match f with
  | Response true _ => true
  | _ => false
  end.

(** The options of the local fallback of [generateTrackingQR]. *)
Definition tracking_render : render_options :=
  {| errorCorrectionLevel := Ec.M; image_type := str "image/png";
     quality := Dec 92 (-2); render_margin := 1;
     dark := str "#000000"; light := str "#FFFFFF"; width := 200 |}.

(** *** Sample inputs *)

Definition too_big : js_string :=
  str "The amount of data is too big to be stored in a QR Code".

(** No provider answers and the local renderer rejects its input. *)
Definition network_down : Env :=
  {| origin := str "https://app.example";
     clock := fun _ => 1700000000000%Z;
     network := fun _ _ _ => Rejected;
     file_reader := fun _ => None;
     local_render := fun _ _ => inl too_big;
     subtle_crypto := true |}.

(** No provider answers and the local renderer works. *)
Definition offline : Env :=
  {| origin := str "https://app.example";
     clock := fun _ => 1700000000000%Z;
     network := fun _ _ _ => Rejected;
     file_reader := fun _ => None;
     local_render := fun _ _ => inr (str "data:image/png;base64,iVBORw0KGgo=");
     subtle_crypto := true |}.

Definition no_options : QRApiService.options :=
  {| QRApiService.size := None; QRApiService.format := None;
     QRApiService.errorCorrection := None; QRApiService.margin := None;
     QRApiService.color := None; QRApiService.backgroundColor := None |}.

Definition primary_url_E1 : js_string :=
  str "https://api.qrserver.com/v1/create-qr-code/?data=E1&size=300x300&format=png&ecc=H&margin=2&color=2D5A27&bgcolor=FFFFFF".

Definition secondary_url_E1 : js_string :=
  str "https://quickchart.io/qr?text=E1&size=300x300&format=png".

Definition sample_payload : value :=
  VObj [(str "batchId", VStr (str "B1")); (str "eventId", VStr (str "E1"));
        (str "type", VStr (str "collection"));
        (str "herbSpecies", VStr (str "Ashwagandha"));
        (str "participant", VStr (str "Alice"))].

(** The object [generateEnhancedQR] passes to [generateBatchQR] for a
    payload without participant. *)
Definition sample_batch : value :=
  VObj [(str "batchId", VStr (str "B1")); (str "eventId", VStr (str "E1"));
        (str "type", VStr (str "collection"));
        (str "herbSpecies", VStr (str "Ashwagandha"));
        (str "participant", VUndefined);
        (str "trackingUrl", VStr (str "https://app.example/track/E1"))].

(** A payload with braces, a colon and quotes. *)
Definition brace_payload : js_string := serialize (VObj [(str "a", VNum (Int 1))]).

(** ** Vocabulary of the further properties *)

Definition is_fetch (e : event) : bool :=
  match e with
  | Fetch _ _ => true
  | Render _ _ => false
  end.

(** The world after the requests [new]. *)
Definition requested (w : world) (new : list event) : world :=
  {| trace := trace w ++ new; clock_reads := clock_reads w |}.

(** [v.k] when [v] is neither [undefined] nor [null]. *)
Definition field (v : value) (k : js_string) : value :=
  match get v k with
  | Got x => x
  | Nullish => VUndefined
  end.

Definition nullish (v : value) : bool :=
  match v with
  | VUndefined | VNull => true
  | _ => false
  end.

(** A response whose body is an error page. *)
Definition error_page : blob :=
  {| blob_type := str "text/html"; blob_bytes := [60; 104; 49; 62]%N |}.

Definition image : blob :=
  {| blob_type := str "image/png"; blob_bytes := [137; 80; 78; 71]%N |}.

Definition data_url_of (b : blob) : js_string :=
  str "data:" ++ blob_type b ++ str ";base64,AAAA".

(** The primary provider answers the probe, then serves an error page
    with a non-success status. *)
Definition primary_not_found : Env :=
  {| origin := str "https://app.example";
     clock := fun _ => 1700000000000%Z;
     network := fun _ m _ =>
                  match m with
                  | HEAD => Response true None
                  | GET => Response false (Some error_page)
                  end;
     file_reader := fun b => Some (data_url_of b);
     local_render := fun _ _ => inl too_big;
     subtle_crypto := true |}.

(** The primary provider is unreachable and the secondary one serves an
    image. *)
Definition primary_down : Env :=
  {| origin := str "https://app.example";
     clock := fun _ => 1700000000000%Z;
     network := fun _ m _ =>
                  match m with
                  | HEAD => Rejected
                  | GET => Response true (Some image)
                  end;
     file_reader := fun b => Some (data_url_of b);
     local_render := fun _ _ => inl too_big;
     subtle_crypto := true |}.

(** A string that ends in half of a surrogate pair. *)
Definition lone_surrogate : js_string := str "E1" ++ [55357%N].

(** The three properties [validateQRData] requires. *)
Definition required_fields (v : value) : bool :=
  truthy (field v (str "batchId")) && truthy (field v (str "eventId"))
  && truthy (field v (str "type")).

Definition accepted (v : value) : QRApiService.validation :=
  {| QRApiService.valid := true; QRApiService.valid_data := Some v;
     QRApiService.valid_error := None |}.

Definition is_empty (s : js_string) : bool :=
  match s with
  | [] => true
  | _ :: _ => false
  end.

(** A scanned object that names an event and nothing else. *)
Definition event_only : js_string :=
  serialize (VObj [(str "eventId", VStr (str "E1"))]).

(** The digest [generateHash] returns for a string. *)
Definition hash_of (s : js_string) : js_string :=
  SHA256.hex (SHA256.digest (URI.utf8 s)).

(** The string [generateQR] and [generateEnhancedQR] serialize and hash
    when they start in world [w] with the tracking URL [u]. *)
Definition enriched_string (env : Env) (data : value) (u : js_string) (w : world)
  : js_string :=
  serialize (VObj (QRService.enrich data u (clock env (clock_reads w)))).

(** The options of the local fallback of [generateQR]. *)
Definition fallback_render : render_options :=
  {| errorCorrectionLevel := Ec.H; image_type := str "image/png";
     quality := Dec 92 (-2); render_margin := 2;
     dark := str "#2D5A27"; light := str "#FFFFFF"; width := 300 |}.

(** What the local renderer yields as a result object. *)
Definition rendering (env : Env) (s : js_string) (o : render_options)
           (u h : option js_string) : outcome result :=
  match local_render env s o with
  | inr d => Ret (QRService.succeeded d u h)
  | inl m => Ret (failure (Some (Text m)))
  end.

(** [data.collector || data.tester || data.processor || data.manufacturer]. *)
Definition participant_of (data : value) : value :=
  QRService.or_else
    (QRService.or_else
       (QRService.or_else (field data (str "collector")) (field data (str "tester")))
       (field data (str "processor")))
    (field data (str "manufacturer")).

(** The object [generateEnhancedQR] hands to [generateBatchQR]. *)
Definition batch_object (data : value) (u : js_string) : value :=
  VObj [(str "batchId", field data (str "batchId"));
        (str "eventId", field data (str "eventId"));
        (str "type", field data (str "type"));
        (str "herbSpecies", field data (str "herbSpecies"));
        (str "participant", participant_of data);
        (str "trackingUrl", VStr u)].

(** The string [generateEnhancedQR] has encoded by the providers when it
    starts in world [w]: the clock is read a second time. *)
Definition batch_string (env : Env) (data : value) (u : js_string) (w : world)
  : js_string :=
  serialize (VObj (QRApiService.batch_qrData (batch_object data u)
                     (clock env (S (clock_reads w))))).

(** The property names of a batch payload. *)
Definition batch_names : list js_string :=
  [str "batchId"; str "eventId"; str "type"; str "herbSpecies";
   str "participant"; str "trackingUrl"; str "timestamp"; str "version";
   str "network"].

(** How [generateEnhancedQR] ends once the providers have answered. *)
Definition finish (u h : js_string) (p : outcome result * world)
  : outcome result * world :=
  match p with
  | (Ret r, w) =>
      (match QRService.usable r with
       | Some d => Ret (QRService.succeeded d (Some u) (Some h))
       | None => Ret (failure (Some (Text (str "API generation failed"))))
       end, w)
  | (Throw e, w) => (Ret (QRService.caught e), w)
  end.

Definition no_customization : QRService.enhanced_options :=
  {| QRService.size := None; QRService.useAPI := None;
     QRService.customization_color := None;
     QRService.customization_backgroundColor := None |}.

(** A payload as [generateProcessingQR] builds it. *)
Definition processing_props : props :=
  [(str "type", VStr (str "processing")); (str "batchId", VStr (str "B1"));
   (str "eventId", VStr (str "E2")); (str "processor", VStr (str "Bob"));
   (str "method", VStr (str "drying"))].

Definition processing_payload : value := VObj processing_props.


(** What is read back of a property after serialization. *)
Definition survives (x : value) : option value :=
  if is_undefined x then None else Some (normalize x).




(** Code units below 128. *)
Definition is_ascii (s : js_string) : bool := forallb (fun c => (c <? 128)%N) s.

(** Every code unit has 16 bits. *)
Definition is_utf16 (s : js_string) : bool := forallb (fun c => (c <? 65536)%N) s.

Definition no_amp (s : js_string) : bool := forallb (fun c => negb (c =? 38)%N) s.

Definition no_equals (s : js_string) : bool := forallb (fun c => negb (c =? 61)%N) s.

(** [new URL(url).searchParams], as the list of its pairs. *)
Definition search_params (url : js_string) : list (js_string * js_string) :=
  match URI.split_first 63 url with
  | (_, Some q) => URI.parse_query q
  | (_, None) => []
  end.

(** The bytes the form serializer leaves as they are. *)
Definition form_literal (b : N) : bool :=
  (URI.is_alnum b || (b =? 42) || (b =? 45) || (b =? 46) || (b =? 95))%N.

(** One [name=value] segment of a serialized query. *)
Definition segment (kv : js_string * js_string) : js_string :=
  URI.form_encode (fst kv) ++ 61%N :: URI.form_encode (snd kv).

Definition decoded (kv : js_string * js_string) : js_string * js_string :=
  (URI.form_decode (URI.form_encode (fst kv)),
   URI.form_decode (URI.form_encode (snd kv))).

(** The style [generateQR] asks the providers for. *)
Definition house_style : QRApiService.style :=
  QRApiService.resolve QRService.api_options.

(** A string whose surrogate pairs are all complete and which does not
    end inside one: its code points are the same whatever follows, and
    [encodeURIComponent] accepts it. *)
Definition whole (s : js_string) : Prop :=
  (forall t, URI.code_points (s ++ t) = URI.code_points s ++ URI.code_points t)
  /\ URI.encode_points (URI.code_points s) <> None.

Definition is_plain (c : N) : bool :=
  negb (is_high_surrogate c) && negb (is_low_surrogate c).

(** A payload that names its own version and tracking URL. *)
Definition versioned_props : props :=
  [(str "eventId", VStr (str "E1")); (str "version", VStr (str "2.0"));
   (str "trackingUrl", VStr (str "https://elsewhere.example/E1"));
   (str "notes", VUndefined); (str "weight", VNum (Int 12))].

(** What the transfer from the secondary provider yields when it is
    requested after the trace [tr]. *)
Definition secondary_answer (env : Env) (tr : list event) (u2 : js_string) : result :=
  match network env tr GET u2 with
  | Response true (Some b) =>
      match file_reader env b with
      | Some d => QRApiService.served u2 d
      | None => QRApiService.unavailable
      end
  | _ => QRApiService.unavailable
  end.






(** The object a stage wrapper has encoded, property by property:
    [herbSpecies] is there for a collection only. *)
Definition stage_payload (env : Env) (w : world) (type batchId eventId : js_string)
           (herbSpecies : option js_string) (name : js_string) : props :=
  [(str "batchId", VStr batchId); (str "eventId", VStr eventId);
   (str "type", VStr type)]
  ++ match herbSpecies with
     | Some h => [(str "herbSpecies", VStr h)]
     | None => []
     end
  ++ [(str "participant", VStr name);
      (str "trackingUrl", VStr (origin env ++ str "/track/" ++ eventId));
      (str "timestamp", VNum (Int (clock env (S (clock_reads w)))));
      (str "version", VStr (str "1.0"));
      (str "network", VStr (str "hyperledger-fabric"))].

(** The run of a stage wrapper ends as [generateEnhancedQR] does on the
    providers' answer for the serialized [payload]. *)
Definition encodes (env : Env) (w : world) (run : outcome result * world)
           (eventId : js_string) (payload : props) : Prop :=
  exists h,
    run = finish (origin env ++ str "/track/" ++ eventId) h
            (QRApiService.generateQRWithAPI env (serialize (VObj payload))
               QRApiService.batch_options (tick (tick w)))
    /\ JSON.parse (serialize (VObj payload)) = Some (VObj payload).


(** * Theorems *)

(** ** The platform on sample inputs *)

Example trim_sample :
  Str.trim (65279%N :: 160%N :: str "  a b " ++ [8232%N; 9%N]) = str "a b".
Proof. reflexivity. Qed.

Example serialize_sample :
  serialize (VObj [(str "a", VNum (Int (-12))); (str "u", VUndefined);
                   (str "l", VArr [VUndefined; VBool true; VStr [10%N; 55357%N]])])
  = str "{" ++ 34%N :: str "a" ++ 34%N :: str ":-12," ++ 34%N :: str "l" ++ 34%N
      :: str ":[null,true," ++ 34%N :: str "\n\ud83d" ++ 34%N :: str "]}".
Proof. reflexivity. Qed.

Example parse_orders_properties :
  JSON.parse (str " { " ++ 34%N :: str "b" ++ 34%N :: str " : 1 , " ++ 34%N
                :: str "1" ++ 34%N :: str ":[ ]," ++ 34%N :: str "b" ++ 34%N
                :: str ":3e2 } ")
  = Some (VObj [(str "1", VArr []); (str "b", VNum (Int 300))]).
Proof. reflexivity. Qed.

Example parse_number_literals :
  JSON.parse (str "-0") = Some (VNum (Int 0))
  /\ JSON.parse (str "1.50e1") = Some (VNum (Int 15))
  /\ JSON.parse (str "-12.5E-3") = Some (VNum (Dec (-125) (-4)))
  /\ JSON.parse (str "01") = None
  /\ JSON.parse (str "1.") = None
  /\ JSON.parse (str "+1") = None
  /\ JSON.parse (str "[1,]") = None
  /\ JSON.parse (str "nul") = None.
Proof. repeat split. Qed.

Example number_to_string_samples :
  number_to_string (Dec 15 (-1)) = str "1.5"
  /\ number_to_string (Dec 123 (-7)) = str "0.0000123"
  /\ number_to_string (Dec (-15) (-8)) = str "-1.5e-7".
Proof. repeat split. Qed.

Example encodeURIComponent_sample :
  URI.encodeURIComponent (str "a b&c=d/~'" ++ [233%N; 8364%N; 55357%N; 56832%N])
  = Some (str "a%20b%26c%3Dd%2F~'%C3%A9%E2%82%AC%F0%9F%98%80")
  /\ URI.encodeURIComponent [55357%N] = None.
Proof. split; reflexivity. Qed.

Example URLSearchParams_sample :
  URI.URLSearchParams_toString [(str "q", str "a b~*%"); (str "n", str "1&2")]
  = str "q=a+b%7E*%25&n=1%262"
  /\ URI.parse_query (str "q=a+b%7E*%25&n=1%262")
     = [(str "q", str "a b~*%"); (str "n", str "1&2")].
Proof. split; reflexivity. Qed.

Lemma js_string_eqb_eq (a b : js_string) : js_string_eqb a b = true <-> a = b.
Proof.
  unfold js_string_eqb. destruct (list_eq_dec N.eq_dec a b); split; congruence.
Qed.

Lemma js_string_eqb_refl (a : js_string) : js_string_eqb a a = true.
Proof. now apply js_string_eqb_eq. Qed.

Lemma js_string_eqb_neq (a b : js_string) : a <> b -> js_string_eqb a b = false.
Proof.
  intros H. destruct (js_string_eqb a b) eqn:E; [|reflexivity].
  apply js_string_eqb_eq in E. contradiction.
Qed.

(** ** Decimal digits *)

Lemma scan_digits_stop (rest : js_string) :
  no_digit_ahead rest = true -> Str.scan_digits rest = (Decimal.Nil, rest).
Proof.
  destruct rest as [|c t]; simpl; [reflexivity|].
  intros H. apply negb_true_iff in H. now rewrite H.
Qed.

Lemma scan_digits_app (u : Decimal.uint) (rest : js_string) :
  no_digit_ahead rest = true ->
  Str.scan_digits (Str.digits_of_uint u ++ rest) = (u, rest).
Proof.
  intros H. induction u; simpl;
    [now apply scan_digits_stop | rewrite IHu; reflexivity ..].
Qed.

Lemma to_uint_unorm (n : N) : Decimal.unorm (N.to_uint n) = N.to_uint n.
Proof.
  rewrite <- (DecimalN.Unsigned.of_to n) at 2.
  now rewrite DecimalN.Unsigned.to_of.
Qed.

Lemma to_uint_not_nil (n : N) : JSON.uint_is_nil (N.to_uint n) = false.
Proof.
  rewrite <- to_uint_unorm.
  pose proof (unorm_nonnil (N.to_uint n)) as H.
  destruct (Decimal.unorm (N.to_uint n)); simpl; congruence.
Qed.

Lemma to_uint_no_leading_zero (n : N) : JSON.leading_zero (N.to_uint n) = false.
Proof.
  rewrite <- to_uint_unorm. unfold Decimal.unorm.
  pose proof (nzhead_nonzero (N.to_uint n)) as H.
  destruct (Decimal.nzhead (N.to_uint n)) eqn:E; simpl; try reflexivity.
  exfalso. apply (H u). reflexivity.
Qed.

Lemma digits_first (u : Decimal.uint) :
  u <> Decimal.Nil ->
  exists c t, Str.digits_of_uint u = c :: t /\ Str.is_digit c = true.
Proof.
  destruct u; intros H; try congruence; simpl; eexists; eexists; split;
    try reflexivity; reflexivity.
Qed.

Lemma of_N_first (n : N) :
  exists c t, Str.of_N n = c :: t /\ Str.is_digit c = true.
Proof.
  apply digits_first. intros E. pose proof (to_uint_not_nil n) as H.
  rewrite E in H. discriminate.
Qed.

Lemma stop_cases (rest : js_string) :
  stop rest = true ->
  rest = [] \/ exists c t, rest = c :: t /\ (c = 44 \/ c = 93 \/ c = 125)%N.
Proof.
  destruct rest as [|c t]; simpl; intros H; [now left|right].
  exists c, t. split; [reflexivity|].
  apply orb_true_iff in H as [H|H]; [apply orb_true_iff in H as [H|H]|];
    apply N.eqb_eq in H; auto.
Qed.

Ltac stop_inv H :=
  apply stop_cases in H as [->|(? & ? & -> & [->| [->| ->]])].

Lemma stop_no_digit (rest : js_string) : stop rest = true -> no_digit_ahead rest = true.
Proof. intros H. stop_inv H; reflexivity. Qed.

Lemma parse_fraction_stop (rest : js_string) :
  stop rest = true -> JSON.parse_fraction rest = Some (Decimal.Nil, rest).
Proof. intros H. stop_inv H; reflexivity. Qed.

Lemma parse_exponent_stop (rest : js_string) :
  stop rest = true -> JSON.parse_exponent rest = Some (0%Z, rest).
Proof. intros H. stop_inv H; reflexivity. Qed.

Lemma make_number_integer (neg : bool) (n : N) :
  JSON.make_number neg n 0 = Js.Int (if neg then - Z.of_N n else Z.of_N n).
Proof.
  unfold JSON.make_number. destruct (N.eqb_spec n 0) as [->|Hn].
  - now destruct neg.
  - simpl. f_equal. destruct neg; lia.
Qed.

Lemma parse_unsigned_of_N (neg : bool) (n : N) (rest : js_string) :
  stop rest = true ->
  JSON.parse_unsigned neg (Str.of_N n ++ rest)
  = Some (Js.Int (if neg then - Z.of_N n else Z.of_N n), rest).
Proof.
  intros H. unfold JSON.parse_unsigned, Str.of_N.
  rewrite scan_digits_app by now apply stop_no_digit.
  rewrite to_uint_not_nil, to_uint_no_leading_zero. simpl.
  rewrite parse_fraction_stop, parse_exponent_stop by assumption.
  rewrite DecimalFacts.app_nil_r, DecimalN.Unsigned.of_to. simpl.
  now rewrite make_number_integer.
Qed.

Lemma digit_not_minus (c : N) : Str.is_digit c = true -> (c =? 45)%N = false.
Proof.
  unfold Str.is_digit. intros H. apply andb_true_iff in H as [H _].
  apply N.leb_le in H. apply N.eqb_neq. lia.
Qed.

Lemma parse_number_of_N (n : N) (rest : js_string) :
  stop rest = true ->
  JSON.parse_number (Str.of_N n ++ rest) = Some (Js.Int (Z.of_N n), rest).
Proof.
  intros H. rewrite <- (parse_unsigned_of_N false n rest H).
  destruct (of_N_first n) as (c & t & E & D). rewrite E. simpl.
  now rewrite (digit_not_minus c D).
Qed.

Lemma parse_number_of_Z (z : Z) (rest : js_string) :
  stop rest = true ->
  JSON.parse_number (Str.of_Z z ++ rest) = Some (Js.Int z, rest).
Proof.
  intros H. destruct z as [|p|p]; unfold Str.of_Z.
  - now rewrite parse_number_of_N.
  - now rewrite parse_number_of_N.
  - simpl. now rewrite parse_unsigned_of_N.
Qed.

Lemma of_Z_first (z : Z) :
  exists c t, Str.of_Z z = c :: t /\ (Str.is_digit c = true \/ c = 45%N).
Proof.
  destruct z as [|p|p]; unfold Str.of_Z.
  - destruct (of_N_first (Z.to_N 0)) as (c & t & E & D). eauto.
  - destruct (of_N_first (Z.to_N (Zpos p))) as (c & t & E & D). eauto.
  - eauto.
Qed.

Section RoundTrip.

Local Open Scope N_scope.

Lemma hex_value_hex_digit (d : N) : d < 16 -> Str.hex_value (Str.hex_digit d) = Some d.
Proof.
  intros H. unfold Str.hex_digit, Str.hex_value.
  destruct (N.ltb_spec d 10).
  - replace ((48 <=? 48 + d) && (48 + d <=? 57)) with true.
    + f_equal. lia.
    + symmetry. apply andb_true_iff. split; apply N.leb_le; lia.
  - replace ((48 <=? 87 + d) && (87 + d <=? 57)) with false.
    + replace ((97 <=? 87 + d) && (87 + d <=? 102)) with true.
      * f_equal. lia.
      * symmetry. apply andb_true_iff. split; apply N.leb_le; lia.
    + symmetry. apply andb_false_iff. right. apply N.leb_gt. lia.
Qed.

Lemma hex_digits_value (c : N) :
  c < 65536 ->
  (c / 4096 mod 16) * 4096 + (c / 256 mod 16) * 256 + (c / 16 mod 16) * 16 + c mod 16 = c.
Proof.
  intros H.
  pose proof (N.div_mod c 16 ltac:(lia)).
  pose proof (N.div_mod (c / 16) 16 ltac:(lia)).
  pose proof (N.div_mod (c / 256) 16 ltac:(lia)).
  pose proof (N.div_mod (c / 4096) 16 ltac:(lia)).
  assert (c / 256 = c / 16 / 16) by (rewrite N.Div0.div_div; reflexivity).
  assert (c / 4096 = c / 256 / 16) by (rewrite N.Div0.div_div; reflexivity).
  assert (c / 4096 < 16) by (apply N.Div0.div_lt_upper_bound; lia).
  assert (c / 4096 mod 16 = c / 4096) by (apply N.mod_small; lia).
  lia.
Qed.

Lemma parse_chars_unicode_escape (c : N) (tail : js_string) :
  c < 65536 ->
  JSON.parse_chars (JSON.unicode_escape c ++ tail) = push c (JSON.parse_chars tail).
Proof.
  intros H. unfold JSON.unicode_escape. simpl.
  rewrite !hex_value_hex_digit by (apply N.mod_lt; lia).
  rewrite hex_digits_value by assumption. reflexivity.
Qed.

Lemma parse_chars_plain (c : N) (tail : js_string) :
  c <> 34 -> c <> 92 -> 32 <= c ->
  JSON.parse_chars (c :: tail) = push c (JSON.parse_chars tail).
Proof.
  intros H1 H2 H3. simpl.
  apply N.eqb_neq in H1, H2. rewrite H1, H2.
  replace (c <? 32) with false by (symmetry; apply N.ltb_ge; lia).
  reflexivity.
Qed.

Lemma high_bounds (c : N) : JSON.is_high_surrogate c = true -> 55296 <= c <= 56319.
Proof.
  unfold JSON.is_high_surrogate. intros H. apply andb_true_iff in H as [A B].
  apply N.leb_le in A, B. lia.
Qed.

Lemma low_bounds (c : N) : JSON.is_low_surrogate c = true -> 56320 <= c <= 57343.
Proof.
  unfold JSON.is_low_surrogate. intros H. apply andb_true_iff in H as [A B].
  apply N.leb_le in A, B. lia.
Qed.

Lemma parse_chars_escape_unit (c : N) (tail : js_string) :
  JSON.parse_chars (JSON.escape_unit c ++ tail) = push c (JSON.parse_chars tail).
Proof.
  unfold JSON.escape_unit.
  repeat match goal with
         | |- context [if ?x =? ?y then _ else _] =>
             destruct (N.eqb_spec x y) as [->|?]; [reflexivity|]
         end.
  destruct ((c <? 32) || JSON.is_high_surrogate c || JSON.is_low_surrogate c) eqn:E.
  - apply parse_chars_unicode_escape.
    apply orb_true_iff in E as [E|E]; [apply orb_true_iff in E as [E|E]|].
    + apply N.ltb_lt in E. lia.
    + apply high_bounds in E. lia.
    + apply low_bounds in E. lia.
  - apply orb_false_iff in E as [E _]. apply orb_false_iff in E as [E _].
    apply N.ltb_ge in E. now apply parse_chars_plain.
Qed.

Lemma parse_chars_quote_units (n : nat) :
  forall s rest, (List.length s <= n)%nat ->
    JSON.parse_chars (JSON.quote_units s ++ 34 :: rest) = Some (s, rest).
Proof.
  induction n as [|n IH]; intros s rest Hn.
  - destruct s; [reflexivity | simpl in Hn; lia].
  - destruct s as [|c t]; [reflexivity|]. simpl in Hn.
    cbn [JSON.quote_units].
    destruct (JSON.is_high_surrogate c) eqn:Hc.
    + apply high_bounds in Hc.
      destruct t as [|d t'].
      * rewrite parse_chars_unicode_escape by lia. reflexivity.
      * destruct (JSON.is_low_surrogate d) eqn:Hd.
        -- apply low_bounds in Hd. simpl in Hn.
           change ((c :: d :: JSON.quote_units t') ++ 34 :: rest)
             with (c :: d :: (JSON.quote_units t' ++ 34 :: rest)).
           rewrite parse_chars_plain by lia.
           rewrite parse_chars_plain by lia.
           rewrite IH by lia. reflexivity.
        -- rewrite <- app_assoc, parse_chars_unicode_escape by lia.
           rewrite IH by (simpl in *; lia). reflexivity.
    + rewrite <- app_assoc, parse_chars_escape_unit.
      rewrite IH by lia. reflexivity.
Qed.

Lemma parse_chars_quote (s rest : js_string) :
  JSON.parse_chars (JSON.quote_units s ++ 34 :: rest) = Some (s, rest).
Proof. now apply (parse_chars_quote_units (List.length s)). Qed.

Lemma value_induction (P : value -> Prop) :
  P VUndefined -> P VNull -> (forall b, P (VBool b)) -> (forall n, P (VNum n)) ->
  (forall s, P (VStr s)) ->
  (forall l, Forall P l -> P (VArr l)) ->
  (forall l, Forall (fun kv => P (snd kv)) l -> P (VObj l)) ->
  forall v, P v.
Proof.
  intros Hu Hn Hb Hm Hs Ha Ho.
  fix IH 1. intros [| |b|n|s|l|l].
  - exact Hu.
  - exact Hn.
  - apply Hb.
  - apply Hm.
  - apply Hs.
  - apply Ha. induction l as [|x t IHl]; constructor; [apply IH | exact IHl].
  - apply Ho. induction l as [|[k x] t IHl]; constructor; [apply IH | exact IHl].
Qed.

Lemma opener_not_ws (c : N) : opener c = true -> is_ws c = false.
Proof.
  unfold opener, is_ws, Str.is_digit. intros H.
  repeat (apply orb_true_iff in H as [H|H]);
    try (apply N.eqb_eq in H; subst c; reflexivity).
  apply andb_true_iff in H as [A B]. apply N.leb_le in A, B.
  repeat (apply orb_false_iff; split); apply N.eqb_neq; lia.
Qed.

Lemma skip_ws_opener (c : N) (t : js_string) :
  opener c = true -> skip_ws (c :: t) = c :: t.
Proof. intros H. simpl. now rewrite (opener_not_ws c H). Qed.

Lemma serialize_first (v : value) :
  well_formed v = true -> exists c t, serialize v = c :: t /\ opener c = true.
Proof.
  destruct v as [| |[|]|[z|m e]|s|l|l]; simpl; intros H;
    try (eexists; eexists; split; reflexivity); try discriminate.
  destruct (of_Z_first z) as (c & t & E & [D|D]).
  - exists c, t. split; [exact E|]. unfold opener. rewrite D.
    now rewrite !orb_true_r.
  - exists c, t. split; [exact E|]. subst c. reflexivity.
Qed.

Lemma skip_ws_serialize (v : value) (rest : js_string) :
  well_formed v = true -> skip_ws (serialize v ++ rest) = serialize v ++ rest.
Proof.
  intros H. destruct (serialize_first v H) as (c & t & E & O).
  rewrite E. simpl. now rewrite (opener_not_ws c O).
Qed.

Lemma parse_value_number (f : nat) (c : N) (t : js_string) :
  Str.is_digit c = true \/ c = 45 ->
  parse_value (S f) (c :: t)
  = match parse_number (c :: t) with
    | Some (n, r) => POk (VNum n) r
    | None => PErr
    end.
Proof.
  intros H.
  assert (E : (c =? 34) = false /\ (c =? 91) = false /\ (c =? 123) = false
              /\ (c =? 116) = false /\ (c =? 102) = false /\ (c =? 110) = false).
  { destruct H as [H| ->]; [|repeat split; reflexivity].
    unfold Str.is_digit in H. apply andb_true_iff in H as [A B].
    apply N.leb_le in A, B. repeat split; apply N.eqb_neq; lia. }
  destruct E as (E1 & E2 & E3 & E4 & E5 & E6).
  cbn [parse_value]. now rewrite E1, E2, E3, E4, E5, E6.
Qed.

Lemma join_comma_cons (x : js_string) (l : list js_string) :
  l <> [] -> join_comma (x :: l) = x ++ 44 :: join_comma l.
Proof. destruct l; [congruence | reflexivity]. Qed.

Lemma parse_elements_serialize (l : list value) :
  l <> [] ->
  Forall (fun v => well_formed v = true /\ parses v) l ->
  forall fuel rest,
    (2 * List.length (join_comma (List.map serialize l) ++ 93%N :: rest) + 1 < fuel)%nat ->
    parse_elements fuel (join_comma (List.map serialize l) ++ 93 :: rest)
    = POk (List.map normalize l) rest.
Proof.
  induction l as [|x t IH]; [congruence|]. intros _ HF fuel rest Hf.
  inversion HF as [|? ? [Hw Hp] HF']; subst.
  destruct fuel as [|f]; [lia|].
  destruct t as [|y t'].
  - cbn [List.map join_comma] in *. cbn [parse_elements].
    rewrite Hp by (reflexivity || lia). reflexivity.
  - rewrite map_cons, join_comma_cons in Hf |- * by discriminate.
    rewrite <- app_assoc in Hf |- *. cbn [app] in Hf |- *.
    cbn [parse_elements].
    rewrite Hp; [|reflexivity|lia].
    cbn [skip_ws is_ws N.eqb Pos.eqb orb].
    change (44 =? 44) with true. cbv iota.
    assert (Hy : well_formed y = true) by (inversion HF' as [|? ? [A _] _]; exact A).
    assert (E : skip_ws (join_comma (List.map serialize (y :: t')) ++ 93 :: rest)
                = join_comma (List.map serialize (y :: t')) ++ 93 :: rest).
    { destruct t' as [|z t''].
      - cbn [List.map join_comma]. now apply skip_ws_serialize.
      - rewrite map_cons, join_comma_cons by discriminate.
        rewrite <- app_assoc. now apply skip_ws_serialize. }
    rewrite E. rewrite IH; [reflexivity|discriminate|exact HF'|].
    rewrite length_app in Hf. cbn [List.length] in Hf. lia.
Qed.

Ltac len_solve :=
  repeat (progress cbn [List.length] in *
          || match goal with
             | H : context [List.length (_ ++ _)] |- _ => rewrite length_app in H
             | |- context [List.length (_ ++ _)] => rewrite length_app
             end);
  lia.

Lemma opener_not_close (c : N) :
  opener c = true -> (c =? 93) = false /\ (c =? 125) = false /\ (c =? 44) = false.
Proof.
  unfold opener, Str.is_digit. intros H.
  repeat (apply orb_true_iff in H as [H|H]);
    try (apply N.eqb_eq in H; subst c; repeat split; reflexivity).
  apply andb_true_iff in H as [A B]. apply N.leb_le in A, B.
  repeat split; apply N.eqb_neq; lia.
Qed.

Lemma members_nil_kept (f : value -> js_string) (g : value -> value) (l : props) :
  members f l = [] -> kept g l = [].
Proof.
  induction l as [|[k x] t IH]; [reflexivity|]. cbn [members kept].
  destruct (is_undefined x); [exact IH | discriminate].
Qed.

Lemma members_first (l : props) (m : js_string) (ms : list js_string) :
  members serialize l = m :: ms -> exists r, m = 34 :: r.
Proof.
  induction l as [|[k x] t IH]; [discriminate|]. cbn [members].
  destruct (is_undefined x); [exact IH|].
  intros E. inversion E. eexists. reflexivity.
Qed.

Lemma skip_ws_members (l : props) (rest : js_string) :
  members serialize l <> [] ->
  skip_ws (join_comma (members serialize l) ++ rest)
  = join_comma (members serialize l) ++ rest.
Proof.
  intros H. destruct (members serialize l) as [|m ms] eqn:E; [congruence|].
  destruct (members_first l m ms E) as (r & ->).
  destruct ms; reflexivity.
Qed.

Lemma parse_members_serialize (l : props) :
  Forall (fun kv => well_formed (snd kv) = true /\ parses (snd kv)) l ->
  members serialize l <> [] ->
  forall fuel rest,
    (2 * List.length (join_comma (members serialize l) ++ 125%N :: rest) + 1 < fuel)%nat ->
    parse_members fuel (join_comma (members serialize l) ++ 125 :: rest)
    = POk (kept normalize l) rest.
Proof.
  induction l as [|[k x] t IH]; [intros _ H; now elim H|].
  intros HF Hne fuel rest Hf.
  inversion HF as [|? ? [Hw Hp] HF']; subst. cbn [snd] in Hw, Hp.
  revert Hne Hf. cbn [members kept].
  destruct (is_undefined x) eqn:Hu; [intros A B; now apply IH|].
  intros _ Hf. destruct fuel as [|f]; [lia|].
  pose proof (skip_ws_members t) as Hskip.
  destruct (members serialize t) as [|m ms] eqn:Em.
  - rewrite (members_nil_kept serialize normalize t Em).
    cbn [join_comma] in Hf |- *. unfold quote in Hf |- *.
    rewrite <- !app_assoc in Hf |- *. cbn [app] in Hf |- *.
    rewrite <- !app_assoc in Hf |- *. cbn [app] in Hf |- *.
    cbn [parse_members]. change (34 =? 34) with true. cbv iota.
    rewrite parse_chars_quote.
    cbn [skip_ws is_ws N.eqb Pos.eqb orb]. change (58 =? 58) with true. cbv iota.
    rewrite skip_ws_serialize by assumption.
    rewrite Hp; [reflexivity|reflexivity|len_solve].
  - rewrite join_comma_cons in Hf |- * by discriminate.
    unfold quote in Hf |- *.
    rewrite <- !app_assoc in Hf |- *. cbn [app] in Hf |- *.
    rewrite <- !app_assoc in Hf |- *. cbn [app] in Hf |- *.
    cbn [parse_members]. change (34 =? 34) with true. cbv iota.
    rewrite parse_chars_quote.
    cbn [skip_ws is_ws N.eqb Pos.eqb orb]. change (58 =? 58) with true. cbv iota.
    rewrite skip_ws_serialize by assumption.
    rewrite Hp; [|reflexivity|len_solve].
    cbn [skip_ws is_ws N.eqb Pos.eqb orb]. change (44 =? 44) with true. cbv iota.
    rewrite Hskip by discriminate.
    rewrite IH; [reflexivity|exact HF'|discriminate|len_solve].
Qed.

Lemma joined_first (l : list value) :
  l <> [] -> forallb well_formed l = true ->
  exists c t, join_comma (List.map serialize l) = c :: t /\ opener c = true.
Proof.
  destruct l as [|x t]; [congruence|]. intros _ H. cbn [forallb] in H.
  apply andb_true_iff in H as [Hx _].
  destruct (serialize_first x Hx) as (c & r & E & O).
  destruct t as [|y t'].
  - exists c, r. now split.
  - rewrite map_cons, join_comma_cons by discriminate. rewrite E.
    eexists; eexists; split; [reflexivity|exact O].
Qed.

Lemma forall_parses (l : list value) :
  Forall (fun v => well_formed v = true -> parses v) l ->
  forallb well_formed l = true ->
  Forall (fun v => well_formed v = true /\ parses v) l.
Proof.
  induction 1 as [|x t Hx _ IH]; intros H; constructor.
  - cbn [forallb] in H. apply andb_true_iff in H as [A _]. auto.
  - apply IH. cbn [forallb] in H. now apply andb_true_iff in H as [_ B].
Qed.

Lemma forall_parses_props (l : props) :
  Forall (fun kv => well_formed (snd kv) = true -> parses (snd kv)) l ->
  forallb (fun kv => well_formed (snd kv)) l = true ->
  Forall (fun kv => well_formed (snd kv) = true /\ parses (snd kv)) l.
Proof.
  induction 1 as [|x t Hx _ IH]; intros H; constructor.
  - cbn [forallb] in H. apply andb_true_iff in H as [A _]. auto.
  - apply IH. cbn [forallb] in H. now apply andb_true_iff in H as [_ B].
Qed.

Theorem parse_value_serialize (v : value) : well_formed v = true -> parses v.
Proof.
  induction v as [| |b|n|s|l IH|l IH] using value_induction;
    intros Hw fuel rest Hs Hf; (destruct fuel as [|f]; [lia|]).
  - reflexivity.
  - reflexivity.
  - destruct b; reflexivity.
  - destruct n as [z|m e]; [|discriminate]. cbn [serialize number_to_string normalize].
    destruct (of_Z_first z) as (c & t & E & D).
    rewrite E. cbn [app]. rewrite parse_value_number by exact D.
    change (c :: t ++ rest) with ((c :: t) ++ rest). rewrite <- E.
    now rewrite parse_number_of_Z.
  - cbn [serialize normalize]. unfold quote. cbn [app].
    rewrite <- app_assoc. cbn [app parse_value].
    change (34 =? 34) with true. cbv iota. now rewrite parse_chars_quote.
  - cbn [well_formed] in Hw. cbn [serialize normalize] in Hf |- *.
    cbn [app] in Hf |- *. rewrite <- app_assoc in Hf |- *. cbn [app] in Hf |- *.
    cbn [parse_value]. change (91 =? 34) with false. change (91 =? 91) with true.
    cbv iota.
    destruct l as [|x t]; [reflexivity|].
    destruct (joined_first (x :: t) ltac:(discriminate) Hw) as (c & r & E & O).
    destruct (opener_not_close c O) as (C1 & _ & _).
    remember (join_comma (List.map serialize (x :: t)) ++ 93 :: rest) as body eqn:Eb.
    assert (Ec : body = c :: r ++ 93 :: rest) by (rewrite Eb, E; reflexivity).
    rewrite Ec at 1. rewrite skip_ws_opener by exact O. rewrite C1.
    rewrite <- Ec, Eb.
    rewrite parse_elements_serialize; [reflexivity|discriminate| |].
    + now apply forall_parses.
    + rewrite <- Eb. len_solve.
  - cbn [well_formed] in Hw. apply andb_true_iff in Hw as [_ Hw].
    cbn [serialize normalize] in Hf |- *.
    cbn [app] in Hf |- *. rewrite <- app_assoc in Hf |- *. cbn [app] in Hf |- *.
    cbn [parse_value]. change (123 =? 34) with false. change (123 =? 91) with false.
    change (123 =? 123) with true. cbv iota.
    destruct (members serialize l) as [|m ms] eqn:Em.
    + rewrite (members_nil_kept serialize normalize l Em). reflexivity.
    + assert (Ec : exists r', join_comma (m :: ms) ++ 125 :: rest = 34 :: r').
      { destruct (members_first l m ms Em) as (r & ->).
        destruct ms; eexists; reflexivity. }
      destruct Ec as (r' & Ec). rewrite Ec.
      cbn [skip_ws is_ws N.eqb Pos.eqb orb]. change (34 =? 125) with false. cbv iota.
      rewrite <- Ec, <- Em.
      rewrite parse_members_serialize; [reflexivity| | |].
      * now apply forall_parses_props.
      * rewrite Em. discriminate.
      * rewrite Em. len_solve.
Qed.

End RoundTrip.

(** ** Objects *)

Lemma js_string_eqb_sym (a b : js_string) : js_string_eqb a b = js_string_eqb b a.
Proof.
  destruct (js_string_eqb a b) eqn:E.
  - apply js_string_eqb_eq in E. subst. now rewrite js_string_eqb_refl.
  - destruct (js_string_eqb b a) eqn:E'; [|reflexivity].
    apply js_string_eqb_eq in E'. subst. now rewrite js_string_eqb_refl in E.
Qed.

Lemma has_key_lookup (k : js_string) (l : props) :
  has_key k l = false <-> lookup k l = None.
Proof.
  induction l as [|[k' v] t IH]; cbn [has_key lookup]; [tauto|].
  destruct (js_string_eqb k k'); cbn [orb]; [split; discriminate | exact IH].
Qed.

Lemma lookup_replace_prop (k k' : js_string) (v : value) (l : props) :
  has_key k' l = true ->
  lookup k (replace_prop k' v l)
  = if js_string_eqb k k' then Some v else lookup k l.
Proof.
  induction l as [|[k0 v0] t IH]; cbn [has_key replace_prop]; [discriminate|].
  destruct (js_string_eqb k' k0) eqn:E0; cbn [orb]; intros H.
  - apply js_string_eqb_eq in E0. subst k0. cbn [lookup].
    now destruct (js_string_eqb k k').
  - cbn [lookup]. rewrite (IH H).
    destruct (js_string_eqb k k0) eqn:E1; [|reflexivity].
    apply js_string_eqb_eq in E1. subst k0.
    now rewrite js_string_eqb_sym, E0.
Qed.

Lemma lookup_insert_index (k k' : js_string) (n : N) (v : value) (l : props) :
  has_key k' l = false ->
  lookup k (insert_index n k' v l)
  = if js_string_eqb k k' then Some v else lookup k l.
Proof.
  induction l as [|[k0 v0] t IH]; cbn [has_key insert_index]; [reflexivity|].
  intros H. apply orb_false_iff in H as [E0 H].
  assert (G : lookup k ((k', v) :: (k0, v0) :: t)
              = if js_string_eqb k k' then Some v else lookup k ((k0, v0) :: t))
    by reflexivity.
  destruct (array_index k0) as [n'|]; [|exact G].
  destruct (n' <? n)%N; [|exact G].
  cbn [lookup]. rewrite (IH H).
  destruct (js_string_eqb k k0) eqn:E1; [|reflexivity].
  apply js_string_eqb_eq in E1. subst k0.
  now rewrite js_string_eqb_sym, E0.
Qed.

Lemma lookup_app_last (k k' : js_string) (v : value) (l : props) :
  has_key k' l = false ->
  lookup k (l ++ [(k', v)]) = if js_string_eqb k k' then Some v else lookup k l.
Proof.
  induction l as [|[k0 v0] t IH]; cbn [has_key app lookup]; [reflexivity|].
  intros H. apply orb_false_iff in H as [E0 H]. rewrite (IH H).
  destruct (js_string_eqb k k0) eqn:E1; [|reflexivity].
  apply js_string_eqb_eq in E1. subst k0.
  now rewrite js_string_eqb_sym, E0.
Qed.

Lemma lookup_define_prop (k k' : js_string) (v : value) (o : props) :
  lookup k (define_prop o k' v) = if js_string_eqb k k' then Some v else lookup k o.
Proof.
  unfold define_prop. destruct (has_key k' o) eqn:H.
  - now apply lookup_replace_prop.
  - destruct (array_index k').
    + now apply lookup_insert_index.
    + now apply lookup_app_last.
Qed.

Lemma has_key_define_prop (k k' : js_string) (v : value) (o : props) :
  has_key k (define_prop o k' v) = js_string_eqb k k' || has_key k o.
Proof.
  pose proof (lookup_define_prop k k' v o) as L.
  destruct (has_key k (define_prop o k' v)) eqn:A.
  - destruct (js_string_eqb k k'); [reflexivity|]. cbn [orb].
    destruct (has_key k o) eqn:B; [reflexivity|].
    apply has_key_lookup in B. rewrite B in L. apply has_key_lookup in L. congruence.
  - apply has_key_lookup in A. rewrite A in L.
    destruct (js_string_eqb k k'); [discriminate|]. cbn [orb].
    symmetry in L. symmetry. now apply has_key_lookup.
Qed.

Lemma distinct_replace_prop (k : js_string) (v : value) (l : props) :
  distinct_keys l = true -> distinct_keys (replace_prop k v l) = true.
Proof.
  induction l as [|[k0 v0] t IH]; [reflexivity|]. cbn [distinct_keys replace_prop].
  intros H. apply andb_true_iff in H as [A B].
  destruct (js_string_eqb k k0) eqn:E; cbn [distinct_keys].
  - now rewrite A, B.
  - rewrite (IH B), andb_true_r.
    apply negb_true_iff in A. apply negb_true_iff.
    apply has_key_lookup. apply has_key_lookup in A.
    destruct (has_key k t) eqn:Hk.
    + rewrite lookup_replace_prop by exact Hk.
      rewrite js_string_eqb_sym, E. exact A.
    + clear IH B. induction t as [|[k1 v1] t' IHt]; [reflexivity|].
      cbn [has_key] in Hk. apply orb_false_iff in Hk as [E1 Hk].
      cbn [replace_prop]. rewrite E1. cbn [lookup] in A |- *.
      destruct (js_string_eqb k0 k1); [discriminate|]. now apply IHt.
Qed.

Lemma distinct_insert_index (n : N) (k : js_string) (v : value) (l : props) :
  has_key k l = false -> distinct_keys l = true ->
  distinct_keys (insert_index n k v l) = true.
Proof.
  induction l as [|[k0 v0] t IH]; [reflexivity|].
  intros Hk Hd.
  assert (G : distinct_keys ((k, v) :: (k0, v0) :: t) = true).
  { change (negb (has_key k ((k0, v0) :: t)) && distinct_keys ((k0, v0) :: t) = true).
    now rewrite Hk, Hd. }
  cbn [insert_index]. destruct (array_index k0) as [n'|]; [|exact G].
  destruct (n' <? n)%N; [|exact G].
  cbn [has_key] in Hk. apply orb_false_iff in Hk as [E Hk].
  cbn [distinct_keys] in Hd |- *. apply andb_true_iff in Hd as [A B].
  rewrite (IH Hk B), andb_true_r.
  apply negb_true_iff in A. apply negb_true_iff.
  apply has_key_lookup. rewrite lookup_insert_index by exact Hk.
  destruct (js_string_eqb k0 k) eqn:E'.
  - apply js_string_eqb_eq in E'. subst. now rewrite js_string_eqb_refl in E.
  - now apply has_key_lookup.
Qed.

Lemma distinct_app_last (k : js_string) (v : value) (l : props) :
  has_key k l = false -> distinct_keys l = true ->
  distinct_keys (l ++ [(k, v)]) = true.
Proof.
  induction l as [|[k0 v0] t IH]; [reflexivity|].
  cbn [has_key app distinct_keys]. intros Hk Hd.
  apply orb_false_iff in Hk as [E Hk]. apply andb_true_iff in Hd as [A B].
  rewrite (IH Hk B), andb_true_r.
  apply negb_true_iff in A. apply negb_true_iff.
  apply has_key_lookup. rewrite lookup_app_last by exact Hk.
  destruct (js_string_eqb k0 k) eqn:E'.
  - apply js_string_eqb_eq in E'. subst. now rewrite js_string_eqb_refl in E.
  - now apply has_key_lookup.
Qed.

Lemma distinct_define_prop (k : js_string) (v : value) (o : props) :
  distinct_keys o = true -> distinct_keys (define_prop o k v) = true.
Proof.
  intros H. unfold define_prop. destruct (has_key k o) eqn:Hk.
  - now apply distinct_replace_prop.
  - destruct (array_index k).
    + now apply distinct_insert_index.
    + now apply distinct_app_last.
Qed.

Lemma distinct_define_props (l o : props) :
  distinct_keys o = true -> distinct_keys (define_props o l) = true.
Proof.
  revert o. induction l as [|[k v] t IH]; intros o H; [exact H|].
  cbn [define_props fold_left]. apply IH. now apply distinct_define_prop.
Qed.

Lemma lookup_define_props (k : js_string) (l o : props) :
  distinct_keys l = true ->
  lookup k (define_props o l)
  = match lookup k l with Some v => Some v | None => lookup k o end.
Proof.
  revert o. induction l as [|[k0 v0] t IH]; intros o H; [reflexivity|].
  cbn [distinct_keys] in H. apply andb_true_iff in H as [A B].
  change (define_props o ((k0, v0) :: t)) with (define_props (define_prop o k0 v0) t).
  rewrite (IH _ B), lookup_define_prop. cbn [lookup].
  destruct (js_string_eqb k k0) eqn:E; [|reflexivity].
  apply js_string_eqb_eq in E. subst k0.
  apply negb_true_iff in A. apply has_key_lookup in A. now rewrite A.
Qed.

(** Values of the properties. *)

Lemma all_values_replace_prop (P : value -> bool) (k : js_string) (v : value) (l : props) :
  P v = true -> all_values P l = true -> all_values P (replace_prop k v l) = true.
Proof.
  intros Hv. induction l as [|[k0 v0] t IH]; [reflexivity|].
  unfold all_values in *. cbn [forallb replace_prop snd]. intros H.
  apply andb_true_iff in H as [A B].
  destruct (js_string_eqb k k0); cbn [forallb snd].
  - now rewrite Hv, B.
  - now rewrite A, (IH B).
Qed.

Lemma all_values_insert_index (P : value -> bool) (n : N) (k : js_string)
      (v : value) (l : props) :
  P v = true -> all_values P l = true -> all_values P (insert_index n k v l) = true.
Proof.
  intros Hv. induction l as [|[k0 v0] t IH]; intros H.
  - unfold all_values. cbn. now rewrite Hv.
  - assert (G : all_values P ((k, v) :: (k0, v0) :: t) = true).
    { unfold all_values in *. cbn [forallb snd] in *. now rewrite Hv, H. }
    cbn [insert_index]. destruct (array_index k0) as [n'|]; [|exact G].
    destruct (n' <? n)%N; [|exact G].
    unfold all_values in *. cbn [forallb snd] in *.
    apply andb_true_iff in H as [A B]. now rewrite A, (IH B).
Qed.

Lemma all_values_define_prop (P : value -> bool) (k : js_string) (v : value) (o : props) :
  P v = true -> all_values P o = true -> all_values P (define_prop o k v) = true.
Proof.
  intros Hv Ho. unfold define_prop. destruct (has_key k o).
  - now apply all_values_replace_prop.
  - destruct (array_index k).
    + now apply all_values_insert_index.
    + unfold all_values in *. rewrite forallb_app, Ho. cbn. now rewrite Hv.
Qed.

Lemma all_values_define_props (P : value -> bool) (l o : props) :
  all_values P l = true -> all_values P o = true ->
  all_values P (define_props o l) = true.
Proof.
  revert o. induction l as [|[k v] t IH]; intros o Hl Ho; [exact Ho|].
  unfold all_values in Hl. cbn [forallb snd] in Hl.
  apply andb_true_iff in Hl as [A B].
  change (define_props o ((k, v) :: t)) with (define_props (define_prop o k v) t).
  apply IH; [exact B|]. now apply all_values_define_prop.
Qed.

(** What [kept] keeps. *)

Lemma lookup_kept (g : value -> value) (k : js_string) (l : props) :
  distinct_keys l = true ->
  lookup k (kept g l)
  = match lookup k l with
    | Some x => if is_undefined x then None else Some (g x)
    | None => None
    end.
Proof.
  induction l as [|[k0 v0] t IH]; [reflexivity|].
  cbn [distinct_keys kept lookup]. intros H. apply andb_true_iff in H as [A B].
  destruct (is_undefined v0) eqn:U.
  - rewrite (IH B). destruct (js_string_eqb k k0) eqn:E; [|reflexivity].
    apply js_string_eqb_eq in E. subst k0.
    apply negb_true_iff in A. apply has_key_lookup in A. now rewrite A, U.
  - cbn [lookup]. destruct (js_string_eqb k k0); [now rewrite U | exact (IH B)].
Qed.

Lemma has_key_kept (g : value -> value) (k : js_string) (l : props) :
  has_key k l = false -> has_key k (kept g l) = false.
Proof.
  induction l as [|[k0 v0] t IH]; [reflexivity|]. cbn [has_key kept].
  intros H. apply orb_false_iff in H as [A B].
  destruct (is_undefined v0); [now apply IH|].
  cbn [has_key]. now rewrite A, (IH B).
Qed.

Lemma distinct_kept (g : value -> value) (l : props) :
  distinct_keys l = true -> distinct_keys (kept g l) = true.
Proof.
  induction l as [|[k0 v0] t IH]; [reflexivity|]. cbn [distinct_keys kept].
  intros H. apply andb_true_iff in H as [A B].
  destruct (is_undefined v0); [now apply IH|].
  cbn [distinct_keys]. rewrite (IH B), andb_true_r.
  apply negb_true_iff in A. apply negb_true_iff. now apply has_key_kept.
Qed.

(** A property of a serialized and re-read object. *)
Lemma lookup_normalize (k : js_string) (o : props) :
  distinct_keys o = true ->
  forall o', normalize (VObj o) = VObj o' ->
  lookup k o'
  = match lookup k o with
    | Some x => if is_undefined x then None else Some (normalize x)
    | None => None
    end.
Proof.
  intros H o' E. cbn [normalize] in E. inversion E; subst o'.
  rewrite lookup_define_props by now apply distinct_kept.
  rewrite lookup_kept by exact H.
  destruct (lookup k o) as [x|]; [|reflexivity].
  destruct (is_undefined x); reflexivity.
Qed.

(** ** [JSON.parse] after [JSON.stringify] *)

Theorem parse_serialize (v : value) :
  well_formed v = true -> JSON.parse (serialize v) = Some (normalize v).
Proof.
  intros H. unfold JSON.parse.
  rewrite <- (List.app_nil_r (serialize v)) at 2.
  rewrite skip_ws_serialize by exact H.
  rewrite (parse_value_serialize v H); [reflexivity|reflexivity|].
  rewrite List.app_nil_r. lia.
Qed.

(** ** The parser never exhausts its budget *)

Lemma skip_ws_length (s : js_string) : List.length (skip_ws s) <= List.length s.
Proof.
  induction s as [|c t IH]; cbn [skip_ws]; [lia|].
  destruct (is_ws c); cbn [List.length] in *; lia.
Qed.

Lemma skip_ws_cons_length (s r : js_string) (d : N) :
  skip_ws s = d :: r -> List.length r < List.length s.
Proof.
  intros E. pose proof (skip_ws_length s) as H. rewrite E in H.
  cbn [List.length] in H. lia.
Qed.

Lemma scan_digits_length (s : js_string) :
  forall u r, Str.scan_digits s = (u, r) ->
    List.length r <= List.length s
    /\ (uint_is_nil u = false -> List.length r < List.length s).
Proof.
  induction s as [|c t IH]; cbn [Str.scan_digits]; intros u r E.
  - inversion E; subst. split; [lia|discriminate].
  - destruct (Str.is_digit c).
    + destruct (Str.scan_digits t) as [u' r'] eqn:E'. inversion E; subst.
      destruct (IH u' r eq_refl) as [A _]. cbn [List.length]. split; lia.
    + inversion E; subst. split; [lia|discriminate].
Qed.

Lemma parse_chars_length (n : nat) :
  forall s u r, List.length s <= n -> parse_chars s = Some (u, r) ->
    List.length r < List.length s.
Proof.
  induction n as [|n IH]; intros s u r Hn E.
  - destruct s; [discriminate | cbn [List.length] in Hn; lia].
  - destruct s as [|c t]; [discriminate|]. cbn [List.length] in Hn.
    cbn [parse_chars] in E.
    destruct (c =? 34)%N; [inversion E; subst; cbn [List.length]; lia|].
    destruct (c =? 92)%N.
    + destruct t as [|e t1]; [discriminate|]. cbn [List.length] in Hn.
      destruct (e =? 117)%N.
      * destruct t1 as [|h1 [|h2 [|h3 [|h4 t2]]]]; try discriminate.
        destruct (Str.hex_value h1), (Str.hex_value h2), (Str.hex_value h3),
          (Str.hex_value h4); try discriminate.
        destruct (parse_chars t2) as [[u' r']|] eqn:E'; [|discriminate].
        inversion E; subst. cbn [List.length] in *.
        pose proof (IH t2 u' r ltac:(lia) E'). lia.
      * destruct (unescape e); [|discriminate].
        destruct (parse_chars t1) as [[u' r']|] eqn:E'; [|discriminate].
        inversion E; subst. cbn [List.length] in *.
        pose proof (IH t1 u' r ltac:(lia) E'). lia.
    + destruct (c <? 32)%N; [discriminate|].
      destruct (parse_chars t) as [[u' r']|] eqn:E'; [|discriminate].
      inversion E; subst. cbn [List.length] in *.
      pose proof (IH t u' r ltac:(lia) E'). lia.
Qed.

Lemma parse_fraction_length (s : js_string) (f : Decimal.uint) (r : js_string) :
  parse_fraction s = Some (f, r) -> List.length r <= List.length s.
Proof.
  unfold parse_fraction. destruct s as [|c t]; [intros E; inversion E; subst; lia|].
  destruct (c =? 46)%N.
  - destruct (Str.scan_digits t) as [u r'] eqn:E'.
    destruct (uint_is_nil u); [discriminate|]. intros E. inversion E; subst.
    destruct (scan_digits_length t _ _ E') as [A _]. cbn [List.length]. lia.
  - intros E. inversion E; subst. lia.
Qed.

Lemma parse_exponent_length (s : js_string) (x : Z) (r : js_string) :
  parse_exponent s = Some (x, r) -> List.length r <= List.length s.
Proof.
  unfold parse_exponent. destruct s as [|c t]; [intros E; inversion E; subst; lia|].
  destruct ((c =? 101)%N || (c =? 69)%N).
  - assert (H : forall b t1, (let (eneg, t1') := (b, t1) : bool * js_string in
                 let (x0, r0) := Str.scan_digits t1' in
                 if uint_is_nil x0 then None
                 else Some (if eneg then (- Z.of_N (N.of_uint x0))%Z
                            else Z.of_N (N.of_uint x0), r0)) = Some (x, r) ->
                List.length r <= List.length t1).
    { intros b t1. destruct (Str.scan_digits t1) as [u r'] eqn:E'.
      destruct (uint_is_nil u); [discriminate|]. intros E. inversion E; subst.
      now destruct (scan_digits_length t1 _ _ E'). }
    destruct t as [|d t'];
      [intros E; apply (H false []) in E; cbn [List.length] in *; lia|].
    destruct (d =? 45)%N;
      [intros E; apply (H true t') in E; cbn [List.length] in *; lia|].
    destruct (d =? 43)%N; intros E;
      [apply (H false t') in E | apply (H false (d :: t')) in E];
      cbn [List.length] in *; lia.
  - intros E. inversion E; subst. lia.
Qed.

Lemma parse_unsigned_length (neg : bool) (s : js_string) (n : number) (r : js_string) :
  parse_unsigned neg s = Some (n, r) -> List.length r < List.length s.
Proof.
  unfold parse_unsigned. destruct (Str.scan_digits s) as [ip s2] eqn:E1.
  destruct (uint_is_nil ip) eqn:Hn; [discriminate|]. cbn [orb].
  destruct (leading_zero ip); [discriminate|].
  destruct (parse_fraction s2) as [[f s3]|] eqn:E2; [|discriminate].
  destruct (parse_exponent s3) as [[x r']|] eqn:E3; [|discriminate].
  intros E. inversion E; subst.
  destruct (scan_digits_length s _ _ E1) as [_ A]. specialize (A Hn).
  apply parse_fraction_length in E2. apply parse_exponent_length in E3. lia.
Qed.

Lemma parse_number_length (s : js_string) (n : number) (r : js_string) :
  parse_number s = Some (n, r) -> List.length r < List.length s.
Proof.
  unfold parse_number. destruct s as [|c t]; [discriminate|].
  destruct (c =? 45)%N; intros E; apply parse_unsigned_length in E;
    cbn [List.length] in *; lia.
Qed.

Lemma strip_prefix_length (p s r : js_string) :
  strip_prefix p s = Some r -> List.length r <= List.length s.
Proof.
  revert s. induction p as [|a p IH]; intros s; cbn [strip_prefix].
  - intros E. inversion E; subst. lia.
  - destruct s as [|b s']; [discriminate|].
    destruct (a =? b)%N; [|discriminate]. intros E. apply IH in E.
    cbn [List.length]. lia.
Qed.

Lemma keyword_length (w : js_string) (v v' : value) (s r : js_string) :
  keyword w v s = POk v' r -> List.length r <= List.length s.
Proof.
  unfold keyword. destruct (strip_prefix w s) as [r'|] eqn:E; [|discriminate].
  intros H. inversion H; subst. now apply strip_prefix_length in E.
Qed.

Lemma keyword_no_fuel (w : js_string) (v : value) (s : js_string) :
  keyword w v s <> PFuel.
Proof. unfold keyword. destruct (strip_prefix w s); discriminate. Qed.

Lemma parse_consumes (fuel : nat) : consumes fuel.
Proof.
  induction fuel as [|f (IHv & IHe & IHm)]; [repeat split; discriminate|].
  repeat split.
  - intros s v r. cbn [parse_value]. destruct s as [|c t]; [discriminate|].
    cbn [List.length].
    destruct (c =? 34)%N.
    { destruct (parse_chars t) as [[u r']|] eqn:E; [|discriminate].
      intros H. inversion H; subst.
      apply (parse_chars_length (List.length t)) in E; lia. }
    destruct (c =? 91)%N.
    { destruct (skip_ws t) as [|d r'] eqn:E; [discriminate|].
      pose proof (skip_ws_length t) as L. rewrite E in L.
      destruct (d =? 93)%N.
      - intros H. inversion H; subst. cbn [List.length] in L. lia.
      - destruct (parse_elements f (d :: r')) as [l r''| |] eqn:E'; try discriminate.
        intros H. inversion H; subst. apply IHe in E'. lia. }
    destruct (c =? 123)%N.
    { destruct (skip_ws t) as [|d r'] eqn:E; [discriminate|].
      pose proof (skip_ws_length t) as L. rewrite E in L.
      destruct (d =? 125)%N.
      - intros H. inversion H; subst. cbn [List.length] in L. lia.
      - destruct (parse_members f (d :: r')) as [l r''| |] eqn:E'; try discriminate.
        intros H. inversion H; subst. apply IHm in E'. lia. }
    destruct (c =? 116)%N; [intros H; apply keyword_length in H; lia|].
    destruct (c =? 102)%N; [intros H; apply keyword_length in H; lia|].
    destruct (c =? 110)%N; [intros H; apply keyword_length in H; lia|].
    destruct (parse_number (c :: t)) as [[n r']|] eqn:E; [|discriminate].
    intros H. inversion H; subst. apply parse_number_length in E.
    cbn [List.length] in E. lia.
  - intros s l r. cbn [parse_elements].
    destruct (parse_value f s) as [v r1| |] eqn:E; try discriminate.
    apply IHv in E.
    destruct (skip_ws r1) as [|d r2] eqn:E1; [discriminate|].
    apply skip_ws_cons_length in E1.
    destruct (d =? 44)%N.
    + destruct (parse_elements f (skip_ws r2)) as [l' r3| |] eqn:E2; try discriminate.
      intros H. inversion H; subst. apply IHe in E2.
      pose proof (skip_ws_length r2). lia.
    + destruct (d =? 93)%N; [|discriminate].
      intros H. inversion H; subst. lia.
  - intros s l r. cbn [parse_members]. destruct s as [|c t]; [discriminate|].
    cbn [List.length].
    destruct (c =? 34)%N; [|discriminate].
    destruct (parse_chars t) as [[k r1]|] eqn:E; [|discriminate].
    apply (parse_chars_length (List.length t)) in E; [|lia].
    destruct (skip_ws r1) as [|d r2] eqn:E1; [discriminate|].
    apply skip_ws_cons_length in E1.
    destruct (d =? 58)%N; [|discriminate].
    destruct (parse_value f (skip_ws r2)) as [v r3| |] eqn:E2; try discriminate.
    apply IHv in E2. pose proof (skip_ws_length r2).
    destruct (skip_ws r3) as [|x r4] eqn:E3; [discriminate|].
    apply skip_ws_cons_length in E3.
    destruct (x =? 44)%N.
    + destruct (parse_members f (skip_ws r4)) as [l' r5| |] eqn:E4; try discriminate.
      intros H'. inversion H'; subst. apply IHm in E4.
      pose proof (skip_ws_length r4). lia.
    + destruct (x =? 125)%N; [|discriminate].
      intros H'. inversion H'; subst. lia.
Qed.

Lemma parse_funded (fuel : nat) : funded fuel.
Proof.
  induction fuel as [|f (IHv & IHe & IHm)]; [repeat split; intros; lia|].
  destruct (parse_consumes f) as (Cv & Ce & Cm).
  repeat split.
  - intros s Hf. cbn [parse_value]. destruct s as [|c t]; [discriminate|].
    cbn [List.length] in Hf.
    destruct (c =? 34)%N; [destruct (parse_chars t) as [[? ?]|]; discriminate|].
    destruct (c =? 91)%N.
    { destruct (skip_ws t) as [|d r'] eqn:E; [discriminate|].
      pose proof (skip_ws_length t) as L. rewrite E in L.
      destruct (d =? 93)%N; [discriminate|].
      specialize (IHe (d :: r') ltac:(lia)).
      destruct (parse_elements f (d :: r')); congruence. }
    destruct (c =? 123)%N.
    { destruct (skip_ws t) as [|d r'] eqn:E; [discriminate|].
      pose proof (skip_ws_length t) as L. rewrite E in L.
      destruct (d =? 125)%N; [discriminate|].
      specialize (IHm (d :: r') ltac:(lia)).
      destruct (parse_members f (d :: r')); congruence. }
    destruct (c =? 116)%N; [apply keyword_no_fuel|].
    destruct (c =? 102)%N; [apply keyword_no_fuel|].
    destruct (c =? 110)%N; [apply keyword_no_fuel|].
    destruct (parse_number (c :: t)) as [[? ?]|]; discriminate.
  - intros s Hf. cbn [parse_elements].
    specialize (IHv s ltac:(lia)).
    destruct (parse_value f s) as [v r1| |] eqn:E; try congruence.
    apply Cv in E.
    destruct (skip_ws r1) as [|d r2] eqn:E1; [discriminate|].
    apply skip_ws_cons_length in E1.
    destruct (d =? 44)%N.
    + pose proof (skip_ws_length r2).
      specialize (IHe (skip_ws r2) ltac:(lia)).
      destruct (parse_elements f (skip_ws r2)); congruence.
    + destruct (d =? 93)%N; discriminate.
  - intros s Hf. cbn [parse_members]. destruct s as [|c t]; [discriminate|].
    cbn [List.length] in Hf.
    destruct (c =? 34)%N; [|discriminate].
    destruct (parse_chars t) as [[k r1]|] eqn:E; [|discriminate].
    apply (parse_chars_length (List.length t)) in E; [|lia].
    destruct (skip_ws r1) as [|d r2] eqn:E1; [discriminate|].
    apply skip_ws_cons_length in E1.
    destruct (d =? 58)%N; [|discriminate].
    pose proof (skip_ws_length r2).
    specialize (IHv (skip_ws r2) ltac:(lia)).
    destruct (parse_value f (skip_ws r2)) as [v r3| |] eqn:E2; try congruence.
    apply Cv in E2.
    destruct (skip_ws r3) as [|x r4] eqn:E3; [discriminate|].
    apply skip_ws_cons_length in E3.
    destruct (x =? 44)%N.
    + pose proof (skip_ws_length r4).
      specialize (IHm (skip_ws r4) ltac:(lia)).
      destruct (parse_members f (skip_ws r4)); congruence.
    + destruct (x =? 125)%N; discriminate.
Qed.

(** [JSON.parse] decides every input: the recursion budget it gives the
    parser is never exhausted, so [None] is a syntax error. *)
Theorem parse_budget (s : js_string) :
  parse_value (S (2 * List.length s)) (skip_ws s) <> PFuel.
Proof.
  destruct (parse_funded (S (2 * List.length s))) as (H & _ & _).
  apply H. pose proof (skip_ws_length s). lia.
Qed.

(** ** Parsing a scanned string *)

Lemma validate_syntax_error (s : js_string) :
  JSON.parse s = None ->
  QRApiService.validateQRData s = Ret (QRApiService.invalid "Invalid QR code format").
Proof.
  intros H. unfold QRApiService.validateQRData, JSON_parse. now rewrite H.
Qed.

Lemma truthy_trimmed (s : js_string) :
  truthy (VStr s) = match s with [] => false | _ :: _ => true end.
Proof. reflexivity. Qed.

Lemma read_direct_id (s : js_string) :
  read (QRService.direct_id s) (str "eventId") = Ret (VStr (Str.trim s)).
Proof. reflexivity. Qed.

(** C4, as amended.  For every input string on which [JSON.parse] fails
    and whose trimmed form is not empty, [parseQRData] succeeds with the
    bare-identifier payload [{eventId, type: "direct_id", batchId}] built
    from the trimmed input; when the trimmed input is empty it fails with
    the missing-event-ID format error. *)
Theorem parse_degrades_to_identifier (s : js_string) :
  JSON.parse s = None ->
  (Str.trim s <> [] ->
   QRService.parseQRData s = Ret (QRService.parsed (Some (QRService.direct_id s))))
  /\ (Str.trim s = [] -> QRService.parseQRData s = Ret missing_event_id).
Proof.
  intros H. unfold QRService.parseQRData.
  rewrite (validate_syntax_error s H). cbn [obind QRApiService.valid QRApiService.invalid].
  unfold JSON_parse. rewrite H. cbn [otry obind].
  rewrite read_direct_id. cbn [obind]. rewrite truthy_trimmed.
  split; intros T.
  - destruct (Str.trim s); [congruence | reflexivity].
  - rewrite T. reflexivity.
Qed.

(** The input ["abc123"]. *)
Lemma parse_degrades_to_identifier_witness :
  JSON.parse (str "abc123") = None
  /\ QRService.parseQRData (str "abc123")
     = Ret (QRService.parsed
              (Some (VObj [(str "eventId", VStr (str "abc123"));
                           (str "type", VStr (str "direct_id"));
                           (str "batchId", VStr (str "abc123"))]))).
Proof.
  split; [reflexivity|].
  apply (parse_degrades_to_identifier (str "abc123")); [reflexivity | discriminate].
Defined.

(** The empty string is not JSON either, and is rejected. *)
Lemma parse_empty_fails :
  JSON.parse (str "") = None
  /\ Str.trim (str "") = []
  /\ QRService.parseQRData (str "") = Ret missing_event_id
  /\ success missing_event_id = false.
Proof. repeat split. Qed.

Lemma parse_blank_fails :
  JSON.parse (str "   ") = None
  /\ QRService.parseQRData (str "   ") = Ret missing_event_id.
Proof. split; reflexivity. Qed.

(** Valid JSON whose [eventId] can be read and is falsy is rejected with
    the format error, not read as a bare identifier. *)
Lemma parse_rejects_missing_event_id (s : js_string) (v x : value) :
  JSON.parse s = Some v ->
  read v (str "eventId") = Ret x ->
  truthy x = false ->
  QRService.parseQRData s = Ret missing_event_id.
Proof.
  intros Hp Hr Ht. unfold QRService.parseQRData, QRApiService.validateQRData, JSON_parse.
  rewrite Hp. cbn [obind otry].
  assert (Hn : forall k, exists y, read v k = Ret y).
  { intros k. unfold read in *. destruct v; cbn [get] in *; try discriminate;
      eauto. destruct (lookup k l); eauto. }
  destruct (Hn (str "batchId")) as (b & Hb). rewrite Hb. cbn [obind].
  destruct (truthy b); cbn [negb otry obind QRApiService.valid QRApiService.invalid].
  - rewrite Hr. cbn [obind]. rewrite Ht.
    cbn [negb otry obind QRApiService.valid QRApiService.invalid]. reflexivity.
  - rewrite Hr. cbn [obind]. rewrite Ht. reflexivity.
Qed.

Lemma parse_rejects_examples :
  QRService.parseQRData (str "12345") = Ret missing_event_id
  /\ QRService.parseQRData (str "true") = Ret missing_event_id
  /\ QRService.parseQRData (str "{}") = Ret missing_event_id.
Proof. repeat split. Qed.

(** C9, at the input ["null"].  The text is valid JSON, the candidate is
    [null], and reading its [eventId] throws: [parseQRData] returns
    [{success: false}] with the message of that TypeError, not with the
    missing-event-ID format error. *)
Theorem parse_null_reports_type_error :
  JSON.parse (str "null") = Some VNull
  /\ QRService.parseQRData (str "null")
     = Ret (failure (Some (Worded (TypeError (ReadOfNullish (str "eventId"))))))
  /\ QRService.parseQRData (str "null") <> Ret missing_event_id.
Proof. repeat split. discriminate. Qed.

(** ** The enriched payload *)

Lemma read_object (l : props) (k : js_string) (x : value) :
  lookup k l = Some x -> read (VObj l) k = Ret x.
Proof. intros H. unfold read. cbn [get]. now rewrite H. Qed.

Lemma read_string_object (v : value) (k s : js_string) :
  read v k = Ret (VStr s) -> exists l, v = VObj l /\ lookup k l = Some (VStr s).
Proof.
  unfold read. destruct v; cbn [get]; try discriminate.
  destruct (lookup k l) as [x|] eqn:E; [|discriminate].
  intros H. inversion H; subst. eauto.
Qed.

Lemma enrich_object (l : props) (u : js_string) (ts : Z) :
  QRService.enrich (VObj l) u ts = define_props (define_props [] l) (enrichment u ts).
Proof. reflexivity. Qed.

Lemma well_formed_props (l : props) :
  well_formed (VObj l) = true <->
  distinct_keys l = true /\ all_values well_formed l = true.
Proof. cbn [well_formed]. unfold all_values. apply andb_true_iff. Qed.

Lemma enrich_well_formed (l : props) (u : js_string) (ts : Z) :
  well_formed (VObj l) = true -> safe_integer ts = true ->
  well_formed (VObj (QRService.enrich (VObj l) u ts)) = true.
Proof.
  intros Hl Hts. apply well_formed_props in Hl as [D A].
  rewrite enrich_object. apply well_formed_props. split.
  - apply distinct_define_props, distinct_define_props. reflexivity.
  - apply all_values_define_props.
    + unfold all_values, enrichment. cbn [forallb snd well_formed].
      now rewrite Hts.
    + apply all_values_define_props; [exact A | reflexivity].
Qed.

Lemma lookup_enrich (l : props) (u : js_string) (ts : Z) (k : js_string) :
  distinct_keys l = true ->
  lookup k (enrichment u ts) = None ->
  lookup k (QRService.enrich (VObj l) u ts) = lookup k l.
Proof.
  intros D N. rewrite enrich_object.
  rewrite lookup_define_props by reflexivity. rewrite N.
  rewrite lookup_define_props by exact D.
  now destruct (lookup k l).
Qed.

(** A string property of the caller's object is still there after
    serializing the enriched object and parsing it back. *)
Lemma reread_enriched (l : props) (u : js_string) (ts : Z) (k s : js_string) :
  well_formed (VObj l) = true ->
  lookup k (enrichment u ts) = None ->
  lookup k l = Some (VStr s) ->
  read (normalize (VObj (QRService.enrich (VObj l) u ts))) k = Ret (VStr s).
Proof.
  intros Hl N L. pose proof Hl as Hl'. apply well_formed_props in Hl' as [D _].
  cbn [normalize]. apply read_object.
  erewrite lookup_normalize; [| |reflexivity].
  - rewrite lookup_enrich by assumption. rewrite L. reflexivity.
  - rewrite enrich_object. apply distinct_define_props, distinct_define_props.
    reflexivity.
Qed.

Lemma truthy_string (s : js_string) : s <> [] -> truthy (VStr s) = true.
Proof. destruct s; [congruence | reflexivity]. Qed.

(** ** The provider client *)

Lemma ret_returns (A : Type) (a : A) : returns A (ret a).
Proof. intros w. exists a, w. reflexivity. Qed.

Lemma bind_returns (A B : Type) (c : M A) (k : A -> M B) :
  returns A c -> (forall a, returns B (k a)) -> returns B (bind c k).
Proof.
  intros Hc Hk w. unfold bind. destruct (Hc w) as (a & w1 & ->). apply Hk.
Qed.

Lemma try_catch_returns (A : Type) (c : M A) (h : exn -> M A) :
  (forall e, returns A (h e)) -> returns A (try_catch c h).
Proof.
  intros Hh w. unfold try_catch. destruct (c w) as [[a|e] w1]; [eauto | apply Hh].
Qed.

(** The provider client always returns a result object. *)
Lemma api_returns (env : Env) (data : js_string) (o : QRApiService.options) :
  returns result (QRApiService.generateQRWithAPI env data o).
Proof.
  unfold QRApiService.generateQRWithAPI.
  apply try_catch_returns. intros _. apply bind_returns.
  - apply try_catch_returns. intros _. apply ret_returns.
  - intros [x|]; apply ret_returns.
Qed.

Ltac step := cbn [fst snd trace clock_reads].

(** Case analysis on the next answer of the environment. *)
Ltac oracle :=
  match goal with
  | |- context [network ?e ?t ?m ?u] =>
      let b := fresh "body" in
      destruct (network e t m u) as [|[|] [b|]] eqn:?
  | |- context [file_reader ?e ?b] => destruct (file_reader e b) eqn:?
  end; step.

Ltac run_api :=
  unfold QRApiService.generateQRWithAPI, QRApiService.blobToDataURL,
    try_catch, bind, lift, fetch, blob_of, of_option, ret, throw;
  step.

(** A failed run of the provider client reports that no provider is
    available. *)
Lemma api_failure (env : Env) (data : js_string) (o : QRApiService.options)
      (w w' : world) (r : result) :
  QRApiService.generateQRWithAPI env data o w = (Ret r, w') ->
  success r = false -> r = QRApiService.unavailable.
Proof.
  run_api.
  destruct (QRApiService.buildQRServerUrl data (QRApiService.resolve o)) as [u1|e1];
  destruct (QRApiService.buildQuickChartUrl data _ _) as [u2|e2]; step;
    repeat oracle;
    intros E; inversion E; subst; try reflexivity; discriminate.
Qed.

(** The transfer from the secondary provider follows no probe of it. *)
Lemma secondary_tier_not_probed :
  ~ probed_before_transfer
      (trace (snd (QRApiService.generateQRWithAPI network_down (str "E1")
                     no_options start))).
Proof.
  intros H.
  specialize (H [Fetch HEAD primary_url_E1] secondary_url_E1 [] eq_refl).
  destruct H as [H|[]]. vm_compute in H. discriminate.
Qed.

(** ** Inversion of runs *)



(** C3.  For every input, [generateQR] and [parseQRData] return a result
    object, which carries a [success] flag: no exception escapes either
    of them. *)
Theorem generate_and_parse_return :
  (forall env data title w,
      exists r w', QRService.generateQR env data title w = (Ret r, w'))
  /\ (forall s, exists r, QRService.parseQRData s = Ret r).
Proof.
  split.
  - intros env data title. unfold QRService.generateQR.
    apply try_catch_returns. intros e. apply ret_returns.
  - intros s. unfold QRService.parseQRData, otry.
    match goal with |- exists r, match ?c with _ => _ end = _ => destruct c end;
      eauto.
Qed.

(** The other entry points of the service return as well. *)
Lemma enhanced_and_tracking_return (env : Env) :
  (forall data o, returns result (QRService.generateEnhancedQR env data o))
  /\ (forall u, returns result (QRService.generateTrackingQR env u)).
Proof.
  split; intros; [unfold QRService.generateEnhancedQR | unfold QRService.generateTrackingQR];
    apply try_catch_returns; intros e; apply ret_returns.
Qed.

(** ** Exhaustion *)

Lemma generateQR_exhausted (env : Env) (data : value) (title u m : js_string)
      (w w2 : world) (r : result) :
  QRService.tracking_url env data = Ret u ->
  subtle_crypto env = true ->
  QRApiService.generateQRWithAPI env
    (serialize (VObj (QRService.enrich data u (clock env (clock_reads w)))))
    QRService.api_options (tick w) = (Ret r, w2) ->
  QRService.usable r = None ->
  local_render env
    (serialize (VObj (QRService.enrich data u (clock env (clock_reads w)))))
    (QRService.local_options (str "#2D5A27") (str "#FFFFFF") 300) = inl m ->
  QRService.generateQR env data title w
  = (Ret (failure (Some (Text m))),
     rendered w2
       (serialize (VObj (QRService.enrich data u (clock env (clock_reads w)))))
       (QRService.local_options (str "#2D5A27") (str "#FFFFFF") 300)).
Proof.
  intros Hu Hc Ha Hr Hl.
  unfold QRService.generateQR, QRService.generateHash, toDataURL, record.
  unfold try_catch, bind, lift, now, ret, throw. rewrite Hu, Hc.
  fold (tick w). rewrite Ha, Hr. cbn [trace clock_reads]. rewrite Hl.
  reflexivity.
Qed.

(** C2, as amended.  When both remote providers and the local renderer
    fail, [generateQR] returns exactly [{success: false, error: m}] where
    [m] is the message of the renderer's error, with no [dataURL] nor any
    other field; the text "All QR code APIs are unavailable" is the error
    of the provider client's own result, which [generateQR] discards. *)
Theorem exhaustion_reports_renderer_error (env : Env) (data : value)
        (title u m : js_string) (w w2 : world) (r : result) :
  QRService.tracking_url env data = Ret u ->
  subtle_crypto env = true ->
  QRApiService.generateQRWithAPI env
    (serialize (VObj (QRService.enrich data u (clock env (clock_reads w)))))
    QRService.api_options (tick w) = (Ret r, w2) ->
  success r = false ->
  local_render env
    (serialize (VObj (QRService.enrich data u (clock env (clock_reads w)))))
    (QRService.local_options (str "#2D5A27") (str "#FFFFFF") 300) = inl m ->
  r = QRApiService.unavailable
  /\ fst (QRService.generateQR env data title w) = Ret (failure (Some (Text m))).
Proof.
  intros Hu Hc Ha Hs Hl. split.
  - now apply (api_failure env _ _ _ _ _ Ha).
  - rewrite (generateQR_exhausted env data title u m w w2 r Hu Hc Ha); auto.
    unfold QRService.usable. now rewrite Hs.
Qed.

(** The sample payload when nothing works. *)
Lemma exhaustion_reports_renderer_error_witness :
  QRService.tracking_url network_down sample_payload
  = Ret (str "https://app.example/track/E1")
  /\ success QRApiService.unavailable = false
  /\ fst (QRService.generateQR network_down sample_payload (str "Batch B1") start)
     = Ret (failure (Some (Text too_big))).
Proof.
  split; [reflexivity|]. split; [reflexivity|].
  refine (proj2 (exhaustion_reports_renderer_error network_down sample_payload
                   (str "Batch B1") (str "https://app.example/track/E1") too_big
                   start _ QRApiService.unavailable
                   eq_refl eq_refl _ eq_refl eq_refl)).
  vm_compute. reflexivity.
Defined.

(** All three tiers fail, and the error returned is the renderer's message,
    not the fixed text of the provider client. *)
Lemma exhaustion_error_differs :
  fst (QRApiService.generateQRWithAPI network_down
         (serialize (VObj (QRService.enrich sample_payload
                             (str "https://app.example/track/E1") 1700000000000)))
         QRService.api_options (tick start)) = Ret QRApiService.unavailable
  /\ (forall text o, local_render network_down text o = inl too_big)
  /\ fst (QRService.generateQR network_down sample_payload (str "Batch B1") start)
     = Ret (failure (Some (Text too_big)))
  /\ failure (Some (Text too_big)) <> QRApiService.unavailable.
Proof.
  split; [vm_compute; reflexivity|]. split; [reflexivity|].
  split; [vm_compute; reflexivity|]. intros H. vm_compute in H. discriminate.
Qed.

(** ** The content hash *)













(** C6, at a payload with braces, a colon and quotes.  The [data] (and
    [text]) query parameter of the built URLs decodes to the
    percent-encoded payload, not to the payload: the value is encoded by
    [encodeURIComponent] and then once more by [URLSearchParams]. *)
Theorem query_parameter_is_encoded_twice :
  exists u1 u2,
    QRApiService.buildQRServerUrl brace_payload
      (QRApiService.resolve QRService.api_options) = Ret u1
    /\ QRApiService.buildQuickChartUrl brace_payload 300 png = Ret u2
    /\ URI.encodeURIComponent brace_payload = Some (str "%7B%22a%22%3A1%7D")
    /\ URI.searchParams_get u1 (str "data") = Some (str "%7B%22a%22%3A1%7D")
    /\ URI.searchParams_get u2 (str "text") = Some (str "%7B%22a%22%3A1%7D")
    /\ str "%7B%22a%22%3A1%7D" <> brace_payload.
Proof.
  eexists. eexists. split; [vm_compute; reflexivity|].
  split; [vm_compute; reflexivity|].
  repeat split; try (vm_compute; reflexivity).
  vm_compute. discriminate.
Qed.

(** ** The batch payload *)

Lemma all_values_indexed (P : value -> bool) (l : list value) (i : N) :
  forallb P l = true -> all_values P (indexed i l) = true.
Proof.
  revert i. induction l as [|x t IH]; intros i H; [reflexivity|].
  cbn [forallb] in H. apply andb_true_iff in H as [A B].
  unfold all_values in *. cbn [indexed forallb snd]. now rewrite A, IH.
Qed.

Lemma own_props_well_formed (v : value) :
  well_formed v = true -> all_values well_formed (own_props v) = true.
Proof.
  destruct v; cbn [own_props]; intros H; try reflexivity.
  - apply all_values_indexed. clear H. induction s as [|c t IH]; [reflexivity|].
    cbn [List.map forallb well_formed andb]. exact IH.
  - now apply all_values_indexed.
  - now apply well_formed_props in H.
Qed.

Lemma batch_qrData_well_formed (v : value) (ts : Z) :
  well_formed v = true -> safe_integer ts = true ->
  well_formed (VObj (QRApiService.batch_qrData v ts)) = true.
Proof.
  intros Hv Hts. apply well_formed_props. unfold QRApiService.batch_qrData. split.
  - apply distinct_define_props, distinct_define_props. reflexivity.
  - apply all_values_define_props.
    + unfold all_values. cbn [forallb snd well_formed]. now rewrite Hts.
    + apply all_values_define_props; [|reflexivity].
      now apply own_props_well_formed.
Qed.

Lemma lookup_batch_field (v : value) (ts : Z) (k : js_string) (x : value) :
  lookup k (batch_fields ts) = Some x ->
  lookup k (QRApiService.batch_qrData v ts) = Some x.
Proof.
  intros H. unfold QRApiService.batch_qrData.
  fold (batch_fields ts).
  rewrite lookup_define_props by reflexivity. now rewrite H.
Qed.

Lemma reread_batch_field (v : value) (ts : Z) (k : js_string) (x : value) :
  lookup k (batch_fields ts) = Some x ->
  is_undefined x = false ->
  read (normalize (VObj (QRApiService.batch_qrData v ts))) k = Ret (normalize x).
Proof.
  intros H U. cbn [normalize]. apply read_object.
  erewrite lookup_normalize; [| |reflexivity].
  - rewrite (lookup_batch_field v ts k x H). now rewrite U.
  - unfold QRApiService.batch_qrData.
    apply distinct_define_props, distinct_define_props. reflexivity.
Qed.

(** C10.  The object [generateBatchQR] serializes for the providers has
    the properties [network] with value "hyperledger-fabric", [timestamp]
    and [version] with value "1.0", whatever the batch object holds, and
    they are read back from the serialized string. *)
Theorem batch_payload_names_network (env : Env) (batchData : value) (w : world) :
  well_formed batchData = true ->
  safe_integer (clock env (clock_reads w)) = true ->
  exists qrData d,
    QRApiService.generateBatchQR env batchData w
    = QRApiService.generateQRWithAPI env (serialize (VObj qrData))
        QRApiService.batch_options (tick w)
    /\ lookup (str "network") qrData = Some (VStr (str "hyperledger-fabric"))
    /\ lookup (str "timestamp") qrData = Some (VNum (Int (clock env (clock_reads w))))
    /\ lookup (str "version") qrData = Some (VStr (str "1.0"))
    /\ JSON.parse (serialize (VObj qrData)) = Some d
    /\ read d (str "network") = Ret (VStr (str "hyperledger-fabric"))
    /\ read d (str "timestamp") = Ret (VNum (Int (clock env (clock_reads w))))
    /\ read d (str "version") = Ret (VStr (str "1.0")).
Proof.
  intros Hw Hts. set (ts := clock env (clock_reads w)).
  exists (QRApiService.batch_qrData batchData ts),
         (normalize (VObj (QRApiService.batch_qrData batchData ts))).
  split; [reflexivity|].
  split; [now apply lookup_batch_field|].
  split; [now apply lookup_batch_field|].
  split; [now apply lookup_batch_field|].
  split; [apply parse_serialize; now apply batch_qrData_well_formed|].
  split; [now apply (reread_batch_field batchData ts (str "network")
                       (VStr (str "hyperledger-fabric")))|].
  split; [now apply (reread_batch_field batchData ts (str "timestamp")
                       (VNum (Int ts)))|].
  now apply (reread_batch_field batchData ts (str "version") (VStr (str "1.0"))).
Qed.

(** The batch object of a payload without participant. *)
Lemma batch_payload_names_network_witness :
  well_formed sample_batch = true
  /\ safe_integer (clock offline (clock_reads start)) = true
  /\ exists qrData d,
      QRApiService.generateBatchQR offline sample_batch start
      = QRApiService.generateQRWithAPI offline (serialize (VObj qrData))
          QRApiService.batch_options (tick start)
      /\ lookup (str "network") qrData = Some (VStr (str "hyperledger-fabric"))
      /\ lookup (str "timestamp") qrData = Some (VNum (Int 1700000000000))
      /\ lookup (str "version") qrData = Some (VStr (str "1.0"))
      /\ JSON.parse (serialize (VObj qrData)) = Some d
      /\ read d (str "network") = Ret (VStr (str "hyperledger-fabric"))
      /\ read d (str "timestamp") = Ret (VNum (Int 1700000000000))
      /\ read d (str "version") = Ret (VStr (str "1.0")).
Proof.
  split; [reflexivity|]. split; [reflexivity|].
  exact (batch_payload_names_network offline sample_batch start eq_refl eq_refl).
Defined.

(** * Further properties of the code *)

(** ** The provider client *)

(** The provider client only issues requests: it adds [Fetch] events to
    the trace and leaves the clock alone. *)
Lemma api_trace (env : Env) (data : js_string) (o : QRApiService.options)
      (w : world) :
  exists r new,
    QRApiService.generateQRWithAPI env data o w = (Ret r, requested w new)
    /\ forallb is_fetch new = true.
Proof.
  destruct w as [tr n]. run_api. unfold requested. step.
  destruct (QRApiService.buildQRServerUrl data (QRApiService.resolve o)) as [u1|e1];
  destruct (QRApiService.buildQuickChartUrl data _ _) as [u2|e2]; step;
    repeat oracle;
    rewrite <- ?app_assoc; cbn [app];
    try (eexists; eexists; split; [reflexivity|reflexivity]);
    (eexists; exists []; rewrite List.app_nil_r; split; reflexivity).
Qed.

(** X2.  Once the probe of the primary provider has answered with a
    success status, the body of the full transfer is returned as the data
    URL whatever the status of that transfer is: the [ok] flag of the
    second response is never read. *)
Theorem primary_transfer_status_unchecked (env : Env) (data : js_string)
        (o : QRApiService.options) (w : world) (u1 : js_string)
        (probe_body : option blob) (ok : bool) (b : blob) (d : js_string) :
  QRApiService.buildQRServerUrl data (QRApiService.resolve o) = Ret u1 ->
  network env (trace w) HEAD u1 = Response true probe_body ->
  network env (trace w ++ [Fetch HEAD u1]) GET u1 = Response ok (Some b) ->
  file_reader env b = Some d ->
  QRApiService.generateQRWithAPI env data o w
  = (Ret (QRApiService.served u1 d), requested w [Fetch HEAD u1; Fetch GET u1]).
Proof.
  intros H1 P G F. destruct w as [tr n]. run_api. unfold requested. step.
  cbn [trace] in P, G. rewrite H1. step. rewrite P. step. rewrite G. step.
  rewrite F. step. rewrite <- app_assoc. reflexivity.
Qed.

Lemma primary_transfer_status_unchecked_witness :
  QRApiService.buildQRServerUrl (str "E1") (QRApiService.resolve no_options)
  = Ret primary_url_E1
  /\ network primary_not_found [Fetch HEAD primary_url_E1] GET primary_url_E1
     = Response false (Some error_page)
  /\ QRApiService.generateQRWithAPI primary_not_found (str "E1") no_options start
     = (Ret (QRApiService.served primary_url_E1
               (str "data:text/html;base64,AAAA")),
        requested start [Fetch HEAD primary_url_E1; Fetch GET primary_url_E1]).
Proof.
  split; [reflexivity|]. split; [reflexivity|].
  exact (primary_transfer_status_unchecked primary_not_found (str "E1") no_options
           start primary_url_E1 None false error_page
           (str "data:text/html;base64,AAAA") eq_refl eq_refl eq_refl eq_refl).
Defined.

(** X3.  When the probe of the primary provider fails, the result is
    decided by the single transfer from the secondary provider: a success
    only if that response has a success status, a readable body and a
    readable blob, and the fixed failure object in every other case. *)
Theorem secondary_tier_checks_status (env : Env) (data : js_string)
        (o : QRApiService.options) (w : world) (u1 u2 : js_string) :
  QRApiService.buildQRServerUrl data (QRApiService.resolve o) = Ret u1 ->
  QRApiService.buildQuickChartUrl data
    (QRApiService.style_size (QRApiService.resolve o))
    (QRApiService.style_format (QRApiService.resolve o)) = Ret u2 ->
  probe_ok (network env (trace w) HEAD u1) = false ->
  QRApiService.generateQRWithAPI env data o w
  = (Ret match network env (trace w ++ [Fetch HEAD u1]) GET u2 with
         | Response true (Some b) =>
             match file_reader env b with
             | Some d => QRApiService.served u2 d
             | None => QRApiService.unavailable
             end
         | _ => QRApiService.unavailable
         end,
     requested w [Fetch HEAD u1; Fetch GET u2]).
Proof.
  intros H1 H2 P. destruct w as [tr n]. run_api. unfold requested. step.
  cbn [trace] in P. rewrite H1, H2. step.
  destruct (network env tr HEAD u1) as [|[|] pb]; try discriminate; step;
    repeat oracle; rewrite <- app_assoc; reflexivity.
Qed.

Lemma secondary_tier_checks_status_witness :
  QRApiService.buildQRServerUrl (str "E1") (QRApiService.resolve no_options)
  = Ret primary_url_E1
  /\ QRApiService.buildQuickChartUrl (str "E1") 300 png = Ret secondary_url_E1
  /\ probe_ok (network primary_down (trace start) HEAD primary_url_E1) = false
  /\ QRApiService.generateQRWithAPI primary_down (str "E1") no_options start
     = (Ret (QRApiService.served secondary_url_E1
               (str "data:image/png;base64,AAAA")),
        requested start [Fetch HEAD primary_url_E1; Fetch GET secondary_url_E1]).
Proof.
  split; [reflexivity|]. split; [reflexivity|]. split; [reflexivity|].
  exact (secondary_tier_checks_status primary_down (str "E1") no_options start
           primary_url_E1 secondary_url_E1 eq_refl eq_refl eq_refl).
Defined.

Lemma api_unencodable (env : Env) (data : js_string) (o : QRApiService.options)
      (w : world) :
  URI.encodeURIComponent data = None ->
  QRApiService.generateQRWithAPI env data o w = (Ret QRApiService.unavailable, w).
Proof.
  intros H. run_api.
  unfold QRApiService.buildQRServerUrl, QRApiService.buildQuickChartUrl.
  rewrite H. reflexivity.
Qed.

(** X4.  For a string [encodeURIComponent] rejects (one with a lone
    surrogate) neither provider URL can be built: [generateQRWithAPI]
    returns the fixed failure object without any request, and
    [QRService.generateTrackingQR] goes straight to the local renderer. *)
Theorem lone_surrogate_makes_no_request (env : Env) (data : js_string)
        (o : QRApiService.options) (w : world) :
  URI.encodeURIComponent data = None ->
  QRApiService.generateQRWithAPI env data o w = (Ret QRApiService.unavailable, w)
  /\ QRService.generateTrackingQR env data w
     = (match local_render env data tracking_render with
        | inr d => Ret (QRService.succeeded d None None)
        | inl m => Ret (failure (Some (Text m)))
        end, rendered w data tracking_render).
Proof.
  intros H. split; [now apply api_unencodable|].
  unfold QRService.generateTrackingQR, QRApiService.generateTrackingQR.
  unfold try_catch at 1. unfold bind at 1.
  rewrite (api_unencodable env data _ w H).
  cbn [success QRApiService.unavailable failure negb].
  unfold toDataURL, record, bind, ret, throw. unfold rendered, tracking_render.
  fold QRService.tracking_local_options.
  unfold QRService.tracking_local_options.
  destruct (local_render env data _); reflexivity.
Qed.

Lemma lone_surrogate_makes_no_request_witness :
  URI.encodeURIComponent lone_surrogate = None
  /\ QRApiService.generateQRWithAPI offline lone_surrogate no_options start
     = (Ret QRApiService.unavailable, start)
  /\ trace (snd (QRService.generateTrackingQR offline lone_surrogate start))
     = [Render lone_surrogate tracking_render].
Proof.
  split; [reflexivity|].
  destruct (lone_surrogate_makes_no_request offline lone_surrogate no_options
              start eq_refl) as [A T].
  split; [exact A|]. rewrite T. reflexivity.
Defined.

(** ** Validation and parsing of a scanned string *)

Lemma read_field (v : value) (k : js_string) :
  nullish v = false -> read v k = Ret (field v k).
Proof.
  unfold read, field. destruct v; cbn [nullish get]; try discriminate;
    try reflexivity. destruct (lookup k l); reflexivity.
Qed.

Lemma read_nullish (v : value) (k : js_string) :
  nullish v = true -> read v k = Throw (TypeError (ReadOfNullish k)).
Proof. destruct v; cbn [nullish]; try discriminate; reflexivity. Qed.

Lemma read_ret (v : value) (k : js_string) (x : value) :
  read v k = Ret x -> nullish v = false /\ x = field v k.
Proof.
  destruct (nullish v) eqn:N.
  - rewrite read_nullish by assumption. discriminate.
  - rewrite read_field by assumption. intros E. inversion E. auto.
Qed.

(** X5.  [validateQRData] never throws.  It accepts exactly the JSON
    texts of a value other than [null] whose [batchId], [eventId] and
    [type] are all truthy, and then returns the parsed value; any other
    JSON value that is not [null] is reported with "Missing required
    fields in QR code", and a text that is not JSON, or is [null], with
    "Invalid QR code format". *)
Theorem validateQRData_classifies (s : js_string) :
  QRApiService.validateQRData s
  = Ret match JSON.parse s with
        | None => QRApiService.invalid "Invalid QR code format"
        | Some v =>
            if nullish v then QRApiService.invalid "Invalid QR code format"
            else if required_fields v then accepted v
            else QRApiService.invalid "Missing required fields in QR code"
        end.
Proof.
  unfold QRApiService.validateQRData, JSON_parse.
  destruct (JSON.parse s) as [v|]; [|reflexivity]. cbn [obind].
  destruct (nullish v) eqn:N.
  - rewrite read_nullish by assumption. reflexivity.
  - rewrite !read_field by assumption. cbn [obind]. unfold required_fields.
    destruct (truthy (field v (str "batchId"))); [|reflexivity].
    destruct (truthy (field v (str "eventId"))); [|reflexivity].
    destruct (truthy (field v (str "type"))); reflexivity.
Qed.

Lemma parseQRData_cases (s : js_string) :
  QRService.parseQRData s
  = Ret match JSON.parse s with
        | None =>
            if is_empty (Str.trim s) then missing_event_id
            else QRService.parsed (Some (QRService.direct_id s))
        | Some v =>
            if nullish v
            then failure (Some (Worded (TypeError (ReadOfNullish (str "eventId")))))
            else if truthy (field v (str "eventId"))
                 then QRService.parsed (Some v)
                 else missing_event_id
        end.
Proof.
  unfold QRService.parseQRData, QRApiService.validateQRData, JSON_parse.
  destruct (JSON.parse s) as [v|]; cbn [obind otry].
  - destruct (nullish v) eqn:N.
    + rewrite !read_nullish by assumption. reflexivity.
    + rewrite !read_field by assumption. cbn [obind].
      destruct (truthy (field v (str "batchId")));
        destruct (truthy (field v (str "eventId")));
        try destruct (truthy (field v (str "type"))); reflexivity.
  - rewrite read_direct_id. cbn [obind]. rewrite truthy_trimmed.
    destruct (Str.trim s); reflexivity.
Qed.

(** X6.  The outcome of [parseQRData] depends on the event id alone: a
    JSON value other than [null] is returned when its [eventId] is truthy
    and rejected otherwise, whether or not it has a [batchId] and a
    [type]; a text that is not JSON is read as a bare identifier unless
    it trims to nothing; and whatever [validateQRData] accepts is
    returned as it is. *)
Theorem parseQRData_depends_on_event_id (s : js_string) :
  QRService.parseQRData s
  = Ret match JSON.parse s with
        | None =>
            if is_empty (Str.trim s) then missing_event_id
            else QRService.parsed (Some (QRService.direct_id s))
        | Some v =>
            if nullish v
            then failure (Some (Worded (TypeError (ReadOfNullish (str "eventId")))))
            else if truthy (field v (str "eventId"))
                 then QRService.parsed (Some v)
                 else missing_event_id
        end
  /\ forall v, QRApiService.validateQRData s = Ret (accepted v) ->
               QRService.parseQRData s = Ret (QRService.parsed (Some v)).
Proof.
  split; [exact (parseQRData_cases s)|].
  intros v H. unfold QRService.parseQRData. rewrite H. reflexivity.
Qed.

(** X7.  A successful result of [parseQRData] has no error and carries a
    data object whose [eventId] is truthy; the object is the parsed JSON
    value, or the bare-identifier object when the text is not JSON. *)
Theorem parse_success_carries_event_id (s : js_string) (r : result) :
  QRService.parseQRData s = Ret r ->
  success r = true ->
  exists d x,
    data r = Some d
    /\ read d (str "eventId") = Ret x
    /\ truthy x = true
    /\ error r = None
    /\ (JSON.parse s = Some d
        \/ JSON.parse s = None /\ d = QRService.direct_id s).
Proof.
  rewrite parseQRData_cases. intros E S. inversion E as [R]. clear E.
  destruct (JSON.parse s) as [v|].
  - destruct (nullish v) eqn:N; [subst r; discriminate|].
    destruct (truthy (field v (str "eventId"))) eqn:T; [|subst r; discriminate].
    subst r. exists v, (field v (str "eventId")).
    rewrite read_field by assumption.
    split; [reflexivity|]. split; [reflexivity|]. split; [exact T|].
    split; [reflexivity|]. left. reflexivity.
  - destruct (Str.trim s) as [|c t] eqn:T; cbn [is_empty] in R;
      [subst r; discriminate|].
    subst r. exists (QRService.direct_id s), (VStr (Str.trim s)).
    rewrite read_direct_id, T.
    split; [reflexivity|]. split; [reflexivity|]. split; [reflexivity|].
    split; [reflexivity|]. right. split; reflexivity.
Qed.

Lemma parse_success_carries_event_id_witness :
  QRService.parseQRData event_only
  = Ret (QRService.parsed (Some (VObj [(str "eventId", VStr (str "E1"))])))
  /\ exists d x,
       data (QRService.parsed (Some (VObj [(str "eventId", VStr (str "E1"))])))
       = Some d
       /\ read d (str "eventId") = Ret x
       /\ truthy x = true
       /\ error (QRService.parsed (Some (VObj [(str "eventId", VStr (str "E1"))])))
          = None
       /\ (JSON.parse event_only = Some d
           \/ JSON.parse event_only = None /\ d = QRService.direct_id event_only).
Proof.
  split; [reflexivity|].
  exact (parse_success_carries_event_id event_only _ eq_refl eq_refl).
Defined.

(** ** Generation: providers first, the local renderer last *)

Lemma tracking_url_not_nullish (env : Env) (data : value) (u : js_string) :
  QRService.tracking_url env data = Ret u -> nullish data = false.
Proof.
  unfold QRService.tracking_url. destruct (nullish data) eqn:N; [|reflexivity].
  rewrite read_nullish by assumption. discriminate.
Qed.

(** Every path of [generateQR]. *)
Lemma generateQR_run (env : Env) (data : value) (title : js_string) (w : world) :
  QRService.generateQR env data title w
  = match QRService.tracking_url env data with
    | Throw e => (Ret (QRService.caught e), w)
    | Ret u =>
        if subtle_crypto env then
          let s := enriched_string env data u w in
          match QRApiService.generateQRWithAPI env s QRService.api_options (tick w) with
          | (Ret ra, w2) =>
              match QRService.usable ra with
              | Some d =>
                  (Ret (QRService.succeeded d (Some u) (Some (hash_of s))), w2)
              | None =>
                  (rendering env s fallback_render (Some u) (Some (hash_of s)),
                   rendered w2 s fallback_render)
              end
          | (Throw e, w2) =>
              (rendering env s fallback_render (Some u) (Some (hash_of s)),
               rendered w2 s fallback_render)
          end
        else (Ret (failure (Some (Worded (TypeError NoSubtleCrypto)))), tick w)
    end.
Proof.
  unfold QRService.generateQR, QRService.generateHash, toDataURL, record.
  unfold try_catch, bind, lift, now, ret, throw.
  destruct (QRService.tracking_url env data) as [u|e]; [|reflexivity].
  destruct (subtle_crypto env); [|reflexivity].
  fold (tick w). cbv zeta. unfold enriched_string.
  destruct (QRApiService.generateQRWithAPI env _ QRService.api_options (tick w))
    as [[ra|e] w2].
  - destruct (QRService.usable ra); [reflexivity|].
    cbn [trace clock_reads]. unfold rendering, rendered.
    fold fallback_render. unfold QRService.local_options, fallback_render.
    destruct (local_render env _ _); reflexivity.
  - cbn [trace clock_reads]. unfold rendering, rendered.
    unfold QRService.local_options, fallback_render.
    destruct (local_render env _ _); reflexivity.
Qed.

(** X8.  [generateQR] hands the serialized payload to the provider
    client first, which only issues requests.  When the client's result
    is a success with a non-empty data URL, that data URL is returned and
    the local renderer is not called; otherwise the renderer is called
    once, with error correction H, margin 2, width 300 and the colours
    #2D5A27 on #FFFFFF, and its outcome decides the result. *)
Theorem generateQR_renders_only_after_provider_failure
        (env : Env) (data : value) (title u : js_string) (w : world) :
  QRService.tracking_url env data = Ret u ->
  subtle_crypto env = true ->
  exists ra new,
    QRApiService.generateQRWithAPI env (enriched_string env data u w)
      QRService.api_options (tick w) = (Ret ra, requested (tick w) new)
    /\ forallb is_fetch new = true
    /\ QRService.generateQR env data title w
       = match QRService.usable ra with
         | Some d =>
             (Ret (QRService.succeeded d (Some u)
                     (Some (hash_of (enriched_string env data u w)))),
              requested (tick w) new)
         | None =>
             (rendering env (enriched_string env data u w) fallback_render
                (Some u) (Some (hash_of (enriched_string env data u w))),
              rendered (requested (tick w) new) (enriched_string env data u w)
                fallback_render)
         end.
Proof.
  intros Hu Hc.
  destruct (api_trace env (enriched_string env data u w) QRService.api_options
              (tick w)) as (ra & new & Ha & Hf).
  exists ra, new. split; [exact Ha|]. split; [exact Hf|].
  rewrite generateQR_run, Hu, Hc. cbv zeta. rewrite Ha. reflexivity.
Qed.

Lemma generateQR_renders_only_after_provider_failure_witness :
  exists ra new,
    QRApiService.generateQRWithAPI offline
      (enriched_string offline sample_payload (str "https://app.example/track/E1")
         start)
      QRService.api_options (tick start) = (Ret ra, requested (tick start) new)
    /\ forallb is_fetch new = true
    /\ QRService.generateQR offline sample_payload (str "Batch B1") start
       = match QRService.usable ra with
         | Some d =>
             (Ret (QRService.succeeded d (Some (str "https://app.example/track/E1"))
                     (Some (hash_of (enriched_string offline sample_payload
                                       (str "https://app.example/track/E1") start)))),
              requested (tick start) new)
         | None =>
             (rendering offline
                (enriched_string offline sample_payload
                   (str "https://app.example/track/E1") start)
                fallback_render (Some (str "https://app.example/track/E1"))
                (Some (hash_of (enriched_string offline sample_payload
                                  (str "https://app.example/track/E1") start))),
              rendered (requested (tick start) new)
                (enriched_string offline sample_payload
                   (str "https://app.example/track/E1") start)
                fallback_render)
         end.
Proof.
  exact (generateQR_renders_only_after_provider_failure offline sample_payload
           (str "Batch B1") (str "https://app.example/track/E1") start
           eq_refl eq_refl).
Defined.



(** ** The enhanced generation and the stage wrappers *)

(** [generateEnhancedQR] with the providers on. *)
Lemma enhanced_api_run (env : Env) (data : value) (o : QRService.enhanced_options)
      (w : world) (u : js_string) :
  QRService.tracking_url env data = Ret u ->
  subtle_crypto env = true ->
  QRApiService.default true (QRService.useAPI o) = true ->
  QRService.generateEnhancedQR env data o w
  = finish u (hash_of (enriched_string env data u w))
      (QRApiService.generateBatchQR env (batch_object data u) (tick w)).
Proof.
  intros Hu Hc Ha. pose proof (tracking_url_not_nullish _ _ _ Hu) as N.
  unfold QRService.generateEnhancedQR, QRService.generateHash.
  unfold try_catch, bind, lift, now, ret, throw.
  rewrite Hu, Hc, Ha. rewrite !read_field by assumption.
  fold (tick w). fold (participant_of data). fold (batch_object data u).
  unfold finish.
  destruct (QRApiService.generateBatchQR env (batch_object data u) (tick w))
    as [[rb|e] w3]; [|reflexivity].
  destruct (QRService.usable rb); reflexivity.
Qed.

Lemma batch_run (env : Env) (b : value) (w : world) :
  QRApiService.generateBatchQR env b w
  = QRApiService.generateQRWithAPI env
      (serialize (VObj (QRApiService.batch_qrData b (clock env (clock_reads w)))))
      QRApiService.batch_options (tick w).
Proof. reflexivity. Qed.

(** [generateEnhancedQR] with the providers off. *)
Lemma enhanced_local_run (env : Env) (data : value) (o : QRService.enhanced_options)
      (w : world) (u : js_string) :
  QRService.tracking_url env data = Ret u ->
  subtle_crypto env = true ->
  QRApiService.default true (QRService.useAPI o) = false ->
  QRService.generateEnhancedQR env data o w
  = (rendering env (enriched_string env data u w)
       (QRService.local_options
          (QRService.non_empty (str "#2D5A27") (QRService.customization_color o))
          (QRService.non_empty (str "#FFFFFF")
             (QRService.customization_backgroundColor o))
          (QRApiService.default 300%Z (QRService.size o)))
       (Some u) (Some (hash_of (enriched_string env data u w))),
     rendered (tick w) (enriched_string env data u w)
       (QRService.local_options
          (QRService.non_empty (str "#2D5A27") (QRService.customization_color o))
          (QRService.non_empty (str "#FFFFFF")
             (QRService.customization_backgroundColor o))
          (QRApiService.default 300%Z (QRService.size o)))).
Proof.
  intros Hu Hc Ha.
  unfold QRService.generateEnhancedQR, QRService.generateHash, toDataURL, record.
  unfold try_catch, bind, lift, now, ret, throw.
  rewrite Hu, Hc, Ha. fold (tick w). unfold rendering, rendered, enriched_string.
  cbn [trace clock_reads tick].
  destruct (local_render env _ _); reflexivity.
Qed.

Lemma enhanced_early (env : Env) (data : value) (o : QRService.enhanced_options)
      (w : world) :
  (forall e, QRService.tracking_url env data = Throw e ->
             QRService.generateEnhancedQR env data o w = (Ret (QRService.caught e), w))
  /\ (forall u, QRService.tracking_url env data = Ret u ->
                subtle_crypto env = false ->
                QRService.generateEnhancedQR env data o w
                = (Ret (failure (Some (Worded (TypeError NoSubtleCrypto)))), tick w)).
Proof.
  split; intros x Hu; [|intros Hc];
    unfold QRService.generateEnhancedQR, QRService.generateHash;
    unfold try_catch, bind, lift, now, ret, throw; rewrite Hu; [|rewrite Hc];
    reflexivity.
Qed.

(** X10.  With the providers on (the default), [generateEnhancedQR]
    never calls the local renderer: it returns the data URL
    [generateBatchQR] obtained, or fails with "API generation failed"
    when the providers did not deliver one; the clock is read twice. *)
Theorem enhanced_has_no_local_fallback (env : Env) (data : value)
        (o : QRService.enhanced_options) (w : world) (u : js_string) :
  QRService.tracking_url env data = Ret u ->
  subtle_crypto env = true ->
  QRApiService.default true (QRService.useAPI o) = true ->
  exists rb new,
    QRApiService.generateBatchQR env (batch_object data u) (tick w)
    = (Ret rb, requested (tick (tick w)) new)
    /\ forallb is_fetch new = true
    /\ QRService.generateEnhancedQR env data o w
       = (match QRService.usable rb with
          | Some d =>
              Ret (QRService.succeeded d (Some u)
                     (Some (hash_of (enriched_string env data u w))))
          | None => Ret (failure (Some (Text (str "API generation failed"))))
          end, requested (tick (tick w)) new).
Proof.
  intros Hu Hc Ha. rewrite (enhanced_api_run env data o w u Hu Hc Ha).
  rewrite batch_run.
  destruct (api_trace env
              (serialize (VObj (QRApiService.batch_qrData (batch_object data u)
                                  (clock env (clock_reads (tick w))))))
              QRApiService.batch_options (tick (tick w))) as (rb & new & Hb & Hf).
  exists rb, new. rewrite Hb. auto.
Qed.

Lemma enhanced_has_no_local_fallback_witness :
  (forall s o, local_render offline s o = inr (str "data:image/png;base64,iVBORw0KGgo="))
  /\ exists rb new,
       QRApiService.generateBatchQR offline
         (batch_object sample_payload (str "https://app.example/track/E1"))
         (tick start)
       = (Ret rb, requested (tick (tick start)) new)
       /\ forallb is_fetch new = true
       /\ QRService.generateEnhancedQR offline sample_payload no_customization start
          = (match QRService.usable rb with
             | Some d =>
                 Ret (QRService.succeeded d
                        (Some (str "https://app.example/track/E1"))
                        (Some (hash_of
                                 (enriched_string offline sample_payload
                                    (str "https://app.example/track/E1") start))))
             | None => Ret (failure (Some (Text (str "API generation failed"))))
             end, requested (tick (tick start)) new).
Proof.
  split; [reflexivity|].
  exact (enhanced_has_no_local_fallback offline sample_payload no_customization
           start (str "https://app.example/track/E1") eq_refl eq_refl eq_refl).
Defined.

(** X11.  [generateEnhancedQR] always returns, and a call uses one source
    only: with the providers on it adds nothing but requests to the
    trace, with the providers off it issues no request and calls the
    local renderer at most once, with the customization colours (the
    defaults #2D5A27 and #FFFFFF when absent or empty) and the given
    size (300 when absent). *)
Theorem enhanced_uses_one_source (env : Env) (data : value)
        (o : QRService.enhanced_options) (w : world) :
  exists r w' new,
    QRService.generateEnhancedQR env data o w = (Ret r, w')
    /\ trace w' = trace w ++ new
    /\ if QRApiService.default true (QRService.useAPI o)
       then forallb is_fetch new = true
       else new = []
            \/ exists s,
                 new = [Render s
                          (QRService.local_options
                             (QRService.non_empty (str "#2D5A27")
                                (QRService.customization_color o))
                             (QRService.non_empty (str "#FFFFFF")
                                (QRService.customization_backgroundColor o))
                             (QRApiService.default 300%Z (QRService.size o)))].
Proof.
  destruct (QRService.tracking_url env data) as [u|e] eqn:Hu.
  2:{ destruct (enhanced_early env data o w) as [E _]. rewrite (E e Hu).
      exists (QRService.caught e), w, []. rewrite List.app_nil_r.
      split; [reflexivity|]. split; [reflexivity|].
      destruct (QRApiService.default true (QRService.useAPI o)); auto. }
  destruct (subtle_crypto env) eqn:Hc.
  2:{ destruct (enhanced_early env data o w) as [_ E]. rewrite (E u Hu Hc).
      eexists; exists (tick w), []. rewrite List.app_nil_r.
      split; [reflexivity|]. split; [reflexivity|].
      destruct (QRApiService.default true (QRService.useAPI o)); auto. }
  destruct (QRApiService.default true (QRService.useAPI o)) eqn:Ha.
  - rewrite (enhanced_api_run env data o w u Hu Hc Ha), batch_run.
    destruct (api_trace env
                (serialize (VObj (QRApiService.batch_qrData (batch_object data u)
                                    (clock env (clock_reads (tick w))))))
                QRApiService.batch_options (tick (tick w))) as (rb & new & Hb & Hf).
    rewrite Hb. unfold finish.
    destruct (QRService.usable rb);
      (eexists; eexists; exists new;
       split; [reflexivity|]; split; [reflexivity|]; exact Hf).
  - rewrite (enhanced_local_run env data o w u Hu Hc Ha). unfold rendering.
    destruct (local_render env _ _);
      (eexists; eexists; eexists; split; [reflexivity|];
       split; [reflexivity|]; right; eexists; reflexivity).
Qed.

(** X12.  With the providers on, the size and the customization colours
    passed to [generateEnhancedQR] have no effect: two calls that differ
    only in these options behave alike. *)
Theorem enhanced_api_ignores_customization (env : Env) (data : value)
        (o o' : QRService.enhanced_options) (w : world) :
  QRApiService.default true (QRService.useAPI o) = true ->
  QRApiService.default true (QRService.useAPI o') = true ->
  QRService.generateEnhancedQR env data o w
  = QRService.generateEnhancedQR env data o' w.
Proof.
  intros H H'.
  destruct (QRService.tracking_url env data) as [u|e] eqn:Hu.
  2:{ destruct (enhanced_early env data o w) as [E _].
      destruct (enhanced_early env data o' w) as [E' _].
      now rewrite (E e Hu), (E' e Hu). }
  destruct (subtle_crypto env) eqn:Hc.
  2:{ destruct (enhanced_early env data o w) as [_ E].
      destruct (enhanced_early env data o' w) as [_ E'].
      now rewrite (E u Hu Hc), (E' u Hu Hc). }
  now rewrite (enhanced_api_run env data o w u Hu Hc H),
              (enhanced_api_run env data o' w u Hu Hc H').
Qed.

Lemma enhanced_api_ignores_customization_witness :
  QRService.generateEnhancedQR primary_down sample_payload
    (QRService.stage_options "7C3AED" "F3E8FF") start
  = QRService.generateEnhancedQR primary_down sample_payload no_customization start.
Proof.
  exact (enhanced_api_ignores_customization primary_down sample_payload
           (QRService.stage_options "7C3AED" "F3E8FF") no_customization start
           eq_refl eq_refl).
Defined.

(** ** The batch payload of the enhanced generation *)

Lemma lookup_all_values (P : value -> bool) (l : props) (k : js_string) (x : value) :
  all_values P l = true -> lookup k l = Some x -> P x = true.
Proof.
  induction l as [|[k' v] t IH]; cbn [lookup]; [discriminate|].
  unfold all_values. cbn [forallb snd]. intros H. apply andb_true_iff in H as [Hv Ht].
  destruct (js_string_eqb k k'); [intros E; inversion E; now subst|].
  now apply IH.
Qed.

Lemma field_well_formed (v : value) (k : js_string) :
  well_formed v = true -> well_formed (field v k) = true.
Proof.
  unfold field. destruct v; cbn [get]; try reflexivity. intros H.
  apply well_formed_props in H as [_ H].
  destruct (lookup k l) as [x|] eqn:L; [|reflexivity].
  exact (lookup_all_values well_formed l k x H L).
Qed.

Lemma or_else_well_formed (a b : value) :
  well_formed a = true -> well_formed b = true ->
  well_formed (QRService.or_else a b) = true.
Proof. unfold QRService.or_else. now destruct (truthy a). Qed.

Lemma batch_object_well_formed (data : value) (u : js_string) :
  well_formed data = true -> well_formed (batch_object data u) = true.
Proof.
  intros H. apply well_formed_props. split; [reflexivity|].
  unfold all_values, batch_object, participant_of. cbn [forallb snd].
  pose proof (fun k => field_well_formed data k H) as F.
  rewrite !F.
  rewrite (or_else_well_formed _ _
             (or_else_well_formed _ _
                (or_else_well_formed _ _ (F (str "collector")) (F (str "tester")))
                (F (str "processor")))
             (F (str "manufacturer"))).
  reflexivity.
Qed.

Lemma has_key_define_props (k : js_string) (l o : props) :
  has_key k (define_props o l) = has_key k l || has_key k o.
Proof.
  revert o. induction l as [|[k' v] t IH]; intros o; [reflexivity|].
  cbn [define_props fold_left fst snd has_key].
  change (fold_left (fun o0 kv => define_prop o0 (fst kv) (snd kv)) t
            (define_prop o k' v)) with (define_props (define_prop o k' v) t).
  rewrite IH, has_key_define_prop.
  destruct (has_key k t), (js_string_eqb k k'), (has_key k o); reflexivity.
Qed.

Lemma has_key_kept_inv (g : value -> value) (k : js_string) (l : props) :
  has_key k (kept g l) = true -> has_key k l = true.
Proof.
  destruct (has_key k l) eqn:H; [reflexivity|].
  now rewrite has_key_kept.
Qed.

(** The nine properties of a batch payload, in order. *)
Lemma batch_qrData_fields (b e t h p : value) (u : js_string) (ts : Z) :
  QRApiService.batch_qrData
    (VObj [(str "batchId", b); (str "eventId", e); (str "type", t);
           (str "herbSpecies", h); (str "participant", p);
           (str "trackingUrl", VStr u)]) ts
  = [(str "batchId", b); (str "eventId", e); (str "type", t);
     (str "herbSpecies", h); (str "participant", p);
     (str "trackingUrl", VStr u); (str "timestamp", VNum (Int ts));
     (str "version", VStr (str "1.0"));
     (str "network", VStr (str "hyperledger-fabric"))].
Proof. reflexivity. Qed.

Lemma has_key_batch_names (k : js_string) (b e t h p : value) (u : js_string)
      (ts : Z) :
  has_key k [(str "batchId", b); (str "eventId", e); (str "type", t);
             (str "herbSpecies", h); (str "participant", p);
             (str "trackingUrl", VStr u); (str "timestamp", VNum (Int ts));
             (str "version", VStr (str "1.0"));
             (str "network", VStr (str "hyperledger-fabric"))] = true ->
  In k batch_names.
Proof.
  cbn [has_key]. rewrite !orb_true_iff, !js_string_eqb_eq. unfold batch_names.
  cbn [In]. intros H.
  repeat (destruct H as [H|H]; [subst k; auto 12|]). discriminate.
Qed.

(** The batch payload, read back from the string the providers encode. *)
Lemma batch_payload (env : Env) (data : value) (u : js_string) (w : world) :
  well_formed data = true ->
  safe_integer (clock env (S (clock_reads w))) = true ->
  exists l,
    JSON.parse (batch_string env data u w) = Some (VObj l)
    /\ (forall k, has_key k l = true -> In k batch_names)
    /\ lookup (str "batchId") l = survives (field data (str "batchId"))
    /\ lookup (str "eventId") l = survives (field data (str "eventId"))
    /\ lookup (str "type") l = survives (field data (str "type"))
    /\ lookup (str "herbSpecies") l = survives (field data (str "herbSpecies"))
    /\ lookup (str "participant") l = survives (participant_of data)
    /\ lookup (str "trackingUrl") l = Some (VStr u)
    /\ lookup (str "timestamp") l
       = Some (VNum (Int (clock env (S (clock_reads w)))))
    /\ lookup (str "version") l = Some (VStr (str "1.0"))
    /\ lookup (str "network") l = Some (VStr (str "hyperledger-fabric")).
Proof.
  intros Hw Hts. unfold batch_string.
  set (ts := clock env (S (clock_reads w))) in *.
  rewrite parse_serialize
    by (apply batch_qrData_well_formed;
        [now apply batch_object_well_formed | exact Hts]).
  unfold batch_object. rewrite batch_qrData_fields.
  set (nine := [(str "batchId", field data (str "batchId")); _; _; _; _; _; _; _; _]).
  assert (D : distinct_keys nine = true) by reflexivity.
  exists (define_props [] (kept normalize nine)).
  split; [reflexivity|]. split.
  { intros k H. rewrite has_key_define_props in H. cbn [has_key] in H.
    rewrite orb_false_r in H. apply has_key_kept_inv in H.
    now apply has_key_batch_names in H. }
  repeat split;
    (erewrite lookup_normalize; [|exact D|reflexivity]); reflexivity.
Qed.

Lemma enhanced_request (env : Env) (data : value) (o : QRService.enhanced_options)
      (w : world) (u : js_string) :
  QRService.tracking_url env data = Ret u ->
  subtle_crypto env = true ->
  QRApiService.default true (QRService.useAPI o) = true ->
  QRService.generateEnhancedQR env data o w
  = finish u (hash_of (enriched_string env data u w))
      (QRApiService.generateQRWithAPI env (batch_string env data u w)
         QRApiService.batch_options (tick (tick w))).
Proof.
  intros Hu Hc Ha. rewrite (enhanced_api_run env data o w u Hu Hc Ha).
  reflexivity.
Qed.

(** X13.  The string [generateEnhancedQR] has the providers encode parses
    to an object with no property besides [batchId], [eventId], [type],
    [herbSpecies], [participant], [trackingUrl], [timestamp], [version]
    and [network]: the first four are the caller's, [participant] is the
    first truthy one of [collector], [tester], [processor] and
    [manufacturer], [timestamp] is the second reading of the clock, and
    any other property of the caller's object is dropped. *)
Theorem enhanced_payload_has_fixed_names (env : Env) (data : value)
        (o : QRService.enhanced_options) (w : world) (u : js_string) :
  QRService.tracking_url env data = Ret u ->
  subtle_crypto env = true ->
  QRApiService.default true (QRService.useAPI o) = true ->
  well_formed data = true ->
  safe_integer (clock env (S (clock_reads w))) = true ->
  exists s l,
    QRService.generateEnhancedQR env data o w
    = finish u (hash_of (enriched_string env data u w))
        (QRApiService.generateQRWithAPI env s QRApiService.batch_options
           (tick (tick w)))
    /\ JSON.parse s = Some (VObj l)
    /\ (forall k, has_key k l = true -> In k batch_names)
    /\ lookup (str "batchId") l = survives (field data (str "batchId"))
    /\ lookup (str "eventId") l = survives (field data (str "eventId"))
    /\ lookup (str "type") l = survives (field data (str "type"))
    /\ lookup (str "herbSpecies") l = survives (field data (str "herbSpecies"))
    /\ lookup (str "participant") l = survives (participant_of data)
    /\ lookup (str "trackingUrl") l = Some (VStr u)
    /\ lookup (str "timestamp") l
       = Some (VNum (Int (clock env (S (clock_reads w))))).
Proof.
  intros Hu Hc Ha Hw Hts.
  destruct (batch_payload env data u w Hw Hts)
    as (l & P & N & B & E & T & H & Pa & U & Ts & _).
  exists (batch_string env data u w), l.
  split; [exact (enhanced_request env data o w u Hu Hc Ha)|].
  repeat (split; [assumption|]). assumption.
Qed.

Lemma enhanced_payload_has_fixed_names_witness :
  well_formed processing_payload = true
  /\ exists s l,
       QRService.generateEnhancedQR offline processing_payload no_customization start
       = finish (str "https://app.example/track/E2")
           (hash_of (enriched_string offline processing_payload
                       (str "https://app.example/track/E2") start))
           (QRApiService.generateQRWithAPI offline s QRApiService.batch_options
              (tick (tick start)))
       /\ JSON.parse s = Some (VObj l)
       /\ (forall k, has_key k l = true -> In k batch_names)
       /\ lookup (str "batchId") l = Some (VStr (str "B1"))
       /\ lookup (str "eventId") l = Some (VStr (str "E2"))
       /\ lookup (str "type") l = Some (VStr (str "processing"))
       /\ lookup (str "herbSpecies") l = None
       /\ lookup (str "participant") l = Some (VStr (str "Bob"))
       /\ lookup (str "trackingUrl") l = Some (VStr (str "https://app.example/track/E2"))
       /\ lookup (str "timestamp") l = Some (VNum (Int 1700000000000)).
Proof.
  split; [reflexivity|].
  exact (enhanced_payload_has_fixed_names offline processing_payload
           no_customization start (str "https://app.example/track/E2")
           eq_refl eq_refl eq_refl eq_refl eq_refl).
Defined.

(** X14.  With the providers on, the [qrHash] of a successful
    [generateEnhancedQR] is the digest of the enriched payload string,
    while the string the providers encode is the batch string; for a
    payload without a [network] property the two strings differ. *)
Theorem enhanced_hash_covers_other_string (env : Env) (l : props)
        (o : QRService.enhanced_options) (w : world) (u : js_string) :
  QRService.tracking_url env (VObj l) = Ret u ->
  subtle_crypto env = true ->
  QRApiService.default true (QRService.useAPI o) = true ->
  well_formed (VObj l) = true ->
  safe_integer (clock env (clock_reads w)) = true ->
  safe_integer (clock env (S (clock_reads w))) = true ->
  lookup (str "network") l = None ->
  (exists ra w',
     QRService.generateEnhancedQR env (VObj l) o w
     = finish u (hash_of (enriched_string env (VObj l) u w))
         (QRApiService.generateQRWithAPI env (batch_string env (VObj l) u w)
            QRApiService.batch_options (tick (tick w)))
     /\ QRApiService.generateQRWithAPI env (batch_string env (VObj l) u w)
          QRApiService.batch_options (tick (tick w)) = (Ret ra, w')
     /\ forall d, QRService.usable ra = Some d ->
                  QRService.generateEnhancedQR env (VObj l) o w
                  = (Ret (QRService.succeeded d (Some u)
                            (Some (hash_of (enriched_string env (VObj l) u w)))),
                     w'))
  /\ enriched_string env (VObj l) u w <> batch_string env (VObj l) u w.
Proof.
  intros Hu Hc Ha Hw Hts Hts2 Hn. split.
  - destruct (api_trace env (batch_string env (VObj l) u w)
                QRApiService.batch_options (tick (tick w))) as (ra & new & Hr & _).
    exists ra, (requested (tick (tick w)) new).
    split; [exact (enhanced_request env (VObj l) o w u Hu Hc Ha)|].
    split; [exact Hr|].
    intros d Hd. rewrite (enhanced_request env (VObj l) o w u Hu Hc Ha), Hr.
    unfold finish. now rewrite Hd.
  - intros E.
    destruct (batch_payload env (VObj l) u w Hw Hts2)
      as (l' & P & _ & _ & _ & _ & _ & _ & _ & _ & _ & Net).
    rewrite <- E in P. unfold enriched_string in P.
    rewrite parse_serialize in P by now apply enrich_well_formed.
    pose proof Hw as Hd. apply well_formed_props in Hd as [Hd _].
    assert (P' : normalize (VObj (QRService.enrich (VObj l) u
                                    (clock env (clock_reads w)))) = VObj l')
      by congruence.
    assert (D : distinct_keys (QRService.enrich (VObj l) u
                                 (clock env (clock_reads w))) = true).
    { rewrite enrich_object. apply distinct_define_props, distinct_define_props.
      reflexivity. }
    rewrite (lookup_normalize (str "network") _ D l' P') in Net.
    rewrite lookup_enrich in Net by (assumption || reflexivity).
    rewrite Hn in Net. discriminate.
Qed.

Lemma enhanced_hash_covers_other_string_witness :
  well_formed processing_payload = true
  /\ enriched_string offline processing_payload
       (str "https://app.example/track/E2") start
     <> batch_string offline processing_payload
          (str "https://app.example/track/E2") start.
Proof.
  split; [reflexivity|].
  exact (proj2 (enhanced_hash_covers_other_string offline processing_props
                  no_customization start
                  (str "https://app.example/track/E2")
                  eq_refl eq_refl eq_refl eq_refl eq_refl eq_refl eq_refl)).
Defined.

(** ** The stage wrappers and the regeneration handler *)


Lemma usable_inv (r : result) (d : js_string) :
  QRService.usable r = Some d ->
  d <> [] /\ forall t h, QRService.usable (QRService.succeeded d t h) = Some d.
Proof.
  unfold QRService.usable. destruct (success r); [|discriminate].
  destruct (dataURL r) as [[|c s]|]; try discriminate.
  intros E. inversion E. split; [discriminate|reflexivity].
Qed.


(** The handler, once the service call has answered. *)
Lemma regenerate_run (env : Env) (p : QRCodeDisplay.component_props)
      (st : QRCodeDisplay.state) (b : QRCodeDisplay.batch_data) (w w' : world)
      (r : result) :
  QRCodeDisplay.batchData p = Some b ->
  QRService.generateEnhancedQR env (QRCodeDisplay.regenerate_data p b)
    (QRCodeDisplay.regenerate_options st) w = (Ret r, w') ->
  QRCodeDisplay.handleRegenerate env p st w
  = (Ret (QRCodeDisplay.setIsRegenerating false
            match QRService.usable r with
            | Some d => QRCodeDisplay.setCurrentQR d st
            | None => st
            end), w').
Proof.
  intros Hb Hr. unfold QRCodeDisplay.handleRegenerate. rewrite Hb.
  unfold try_catch, bind, ret. rewrite Hr.
  destruct (QRService.usable r); reflexivity.
Qed.



(** X17.  [handleRegenerate] always returns.  Without [batchData] it does
    nothing; with it the regenerating flag ends cleared, the
    customization is unchanged, and the displayed code is either the one
    before or a non-empty data URL. *)
Theorem regenerate_settles (env : Env) (p : QRCodeDisplay.component_props)
        (st : QRCodeDisplay.state) (w : world) :
  exists st' w',
    QRCodeDisplay.handleRegenerate env p st w = (Ret st', w')
    /\ QRCodeDisplay.customization_color st' = QRCodeDisplay.customization_color st
    /\ QRCodeDisplay.customization_backgroundColor st'
       = QRCodeDisplay.customization_backgroundColor st
    /\ QRCodeDisplay.customization_size st' = QRCodeDisplay.customization_size st
    /\ (QRCodeDisplay.currentQR st' = QRCodeDisplay.currentQR st
        \/ QRCodeDisplay.currentQR st' <> [])
    /\ match QRCodeDisplay.batchData p with
       | None => st' = st /\ w' = w
       | Some _ => QRCodeDisplay.isRegenerating st' = false
       end.
Proof.
  destruct (QRCodeDisplay.batchData p) as [b|] eqn:Hb.
  - destruct (enhanced_and_tracking_return env) as [R _].
    destruct (R (QRCodeDisplay.regenerate_data p b)
                (QRCodeDisplay.regenerate_options st) w) as (r & w' & Hr).
    rewrite (regenerate_run env p st b w w' r Hb Hr).
    eexists; eexists. split; [reflexivity|].
    destruct (QRService.usable r) as [d|] eqn:U; cbn; auto 7.
    destruct (usable_inv r d U) as [Hd _]. auto 7.
  - unfold QRCodeDisplay.handleRegenerate. rewrite Hb.
    exists st, w. auto 7.
Qed.

(** ** The query of the provider URLs *)

Section Query.

Local Open Scope N_scope.

Lemma not_surrogate_below (c : N) :
  c < 55296 -> is_high_surrogate c = false /\ is_low_surrogate c = false.
Proof.
  intros H. unfold is_high_surrogate, is_low_surrogate.
  assert (A : (55296 <=? c) = false) by (apply N.leb_gt; lia).
  assert (B : (56320 <=? c) = false) by (apply N.leb_gt; lia).
  now rewrite A, B.
Qed.

Lemma ascii_code_points (s : js_string) :
  is_ascii s = true -> URI.code_points s = List.map Some s.
Proof.
  induction s as [|c t IH]; [reflexivity|]. cbn [is_ascii forallb].
  intros H. apply andb_true_iff in H as [Hc Ht]. apply N.ltb_lt in Hc.
  cbn [URI.code_points List.map].
  destruct (not_surrogate_below c ltac:(lia)) as [-> ->].
  now rewrite IH.
Qed.

Lemma ascii_utf8 (s : js_string) : is_ascii s = true -> URI.utf8 s = s.
Proof.
  intros H. unfold URI.utf8. rewrite ascii_code_points by assumption.
  induction s as [|c t IH]; [reflexivity|]. cbn [is_ascii forallb] in H.
  apply andb_true_iff in H as [Hc Ht]. cbn [List.map flat_map].
  unfold URI.utf8_of_code_point at 1. rewrite Hc. cbn [app].
  now rewrite IH.
Qed.

Lemma utf8_decode_ascii (s : js_string) :
  is_ascii s = true -> URI.utf8_decode None s = s.
Proof.
  induction s as [|c t IH]; [reflexivity|]. cbn [is_ascii forallb].
  intros H. apply andb_true_iff in H as [Hc Ht].
  cbn [URI.utf8_decode]. unfold URI.lead_byte. rewrite Hc. cbn [app].
  now rewrite IH.
Qed.

Lemma hex_value_upper_hex (d : N) :
  d < 16 -> Str.hex_value (URI.upper_hex d) = Some d.
Proof.
  intros H.
  assert (C : d = 0 \/ d = 1 \/ d = 2 \/ d = 3 \/ d = 4 \/ d = 5 \/ d = 6 \/ d = 7
              \/ d = 8 \/ d = 9 \/ d = 10 \/ d = 11 \/ d = 12 \/ d = 13
              \/ d = 14 \/ d = 15) by lia.
  repeat (destruct C as [C|C]; [subst d; reflexivity|]). subst d. reflexivity.
Qed.

Lemma upper_hex_range (d : N) :
  d < 16 -> 48 <= URI.upper_hex d <= 57 \/ 65 <= URI.upper_hex d <= 70.
Proof.
  intros H. unfold URI.upper_hex. destruct (d <? 10) eqn:E.
  - apply N.ltb_lt in E. lia.
  - apply N.ltb_ge in E. lia.
Qed.

Lemma upper_hex_not (d x : N) : x < 48 \/ 57 < x < 65 -> (URI.upper_hex d =? x) = false.
Proof.
  intros H. apply N.eqb_neq. unfold URI.upper_hex. destruct (d <? 10) eqn:E.
  - apply N.ltb_lt in E. lia.
  - apply N.ltb_ge in E. lia.
Qed.

Lemma form_literal_not (b x : N) :
  form_literal b = true -> form_literal x = false -> (b =? x) = false.
Proof.
  intros Hb Hx. apply N.eqb_neq. intros ->. congruence.
Qed.

Lemma form_byte_decoded (b : N) (rest : list N) :
  b < 256 ->
  URI.form_decode_bytes (URI.form_byte b ++ rest)
  = b :: URI.form_decode_bytes rest.
Proof.
  intros H. unfold URI.form_byte. fold (form_literal b).
  destruct (form_literal b) eqn:L.
  - cbn [app URI.form_decode_bytes].
    rewrite (form_literal_not b 43 L eq_refl), (form_literal_not b 37 L eq_refl).
    reflexivity.
  - destruct (b =? 32) eqn:S.
    + apply N.eqb_eq in S. subst b. reflexivity.
    + unfold URI.percent. cbn [app URI.form_decode_bytes].
      change (37 =? 43) with false. change (37 =? 37) with true. cbv iota.
      rewrite !hex_value_upper_hex.
      * f_equal. pose proof (N.div_mod b 16). lia.
      * apply N.mod_lt. discriminate.
      * apply N.Div0.div_lt_upper_bound. lia.
Qed.

Lemma form_bytes_decoded (l : list N) :
  Forall (fun b => b < 256) l ->
  URI.form_decode_bytes (flat_map URI.form_byte l) = l.
Proof.
  induction 1 as [|b t Hb Ht IH]; [reflexivity|]. cbn [flat_map].
  now rewrite form_byte_decoded, IH.
Qed.

Lemma ascii_bytes (s : js_string) :
  is_ascii s = true -> Forall (fun b => b < 256) s.
Proof.
  unfold is_ascii. rewrite forallb_forall, Forall_forall. intros H b Hb.
  specialize (H b Hb). apply N.ltb_lt in H. lia.
Qed.

Lemma form_roundtrip_ascii (s : js_string) :
  is_ascii s = true -> URI.form_decode (URI.form_encode s) = s.
Proof.
  intros H. unfold URI.form_decode, URI.form_encode.
  rewrite ascii_utf8 by assumption.
  rewrite form_bytes_decoded by now apply ascii_bytes.
  now apply utf8_decode_ascii.
Qed.

Lemma form_byte_clean (b : N) :
  no_amp (URI.form_byte b) = true /\ no_equals (URI.form_byte b) = true.
Proof.
  unfold URI.form_byte. fold (form_literal b).
  destruct (form_literal b) eqn:L.
  - unfold no_amp, no_equals. cbn [forallb].
    rewrite (form_literal_not b 38 L eq_refl), (form_literal_not b 61 L eq_refl).
    split; reflexivity.
  - destruct (b =? 32); [split; reflexivity|].
    unfold URI.percent, no_amp, no_equals. cbn [forallb].
    rewrite !upper_hex_not by lia. split; reflexivity.
Qed.

Lemma form_encode_clean (s : js_string) :
  no_amp (URI.form_encode s) = true /\ no_equals (URI.form_encode s) = true.
Proof.
  unfold URI.form_encode. induction (URI.utf8 s) as [|b t [IH1 IH2]];
    [split; reflexivity|].
  cbn [flat_map]. unfold no_amp, no_equals in *. rewrite !forallb_app.
  destruct (form_byte_clean b) as [A B]. unfold no_amp, no_equals in A, B.
  now rewrite A, B, IH1, IH2.
Qed.

Lemma split_on_clean (x : js_string) :
  no_amp x = true -> URI.split_on 38 x = [x].
Proof.
  induction x as [|c t IH]; [reflexivity|]. unfold no_amp. cbn [forallb].
  intros H. apply andb_true_iff in H as [Hc Ht]. apply negb_true_iff in Hc.
  cbn [URI.split_on]. rewrite Hc, (IH Ht). reflexivity.
Qed.

Lemma split_on_app (x rest : js_string) :
  no_amp x = true ->
  URI.split_on 38 (x ++ 38 :: rest) = x :: URI.split_on 38 rest.
Proof.
  induction x as [|c t IH]; [reflexivity|]. unfold no_amp. cbn [forallb].
  intros H. apply andb_true_iff in H as [Hc Ht]. apply negb_true_iff in Hc.
  cbn [app URI.split_on]. rewrite Hc, (IH Ht). reflexivity.
Qed.

Lemma split_first_app (a b : js_string) :
  no_equals a = true -> URI.split_first 61 (a ++ 61 :: b) = (a, Some b).
Proof.
  induction a as [|c t IH]; [reflexivity|]. unfold no_equals. cbn [forallb].
  intros H. apply andb_true_iff in H as [Hc Ht]. apply negb_true_iff in Hc.
  cbn [app URI.split_first]. rewrite Hc, (IH Ht). reflexivity.
Qed.

Lemma segment_no_amp (kv : js_string * js_string) : no_amp (segment kv) = true.
Proof.
  unfold segment, no_amp. rewrite forallb_app. cbn [forallb].
  destruct (form_encode_clean (fst kv)) as [A _].
  destruct (form_encode_clean (snd kv)) as [B _].
  unfold no_amp in A, B. now rewrite A, B.
Qed.

Lemma split_on_join (l : list (js_string * js_string)) :
  l <> [] ->
  URI.split_on 38 (URI.join_amp (List.map segment l)) = List.map segment l.
Proof.
  induction l as [|kv t IH]; [congruence|]. intros _.
  destruct t as [|kv' t'].
  - cbn [List.map URI.join_amp]. apply split_on_clean, segment_no_amp.
  - change (URI.join_amp (List.map segment (kv :: kv' :: t')))
      with (segment kv ++ 38 :: URI.join_amp (List.map segment (kv' :: t'))).
    rewrite split_on_app by apply segment_no_amp.
    rewrite IH by discriminate. reflexivity.
Qed.

(** Reading a serialized query back gives each name and value as the form
    decoder reads its encoding. *)
Lemma parse_query_toString (l : list (js_string * js_string)) :
  URI.parse_query (URI.URLSearchParams_toString l) = List.map decoded l.
Proof.
  unfold URI.parse_query, URI.URLSearchParams_toString.
  change (fun kv : js_string * js_string =>
            URI.form_encode (fst kv) ++ 61 :: URI.form_encode (snd kv))
    with segment.
  destruct l as [|kv t]; [reflexivity|].
  rewrite split_on_join by discriminate.
  induction (kv :: t) as [|x r IH]; [reflexivity|].
  cbn [List.map List.filter].
  assert (E : segment x <> []).
  { unfold segment. intros E. apply (f_equal (@List.length N)) in E.
    rewrite length_app in E. cbn [List.length] in E. lia. }
  destruct (segment x) as [|c s] eqn:S; [congruence|]. rewrite <- S.
  cbn [List.map]. rewrite IH. f_equal.
  unfold segment. rewrite split_first_app by apply form_encode_clean.
  reflexivity.
Qed.

Lemma unreserved_ascii (c : N) : URI.uri_unreserved c = true -> c < 128.
Proof.
  unfold URI.uri_unreserved, URI.is_alnum.
  rewrite !orb_true_iff, !andb_true_iff, !N.leb_le, !N.eqb_eq. lia.
Qed.

Lemma percent_ascii (b : N) : b < 256 -> is_ascii (URI.percent b) = true.
Proof.
  intros H. unfold URI.percent, is_ascii. cbn [forallb].
  assert (A : b / 16 < 16) by (apply N.Div0.div_lt_upper_bound; lia).
  assert (B : b mod 16 < 16) by (apply N.mod_lt; discriminate).
  pose proof (upper_hex_range _ A). pose proof (upper_hex_range _ B).
  rewrite !andb_true_iff, !N.ltb_lt. lia.
Qed.

Lemma utf8_bytes (c : N) :
  c < 1114112 -> Forall (fun b => b < 256) (URI.utf8_of_code_point c).
Proof.
  intros H. unfold URI.utf8_of_code_point.
  destruct (c <? 128) eqn:A; [apply N.ltb_lt in A; repeat constructor; lia|].
  destruct (c <? 2048) eqn:B.
  { apply N.ltb_lt in B.
    assert (c / 64 < 32) by (apply N.Div0.div_lt_upper_bound; lia).
    assert (c mod 64 < 64) by (apply N.mod_lt; discriminate).
    repeat constructor; lia. }
  destruct (c <? 65536) eqn:C.
  { apply N.ltb_lt in C.
    assert (c / 4096 < 16) by (apply N.Div0.div_lt_upper_bound; lia).
    assert ((c / 64) mod 64 < 64) by (apply N.mod_lt; discriminate).
    assert (c mod 64 < 64) by (apply N.mod_lt; discriminate).
    repeat constructor; lia. }
  assert (c / 262144 < 5) by (apply N.Div0.div_lt_upper_bound; lia).
  assert ((c / 4096) mod 64 < 64) by (apply N.mod_lt; discriminate).
  assert ((c / 64) mod 64 < 64) by (apply N.mod_lt; discriminate).
  assert (c mod 64 < 64) by (apply N.mod_lt; discriminate).
  repeat constructor; lia.
Qed.

Lemma code_points_bounded (n : nat) :
  forall s, (List.length s <= n)%nat -> is_utf16 s = true ->
    Forall (fun o => match o with Some c => c < 1114112 | None => True end)
           (URI.code_points s).
Proof.
  induction n as [|n IH]; intros [|c t] L U; try constructor;
    cbn [List.length] in L; [lia|].
  cbn [is_utf16 forallb] in U. apply andb_true_iff in U as [Uc Ut].
  apply N.ltb_lt in Uc. cbn [URI.code_points].
  destruct (is_high_surrogate c) eqn:Hh.
  - apply high_bounds in Hh. destruct t as [|d t']; [repeat constructor|].
    cbn [is_utf16 forallb] in Ut. apply andb_true_iff in Ut as [Ud Ut'].
    destruct (is_low_surrogate d) eqn:Hl.
    + apply low_bounds in Hl. constructor; [lia|].
      apply IH; [cbn [List.length] in L; lia | exact Ut'].
    + constructor; [exact I|]. apply IH; [lia|].
      cbn [is_utf16 forallb]. now rewrite Ud.
  - destruct (is_low_surrogate c); (constructor; [|apply IH; [lia|exact Ut]]).
    + exact I.
    + lia.
Qed.

Lemma flat_percent_ascii (l : list N) :
  Forall (fun b => b < 256) l -> is_ascii (flat_map URI.percent l) = true.
Proof.
  induction 1 as [|b t Hb Ht IH]; [reflexivity|]. cbn [flat_map].
  unfold is_ascii in *. rewrite forallb_app, IH.
  pose proof (percent_ascii b Hb) as P. unfold is_ascii in P. now rewrite P.
Qed.

Lemma encode_points_ascii (l : list (option N)) :
  Forall (fun o => match o with Some c => c < 1114112 | None => True end) l ->
  forall d, URI.encode_points l = Some d -> is_ascii d = true.
Proof.
  induction 1 as [|[c|] t Hc Ht IH]; intros d E; cbn [URI.encode_points] in E.
  - inversion E. reflexivity.
  - destruct (URI.encode_points t) as [r|]; [|discriminate].
    inversion E. unfold is_ascii. rewrite forallb_app.
    fold (is_ascii r). rewrite (IH r eq_refl), andb_true_r.
    destruct (URI.uri_unreserved c) eqn:R.
    + cbn [forallb]. apply unreserved_ascii in R. apply N.ltb_lt in R.
      now rewrite R.
    + apply flat_percent_ascii, utf8_bytes, Hc.
  - discriminate.
Qed.

Lemma encodeURIComponent_ascii (s d : js_string) :
  is_utf16 s = true -> URI.encodeURIComponent s = Some d -> is_ascii d = true.
Proof.
  intros U. apply encode_points_ascii.
  now apply (code_points_bounded (List.length s)).
Qed.

Lemma digits_ascii (u : Decimal.uint) : is_ascii (Str.digits_of_uint u) = true.
Proof. induction u; cbn [Str.digits_of_uint is_ascii forallb]; auto. Qed.

Lemma of_Z_ascii (z : Z) : is_ascii (Str.of_Z z) = true.
Proof. destruct z; cbn [Str.of_Z]; apply digits_ascii. Qed.

Lemma square_ascii (n : Z) : is_ascii (QRApiService.square n) = true.
Proof.
  unfold QRApiService.square, is_ascii. rewrite !forallb_app.
  fold (is_ascii (Str.of_Z n)). now rewrite of_Z_ascii.
Qed.

Lemma decoded_ascii (k v : js_string) :
  is_ascii k = true -> is_ascii v = true -> decoded (k, v) = (k, v).
Proof.
  intros Hk Hv. unfold decoded. cbn [fst snd].
  now rewrite !form_roundtrip_ascii.
Qed.

Lemma format_name_ascii (f : image_format) :
  is_ascii (QRApiService.format_name f) = true.
Proof. now destruct f. Qed.

Lemma level_name_ascii (l : Ec.level) :
  is_ascii (QRApiService.level_name l) = true.
Proof. now destruct l. Qed.

Lemma search_params_primary (q : js_string) :
  search_params (QRApiService.providers_qrserver ++ str "?" ++ q)
  = URI.parse_query q.
Proof. reflexivity. Qed.

Lemma search_params_secondary (q : js_string) :
  search_params (QRApiService.providers_quickchart ++ str "?" ++ q)
  = URI.parse_query q.
Proof. reflexivity. Qed.

(** X18.  Read back as the providers read them, the parameters of the
    primary URL are exactly [data], [size], [format], [ecc], [margin],
    [color] and [bgcolor], and those of the secondary URL exactly [text],
    [size] and [format]: [data] and [text] hold the percent-encoded
    payload, [size] is the size twice around an [x], and the other values
    are the style's. *)
Theorem provider_urls_read_back (data d : js_string) (st : QRApiService.style) :
  URI.encodeURIComponent data = Some d ->
  is_utf16 data = true ->
  is_ascii (QRApiService.style_color st) = true ->
  is_ascii (QRApiService.style_backgroundColor st) = true ->
  exists u1 u2,
    QRApiService.buildQRServerUrl data st = Ret u1
    /\ QRApiService.buildQuickChartUrl data (QRApiService.style_size st)
         (QRApiService.style_format st) = Ret u2
    /\ search_params u1
       = [(str "data", d);
          (str "size", QRApiService.square (QRApiService.style_size st));
          (str "format", QRApiService.format_name (QRApiService.style_format st));
          (str "ecc", QRApiService.level_name (QRApiService.style_errorCorrection st));
          (str "margin", Str.of_Z (QRApiService.style_margin st));
          (str "color", QRApiService.style_color st);
          (str "bgcolor", QRApiService.style_backgroundColor st)]
    /\ search_params u2
       = [(str "text", d);
          (str "size", QRApiService.square (QRApiService.style_size st));
          (str "format", QRApiService.format_name (QRApiService.style_format st))].
Proof.
  intros E U Hc Hb. pose proof (encodeURIComponent_ascii data d U E) as Hd.
  unfold QRApiService.buildQRServerUrl, QRApiService.buildQuickChartUrl.
  rewrite E. eexists; eexists. split; [reflexivity|]. split; [reflexivity|].
  rewrite search_params_primary, search_params_secondary.
  rewrite !parse_query_toString. cbn [List.map].
  rewrite !decoded_ascii
    by (try reflexivity; auto using square_ascii, format_name_ascii,
          level_name_ascii, of_Z_ascii).
  split; reflexivity.
Qed.

Lemma provider_urls_read_back_witness :
  URI.encodeURIComponent brace_payload = Some (str "%7B%22a%22%3A1%7D")
  /\ exists u1 u2,
       QRApiService.buildQRServerUrl brace_payload house_style = Ret u1
       /\ QRApiService.buildQuickChartUrl brace_payload 300 png = Ret u2
       /\ search_params u1
          = [(str "data", str "%7B%22a%22%3A1%7D"); (str "size", str "300x300");
             (str "format", str "png"); (str "ecc", str "H");
             (str "margin", str "2"); (str "color", str "2D5A27");
             (str "bgcolor", str "FFFFFF")]
       /\ search_params u2
          = [(str "text", str "%7B%22a%22%3A1%7D"); (str "size", str "300x300");
             (str "format", str "png")].
Proof.
  split; [reflexivity|].
  exact (provider_urls_read_back brace_payload (str "%7B%22a%22%3A1%7D")
           house_style eq_refl eq_refl eq_refl eq_refl).
Defined.

End Query.

(** ** When the provider receives the payload itself *)

Section Unreserved.

Local Open Scope N_scope.

Lemma encode_unreserved (s : js_string) :
  forallb URI.uri_unreserved s = true -> URI.encodeURIComponent s = Some s.
Proof.
  unfold URI.encodeURIComponent.
  induction s as [|c t IH]; [reflexivity|]. cbn [forallb]. intros H.
  apply andb_true_iff in H as [Hc Ht]. cbn [URI.code_points].
  pose proof (unreserved_ascii c Hc) as A.
  destruct (not_surrogate_below c ltac:(lia)) as [-> ->].
  cbn [URI.encode_points]. now rewrite (IH Ht), Hc.
Qed.

Lemma flat_percent_length (l : list N) :
  List.length (flat_map URI.percent l) = (3 * List.length l)%nat.
Proof.
  induction l as [|b t IH]; [reflexivity|]. cbn [flat_map].
  rewrite length_app, IH. cbn [URI.percent List.length]. lia.
Qed.

Lemma utf8_of_code_point_length (c : N) :
  (1 <= List.length (URI.utf8_of_code_point c))%nat.
Proof.
  unfold URI.utf8_of_code_point.
  destruct (c <? 128); [cbn; lia|]. destruct (c <? 2048); [cbn; lia|].
  destruct (c <? 65536); cbn; lia.
Qed.

Lemma escaped_length (c : N) :
  (3 <= List.length (flat_map URI.percent (URI.utf8_of_code_point c)))%nat.
Proof.
  rewrite flat_percent_length. pose proof (utf8_of_code_point_length c). lia.
Qed.

(** Encoding never shortens a string, and keeps its length only when
    every character is unreserved. *)
Lemma encode_grows (n : nat) :
  forall s d, (List.length s <= n)%nat -> URI.encodeURIComponent s = Some d ->
    (List.length s <= List.length d)%nat
    /\ (List.length d = List.length s -> forallb URI.uri_unreserved s = true).
Proof.
  unfold URI.encodeURIComponent.
  induction n as [|n IH]; intros [|c t] d L E; cbn [List.length] in L; try lia;
    try (inversion E; split; [cbn; lia | reflexivity]).
  cbn [URI.code_points] in E.
  destruct (is_high_surrogate c) eqn:Hh.
  - destruct t as [|c' t']; [discriminate|].
    destruct (is_low_surrogate c') eqn:Hl; [|discriminate].
    cbn [URI.encode_points] in E.
    destruct (URI.encode_points (URI.code_points t')) as [r|] eqn:R;
      [|discriminate].
    cbn [List.length] in L.
    destruct (IH t' r ltac:(lia) R) as [Len _].
    apply high_bounds in Hh. apply low_bounds in Hl.
    set (cp := 65536 + (c - 55296) * 1024 + (c' - 56320)) in *.
    destruct (URI.uri_unreserved cp) eqn:Un.
    { apply unreserved_ascii in Un. unfold cp in Un. lia. }
    inversion E. rewrite length_app. pose proof (escaped_length cp).
    cbn [List.length]. split; lia.
  - destruct (is_low_surrogate c) eqn:Hl; [discriminate|].
    cbn [URI.encode_points] in E.
    destruct (URI.encode_points (URI.code_points t)) as [r|] eqn:R;
      [|discriminate].
    destruct (IH t r ltac:(lia) R) as [Len Eq].
    inversion E. rewrite length_app. cbn [List.length forallb].
    destruct (URI.uri_unreserved c) eqn:Un.
    + cbn [List.length]. split; [lia|]. intros H. apply Eq. lia.
    + pose proof (escaped_length c). split; lia.
Qed.

Lemma encode_identity (s : js_string) :
  URI.encodeURIComponent s = Some s <-> forallb URI.uri_unreserved s = true.
Proof.
  split; [|apply encode_unreserved]. intros E.
  now apply (encode_grows (List.length s) s s (le_n _) E).
Qed.

Lemma searchParams_get_assoc (u k : js_string) :
  URI.searchParams_get u k = URI.assoc k (search_params u).
Proof.
  unfold URI.searchParams_get, search_params.
  destruct (URI.split_first 63 u) as [a [q|]]; reflexivity.
Qed.

(** What the providers read as [data] and [text]: the percent-encoded
    payload. *)
Lemma data_parameter (data d : js_string) (st : QRApiService.style)
      (u1 u2 : js_string) :
  is_utf16 data = true ->
  URI.encodeURIComponent data = Some d ->
  QRApiService.buildQRServerUrl data st = Ret u1 ->
  QRApiService.buildQuickChartUrl data (QRApiService.style_size st)
    (QRApiService.style_format st) = Ret u2 ->
  URI.searchParams_get u1 (str "data") = Some d
  /\ URI.searchParams_get u2 (str "text") = Some d.
Proof.
  intros U E H1 H2.
  unfold QRApiService.buildQRServerUrl in H1.
  unfold QRApiService.buildQuickChartUrl in H2.
  rewrite E in H1, H2.
  pose proof (encodeURIComponent_ascii data d U E) as Hd.
  match type of H1 with Ret ?x = _ => replace u1 with x by congruence end.
  match type of H2 with Ret ?x = _ => replace u2 with x by congruence end.
  rewrite !searchParams_get_assoc, search_params_primary, search_params_secondary.
  rewrite !parse_query_toString. cbn [List.map].
  rewrite !(decoded_ascii _ d) by (reflexivity || exact Hd).
  cbn [URI.assoc]. rewrite !js_string_eqb_refl. split; reflexivity.
Qed.

(** X19.  The [data] parameter of the primary URL, and the [text]
    parameter of the secondary one, read back as the payload itself
    exactly when every character of the payload is one that
    [encodeURIComponent] leaves alone. *)
Theorem provider_receives_payload_iff_unreserved
        (data : js_string) (st : QRApiService.style) (u1 u2 : js_string) :
  is_utf16 data = true ->
  QRApiService.buildQRServerUrl data st = Ret u1 ->
  QRApiService.buildQuickChartUrl data (QRApiService.style_size st)
    (QRApiService.style_format st) = Ret u2 ->
  (URI.searchParams_get u1 (str "data") = Some data
   <-> forallb URI.uri_unreserved data = true)
  /\ (URI.searchParams_get u2 (str "text") = Some data
      <-> forallb URI.uri_unreserved data = true).
Proof.
  intros U H1 H2.
  destruct (URI.encodeURIComponent data) as [d|] eqn:E.
  2:{ unfold QRApiService.buildQRServerUrl in H1. rewrite E in H1. discriminate. }
  destruct (data_parameter data d st u1 u2 U E H1 H2) as [-> ->].
  rewrite <- encode_identity, E. split; split; congruence.
Qed.

Lemma provider_receives_payload_iff_unreserved_witness :
  QRApiService.buildQRServerUrl (str "E1") house_style = Ret primary_url_E1
  /\ (URI.searchParams_get primary_url_E1 (str "data") = Some (str "E1")
      <-> forallb URI.uri_unreserved (str "E1") = true)
  /\ (URI.searchParams_get secondary_url_E1 (str "text") = Some (str "E1")
      <-> forallb URI.uri_unreserved (str "E1") = true).
Proof.
  split; [reflexivity|].
  exact (provider_receives_payload_iff_unreserved (str "E1") house_style
           primary_url_E1 secondary_url_E1 eq_refl eq_refl eq_refl).
Defined.

End Unreserved.

(** ** A serialized payload can always be sent *)

Section Encodable.

Local Open Scope N_scope.

Lemma encode_points_app (a b : list (option N)) :
  URI.encode_points (a ++ b)
  = match URI.encode_points a, URI.encode_points b with
    | Some x, Some y => Some (x ++ y)
    | _, _ => None
    end.
Proof.
  induction a as [|[c|] t IH]; cbn [app URI.encode_points].
  - now destruct (URI.encode_points b).
  - rewrite IH. destruct (URI.encode_points t), (URI.encode_points b);
      try reflexivity. now rewrite app_assoc.
  - reflexivity.
Qed.

Lemma whole_nil : whole [].
Proof. split; [reflexivity | discriminate]. Qed.

Lemma whole_app (a b : js_string) : whole a -> whole b -> whole (a ++ b).
Proof.
  intros [Wa Ea] [Wb Eb]. split.
  - intros t. now rewrite <- app_assoc, Wa, Wb, Wa, app_assoc.
  - rewrite Wa, encode_points_app.
    destruct (URI.encode_points (URI.code_points a)); [|congruence].
    destruct (URI.encode_points (URI.code_points b)); congruence.
Qed.

Lemma whole_plain (c : N) : is_plain c = true -> whole [c].
Proof.
  unfold is_plain. intros H. apply andb_true_iff in H as [Hh Hl].
  apply negb_true_iff in Hh, Hl. split.
  - intros t. cbn [app URI.code_points]. now rewrite Hh, Hl.
  - cbn [URI.code_points]. rewrite Hh, Hl. cbn [URI.encode_points].
    discriminate.
Qed.

Lemma whole_pair (c d : N) :
  is_high_surrogate c = true -> is_low_surrogate d = true -> whole [c; d].
Proof.
  intros Hh Hl. split.
  - intros t. cbn [app URI.code_points]. now rewrite Hh, Hl.
  - cbn [URI.code_points]. rewrite Hh, Hl. cbn [URI.encode_points].
    discriminate.
Qed.

Lemma whole_cons (c : N) (s : js_string) :
  is_plain c = true -> whole s -> whole (c :: s).
Proof. intros Hc Hs. apply (whole_app [c] s); [now apply whole_plain|exact Hs]. Qed.

Lemma ascii_plain (c : N) : c < 128 -> is_plain c = true.
Proof.
  intros H. unfold is_plain.
  now destruct (not_surrogate_below c ltac:(lia)) as [-> ->].
Qed.

Lemma whole_ascii (s : js_string) : is_ascii s = true -> whole s.
Proof.
  induction s as [|c t IH]; [intros _; apply whole_nil|].
  cbn [is_ascii forallb]. intros H. apply andb_true_iff in H as [Hc Ht].
  apply N.ltb_lt in Hc. apply whole_cons; [now apply ascii_plain|now apply IH].
Qed.

Lemma hex_digit_ascii (d : N) : d < 16 -> (Str.hex_digit d <? 128) = true.
Proof.
  intros H. apply N.ltb_lt. unfold Str.hex_digit. destruct (d <? 10); lia.
Qed.

Lemma unicode_escape_ascii (c : N) : is_ascii (unicode_escape c) = true.
Proof.
  unfold unicode_escape, is_ascii. cbn [forallb].
  rewrite !hex_digit_ascii by (apply N.mod_lt; discriminate). reflexivity.
Qed.

Lemma whole_escape_unit (c : N) :
  is_high_surrogate c = false -> whole (escape_unit c).
Proof.
  intros Hh. unfold escape_unit.
  repeat match goal with
         | |- whole (if ?b then _ else _) =>
             destruct b eqn:?; [now apply whole_ascii|]
         end.
  destruct ((c <? 32) || is_high_surrogate c || is_low_surrogate c) eqn:E.
  - apply whole_ascii, unicode_escape_ascii.
  - apply whole_plain. unfold is_plain.
    apply orb_false_iff in E as [E El]. now rewrite Hh, El.
Qed.

Lemma whole_quote_units (n : nat) :
  forall s, (List.length s <= n)%nat -> whole (quote_units s).
Proof.
  induction n as [|n IH]; intros [|c t] L; cbn [List.length] in L;
    try apply whole_nil; [lia|].
  cbn [quote_units]. destruct (is_high_surrogate c) eqn:Hh.
  - destruct t as [|d t']; [apply whole_ascii, unicode_escape_ascii|].
    destruct (is_low_surrogate d) eqn:Hl.
    + apply (whole_app [c; d]); [now apply whole_pair|].
      apply IH. cbn [List.length] in L. lia.
    + apply whole_app; [apply whole_ascii, unicode_escape_ascii|].
      apply IH. lia.
  - apply whole_app; [now apply whole_escape_unit|]. apply IH. lia.
Qed.

Lemma whole_quote (s : js_string) : whole (quote s).
Proof.
  unfold quote. apply (whole_app [34]); [now apply whole_ascii|].
  apply whole_app; [apply (whole_quote_units (List.length s)), le_n|].
  now apply whole_ascii.
Qed.

Lemma ascii_app (a b : js_string) :
  is_ascii (a ++ b) = is_ascii a && is_ascii b.
Proof. apply forallb_app. Qed.

Lemma ascii_split (n : nat) (x : N) (l : js_string) :
  is_ascii l = true -> x < 128 ->
  is_ascii (firstn n l ++ x :: skipn n l) = true.
Proof.
  intros H Hx. rewrite <- (firstn_skipn n l), ascii_app in H.
  apply andb_true_iff in H as [A B]. rewrite ascii_app, A.
  cbn [is_ascii forallb]. apply N.ltb_lt in Hx. rewrite Hx. exact B.
Qed.

Lemma ascii_repeat (x : N) (n : nat) : x < 128 -> is_ascii (repeat x n) = true.
Proof.
  intros Hx. apply N.ltb_lt in Hx.
  induction n as [|n IH]; [reflexivity|]. cbn [repeat is_ascii forallb].
  now rewrite Hx.
Qed.

Lemma of_N_ascii (n : N) : is_ascii (Str.of_N n) = true.
Proof. apply digits_ascii. Qed.

Lemma number_to_string_ascii (n : number) : is_ascii (number_to_string n) = true.
Proof.
  destruct n as [z|m e]; [apply of_Z_ascii|]. unfold number_to_string.
  set (ds := Str.of_N (Z.abs_N m)).
  assert (Hds : is_ascii ds = true) by apply of_N_ascii.
  set (k := (Z.of_nat (List.length ds) + e)%Z).
  match goal with
  | |- is_ascii (if _ then 45 :: ?b else ?b) = true =>
      assert (Hb : is_ascii b = true); [|destruct (m <? 0)%Z; [exact Hb|exact Hb]]
  end.
  destruct ((0 <? k) && (k <=? 21))%Z; [now apply ascii_split|].
  destruct ((-6 <? k) && (k <=? 0))%Z.
  { change (is_ascii (repeat 48 (Z.to_nat (- k)) ++ ds) = true).
    rewrite ascii_app, ascii_repeat, Hds by lia. reflexivity. }
  assert (He : is_ascii (101 :: (if (k - 1 <? 0)%Z then 45 else 43)
                           :: Str.of_N (Z.abs_N (k - 1))) = true).
  { cbn [is_ascii forallb]. fold (is_ascii (Str.of_N (Z.abs_N (k - 1)))).
    rewrite of_N_ascii. now destruct (k - 1 <? 0)%Z. }
  destruct ds as [|d [|d' rest]]; [reflexivity| |].
  - cbn [is_ascii forallb] in Hds |- *. apply andb_true_iff in Hds as [-> _].
    exact He.
  - cbn [is_ascii forallb] in Hds. apply andb_true_iff in Hds as [Hd Hr].
    apply andb_true_iff in Hr as [Hd' Hr].
    unfold is_ascii in He |- *. cbn [forallb app]. rewrite forallb_app.
    rewrite Hd, Hd', Hr, He. reflexivity.
Qed.

Lemma whole_join_comma (l : list js_string) :
  Forall whole l -> whole (join_comma l).
Proof.
  induction 1 as [|x t Hx Ht IH]; [apply whole_nil|].
  destruct t as [|y t']; [exact Hx|].
  change (whole (x ++ 44 :: join_comma (y :: t'))).
  apply whole_app; [exact Hx|]. apply whole_cons; [reflexivity|exact IH].
Qed.

Lemma whole_serialize (v : value) : whole (serialize v).
Proof.
  induction v as [| |b|n|s|l IH|l IH] using value_induction.
  - now apply whole_ascii.
  - now apply whole_ascii.
  - destruct b; now apply whole_ascii.
  - apply whole_ascii, number_to_string_ascii.
  - apply whole_quote.
  - cbn [serialize]. apply whole_cons; [reflexivity|].
    apply whole_app; [|now apply whole_ascii].
    apply whole_join_comma. induction IH; constructor; assumption.
  - cbn [serialize]. apply whole_cons; [reflexivity|].
    apply whole_app; [|now apply whole_ascii].
    apply whole_join_comma.
    induction IH as [|[k x] t Hx Ht IHt]; [constructor|].
    cbn [members]. cbn [snd] in Hx.
    destruct (is_undefined x); [exact IHt|]. constructor; [|exact IHt].
    apply whole_app; [apply whole_quote|].
    apply whole_cons; [reflexivity|exact Hx].
Qed.

Lemma serialize_encodable (v : value) :
  exists d, URI.encodeURIComponent (serialize v) = Some d.
Proof.
  destruct (whole_serialize v) as [_ E]. unfold URI.encodeURIComponent.
  destruct (URI.encode_points (URI.code_points (serialize v))) as [d|];
    [now exists d|congruence].
Qed.


Lemma serialized_url (v : value) (st : QRApiService.style) :
  exists d u1 u2,
    URI.encodeURIComponent (serialize v) = Some d
    /\ QRApiService.buildQRServerUrl (serialize v) st = Ret u1
    /\ QRApiService.buildQuickChartUrl (serialize v)
         (QRApiService.style_size st) (QRApiService.style_format st) = Ret u2.
Proof.
  destruct (serialize_encodable v) as (d & E).
  unfold QRApiService.buildQRServerUrl, QRApiService.buildQuickChartUrl.
  rewrite E. eexists; eexists; eexists. repeat split.
Qed.



Lemma encode_brace (t : js_string) (d : js_string) :
  URI.encodeURIComponent (123 :: t) = Some d -> exists r, d = str "%7B" ++ r.
Proof.
  unfold URI.encodeURIComponent. cbn [URI.code_points].
  change (is_high_surrogate 123) with false.
  change (is_low_surrogate 123) with false. cbv iota.
  cbn [URI.encode_points].
  destruct (URI.encode_points (URI.code_points t)) as [r|]; [|discriminate].
  intros E. exists r. inversion E. reflexivity.
Qed.

(** X21.  For every payload the [data] and [text] parameters of the URLs
    [generateQR] requests read back as the percent-encoded payload
    string, which starts with [%7B] and so is never the payload string
    itself. *)
Theorem payload_is_always_encoded_twice (env : Env) (data : value)
        (u : js_string) (w : world) :
  is_utf16 (enriched_string env data u w) = true ->
  exists d u1 u2 r,
    QRApiService.buildQRServerUrl (enriched_string env data u w) house_style
    = Ret u1
    /\ QRApiService.buildQuickChartUrl (enriched_string env data u w) 300 png
       = Ret u2
    /\ URI.encodeURIComponent (enriched_string env data u w) = Some d
    /\ URI.searchParams_get u1 (str "data") = Some d
    /\ URI.searchParams_get u2 (str "text") = Some d
    /\ d = str "%7B" ++ r
    /\ d <> enriched_string env data u w.
Proof.
  intros U. unfold enriched_string in *.
  set (v := VObj (QRService.enrich data u (clock env (clock_reads w)))) in *.
  destruct (serialized_url v house_style) as (d & u1 & u2 & E & H1 & H2).
  destruct (data_parameter (serialize v) d house_style u1 u2 U E H1 H2)
    as [G1 G2].
  assert (B : exists r, d = str "%7B" ++ r).
  { apply (encode_brace (join_comma
                           (members serialize
                              (QRService.enrich data u (clock env (clock_reads w))))
                         ++ [125])). exact E. }
  destruct B as (r & B).
  exists d, u1, u2, r. repeat (split; [assumption|]).
  rewrite B. discriminate.
Qed.

Lemma payload_is_always_encoded_twice_witness :
  exists d u1 u2 r,
    QRApiService.buildQRServerUrl
      (enriched_string offline sample_payload (str "https://app.example/track/E1")
         start) house_style = Ret u1
    /\ QRApiService.buildQuickChartUrl
         (enriched_string offline sample_payload
            (str "https://app.example/track/E1") start) 300 png = Ret u2
    /\ URI.encodeURIComponent
         (enriched_string offline sample_payload
            (str "https://app.example/track/E1") start) = Some d
    /\ URI.searchParams_get u1 (str "data") = Some d
    /\ URI.searchParams_get u2 (str "text") = Some d
    /\ d = str "%7B" ++ r
    /\ d <> enriched_string offline sample_payload
              (str "https://app.example/track/E1") start.
Proof.
  exact (payload_is_always_encoded_twice offline sample_payload
           (str "https://app.example/track/E1") start eq_refl).
Defined.

End Encodable.

(** ** What the payloads keep of the caller's object *)

Lemma lookup_spread (k : js_string) (l : props) :
  distinct_keys l = true -> lookup k (define_props [] l) = lookup k l.
Proof.
  intros D. rewrite lookup_define_props by assumption.
  now destruct (lookup k l).
Qed.

(** X22.  In the string [generateQR] serializes, [trackingUrl],
    [timestamp] and [version] are the service's own values even when the
    caller's object has properties of these names; every other property
    of the caller's object is read back as it was serialized, and one
    whose value is [undefined] is left out. *)
Theorem payload_overrides_reserved_names (env : Env) (l : props) (w : world)
        (u : js_string) :
  well_formed (VObj l) = true ->
  safe_integer (clock env (clock_reads w)) = true ->
  QRService.tracking_url env (VObj l) = Ret u ->
  exists l',
    payload_string env (VObj l) w = Ret (enriched_string env (VObj l) u w)
    /\ JSON.parse (enriched_string env (VObj l) u w) = Some (VObj l')
    /\ lookup (str "trackingUrl") l' = Some (VStr u)
    /\ lookup (str "timestamp") l' = Some (VNum (Int (clock env (clock_reads w))))
    /\ lookup (str "version") l' = Some (VStr (str "1.0"))
    /\ forall k,
         lookup k (enrichment u (clock env (clock_reads w))) = None ->
         lookup k l' = match lookup k l with
                       | Some x => survives x
                       | None => None
                       end.
Proof.
  intros Hw Hts Hu. set (ts := clock env (clock_reads w)) in *.
  pose proof Hw as Hd. apply well_formed_props in Hd as [Hd _].
  assert (D : distinct_keys (QRService.enrich (VObj l) u ts) = true).
  { rewrite enrich_object. apply distinct_define_props, distinct_define_props.
    reflexivity. }
  assert (L : forall k,
             lookup k (QRService.enrich (VObj l) u ts)
             = match lookup k (enrichment u ts) with
               | Some x => Some x
               | None => lookup k l
               end).
  { intros k. rewrite enrich_object, lookup_define_props by reflexivity.
    now rewrite lookup_spread. }
  exists (define_props [] (kept normalize (QRService.enrich (VObj l) u ts))).
  split. { unfold payload_string. rewrite Hu. reflexivity. }
  split. { unfold enriched_string. fold ts.
           rewrite parse_serialize by now apply enrich_well_formed.
           reflexivity. }
  split. { erewrite lookup_normalize; [|exact D|reflexivity]. now rewrite L. }
  split. { erewrite lookup_normalize; [|exact D|reflexivity]. now rewrite L. }
  split. { erewrite lookup_normalize; [|exact D|reflexivity]. now rewrite L. }
  intros k Hk. erewrite lookup_normalize; [|exact D|reflexivity].
  rewrite L, Hk. reflexivity.
Qed.

Lemma payload_overrides_reserved_names_witness :
  well_formed (VObj versioned_props) = true
  /\ exists l',
       JSON.parse (enriched_string offline (VObj versioned_props)
                     (str "https://app.example/track/E1") start) = Some (VObj l')
       /\ lookup (str "trackingUrl") l'
          = Some (VStr (str "https://app.example/track/E1"))
       /\ lookup (str "version") l' = Some (VStr (str "1.0"))
       /\ lookup (str "weight") l' = Some (VNum (Int 12))
       /\ lookup (str "notes") l' = None.
Proof.
  split; [reflexivity|].
  destruct (payload_overrides_reserved_names offline versioned_props start
              (str "https://app.example/track/E1") eq_refl eq_refl eq_refl)
    as (l' & _ & P & U & _ & V & K).
  exists l'. split; [exact P|]. split; [exact U|]. split; [exact V|].
  split; [exact (K (str "weight") eq_refl) | exact (K (str "notes") eq_refl)].
Defined.

(** X23.  The string [generateEnhancedQR] has the providers encode is
    accepted by [parseQRData] whenever the payload's [eventId] is a
    non-empty string, and the data object returned has that [eventId],
    the network name, and the [batchId], [type] and [participant] that
    survive serialization. *)
Theorem enhanced_payload_parses_back (env : Env) (data : value) (u : js_string)
        (w : world) (e : js_string) :
  well_formed data = true ->
  safe_integer (clock env (S (clock_reads w))) = true ->
  field data (str "eventId") = VStr e ->
  e <> [] ->
  exists l,
    QRService.parseQRData (batch_string env data u w)
    = Ret (QRService.parsed (Some (VObj l)))
    /\ lookup (str "eventId") l = Some (VStr e)
    /\ lookup (str "batchId") l = survives (field data (str "batchId"))
    /\ lookup (str "type") l = survives (field data (str "type"))
    /\ lookup (str "participant") l = survives (participant_of data)
    /\ lookup (str "network") l = Some (VStr (str "hyperledger-fabric")).
Proof.
  intros Hw Hts He Hn.
  destruct (batch_payload env data u w Hw Hts)
    as (l & P & _ & B & E & T & _ & Pa & _ & _ & _ & Net).
  rewrite He in E. exists l.
  split; [|auto].
  rewrite parseQRData_cases, P. cbn [nullish].
  unfold field. cbn [get]. rewrite E. cbn [truthy].
  destruct e; [congruence|reflexivity].
Qed.

Lemma enhanced_payload_parses_back_witness :
  exists l,
    QRService.parseQRData
      (batch_string offline (VObj [(str "eventId", VStr (str "E1"))])
         (str "https://app.example/track/E1") start)
    = Ret (QRService.parsed (Some (VObj l)))
    /\ lookup (str "eventId") l = Some (VStr (str "E1"))
    /\ lookup (str "batchId") l = None
    /\ lookup (str "type") l = None
    /\ lookup (str "participant") l = None
    /\ lookup (str "network") l = Some (VStr (str "hyperledger-fabric")).
Proof.
  exact (enhanced_payload_parses_back offline
           (VObj [(str "eventId", VStr (str "E1"))])
           (str "https://app.example/track/E1") start (str "E1")
           eq_refl eq_refl eq_refl
           (fun E => match E in _ = y return
                       match y with [] => False | _ => True end
                     with eq_refl => I end)).
Defined.

(** X24.  In the string [generateBatchQR] serializes for the providers,
    [timestamp], [version] and [network] are the service's own values
    even when the batch object has properties of these names; every other
    property of the batch object is read back as it was serialized, and
    one whose value is [undefined] is left out. *)
Theorem batch_payload_keeps_caller_fields (env : Env) (l : props) (w : world) :
  well_formed (VObj l) = true ->
  safe_integer (clock env (clock_reads w)) = true ->
  exists s l',
    QRApiService.generateBatchQR env (VObj l) w
    = QRApiService.generateQRWithAPI env s QRApiService.batch_options (tick w)
    /\ JSON.parse s = Some (VObj l')
    /\ forall k,
         lookup k l'
         = match lookup k (batch_fields (clock env (clock_reads w))) with
           | Some x => Some x
           | None => match lookup k l with
                     | Some x => survives x
                     | None => None
                     end
           end.
Proof.
  intros Hw Hts. set (ts := clock env (clock_reads w)) in *.
  pose proof Hw as Hd. apply well_formed_props in Hd as [Hd _].
  assert (D : distinct_keys (QRApiService.batch_qrData (VObj l) ts) = true).
  { unfold QRApiService.batch_qrData.
    apply distinct_define_props, distinct_define_props. reflexivity. }
  exists (serialize (VObj (QRApiService.batch_qrData (VObj l) ts))),
         (define_props [] (kept normalize (QRApiService.batch_qrData (VObj l) ts))).
  split; [reflexivity|]. split.
  { rewrite parse_serialize by now apply batch_qrData_well_formed.
    reflexivity. }
  intros k. erewrite lookup_normalize; [|exact D|reflexivity].
  unfold QRApiService.batch_qrData. fold (batch_fields ts).
  rewrite lookup_define_props by reflexivity. cbn [own_props].
  rewrite lookup_spread by assumption.
  destruct (lookup k (batch_fields ts)) as [x|] eqn:B; [|reflexivity].
  unfold batch_fields in B. cbn [lookup] in B.
  repeat match type of B with
         | (if ?c then _ else _) = _ =>
             destruct c; [inversion B; reflexivity|]
         end.
  discriminate.
Qed.

Lemma batch_payload_keeps_caller_fields_witness :
  well_formed (VObj versioned_props) = true
  /\ exists s l',
       QRApiService.generateBatchQR offline (VObj versioned_props) start
       = QRApiService.generateQRWithAPI offline s QRApiService.batch_options
           (tick start)
       /\ JSON.parse s = Some (VObj l')
       /\ lookup (str "version") l' = Some (VStr (str "1.0"))
       /\ lookup (str "trackingUrl") l'
          = Some (VStr (str "https://elsewhere.example/E1"))
       /\ lookup (str "weight") l' = Some (VNum (Int 12))
       /\ lookup (str "notes") l' = None.
Proof.
  split; [reflexivity|].
  destruct (batch_payload_keeps_caller_fields offline versioned_props start
              eq_refl eq_refl) as (s & l' & R & P & K).
  exists s, l'. split; [exact R|]. split; [exact P|].
  split; [exact (K (str "version"))|]. split; [exact (K (str "trackingUrl"))|].
  split; [exact (K (str "weight")) | exact (K (str "notes"))].
Defined.

(** * The services on their runs *)

(** ** The runs of the provider client *)

(** Every run of the provider client on data whose URLs can be built:
    the primary provider serves after a successful probe, or the
    transfer from the secondary provider decides. *)
Lemma api_cases (env : Env) (data : js_string) (o : QRApiService.options)
      (w : world) (u1 u2 : js_string) :
  QRApiService.buildQRServerUrl data (QRApiService.resolve o) = Ret u1 ->
  QRApiService.buildQuickChartUrl data
    (QRApiService.style_size (QRApiService.resolve o))
    (QRApiService.style_format (QRApiService.resolve o)) = Ret u2 ->
  exists r new,
    QRApiService.generateQRWithAPI env data o w = (Ret r, requested w new)
    /\ ((exists probe_body ok b d,
           network env (trace w) HEAD u1 = Response true probe_body
           /\ network env (trace w ++ [Fetch HEAD u1]) GET u1
              = Response ok (Some b)
           /\ file_reader env b = Some d
           /\ r = QRApiService.served u1 d
           /\ new = [Fetch HEAD u1; Fetch GET u1])
        \/ (probe_ok (network env (trace w) HEAD u1) = false
            /\ new = [Fetch HEAD u1; Fetch GET u2]
            /\ r = secondary_answer env (trace w ++ [Fetch HEAD u1]) u2)
        \/ (probe_ok (network env (trace w) HEAD u1) = true
            /\ new = [Fetch HEAD u1; Fetch GET u1; Fetch GET u2]
            /\ r = secondary_answer env
                     (trace w ++ [Fetch HEAD u1; Fetch GET u1]) u2)).
Proof.
  intros H1 H2. destruct w as [tr n]. run_api. unfold requested. step.
  rewrite H1, H2. step. unfold secondary_answer.
  rewrite <- ?app_assoc. cbn [app].
  destruct (network env tr HEAD u1) as [|[|] pb] eqn:P; step; cbn [probe_ok].
  - eexists; eexists. split; [|right; left; split; [reflexivity|];
                                split; reflexivity].
    repeat (rewrite <- ?app_assoc; cbn [app]; oracle);
      rewrite <- ?app_assoc; reflexivity.
  - destruct (network env (tr ++ [Fetch HEAD u1]) GET u1) as [|ok [b|]] eqn:G;
      step.
    + eexists; eexists. split; [|right; right; split; [reflexivity|];
                                  split; reflexivity].
      repeat (rewrite <- ?app_assoc; cbn [app]; oracle);
      rewrite <- ?app_assoc; reflexivity.
    + destruct (file_reader env b) as [d|] eqn:F; step.
      * eexists; eexists.
        split; [rewrite <- app_assoc; cbn [app]; reflexivity|]. left.
        exists pb, ok, b, d. repeat split; assumption.
      * eexists; eexists. split; [|right; right; split; [reflexivity|];
                                    split; reflexivity].
        repeat (rewrite <- ?app_assoc; cbn [app]; oracle);
      rewrite <- ?app_assoc; reflexivity.
    + eexists; eexists. split; [|right; right; split; [reflexivity|];
                                  split; reflexivity].
      repeat (rewrite <- ?app_assoc; cbn [app]; oracle);
      rewrite <- ?app_assoc; reflexivity.
  - eexists; eexists. split; [|right; left; split; [reflexivity|];
                                split; reflexivity].
    repeat (rewrite <- ?app_assoc; cbn [app]; oracle);
      rewrite <- ?app_assoc; reflexivity.
Qed.

Lemma built_together (data : js_string) (st : QRApiService.style) :
  (exists d u1 u2,
     URI.encodeURIComponent data = Some d
     /\ QRApiService.buildQRServerUrl data st = Ret u1
     /\ QRApiService.buildQuickChartUrl data (QRApiService.style_size st)
          (QRApiService.style_format st) = Ret u2)
  \/ URI.encodeURIComponent data = None.
Proof.
  unfold QRApiService.buildQRServerUrl, QRApiService.buildQuickChartUrl.
  destruct (URI.encodeURIComponent data) as [d|]; [left|right; reflexivity].
  exists d. eexists; eexists. repeat split.
Qed.

(** X1.  [generateQRWithAPI] always returns, and its result is the fixed
    failure object with the text "All QR code APIs are unavailable", or
    the primary URL with the data URL read from the body of the transfer
    that followed its successful probe, or the secondary URL with the
    data URL read from the body of its transfer, which answered with a
    success status. *)
Theorem api_result_is_served_or_unavailable (env : Env) (data : js_string)
        (o : QRApiService.options) (w : world) :
  exists r w',
    QRApiService.generateQRWithAPI env data o w = (Ret r, w')
    /\ (r = QRApiService.unavailable
        \/ (exists u1 probe_body ok b d,
              QRApiService.buildQRServerUrl data (QRApiService.resolve o) = Ret u1
              /\ network env (trace w) HEAD u1 = Response true probe_body
              /\ network env (trace w ++ [Fetch HEAD u1]) GET u1
                 = Response ok (Some b)
              /\ file_reader env b = Some d
              /\ r = QRApiService.served u1 d
              /\ w' = requested w [Fetch HEAD u1; Fetch GET u1])
        \/ (exists u2 pre b d,
              QRApiService.buildQuickChartUrl data
                (QRApiService.style_size (QRApiService.resolve o))
                (QRApiService.style_format (QRApiService.resolve o)) = Ret u2
              /\ network env (trace w ++ pre) GET u2 = Response true (Some b)
              /\ file_reader env b = Some d
              /\ r = QRApiService.served u2 d
              /\ w' = requested w (pre ++ [Fetch GET u2]))).
Proof.
  destruct (built_together data (QRApiService.resolve o))
    as [(e & u1 & u2 & _ & H1 & H2)|E].
  2:{ exists QRApiService.unavailable, w.
      split; [now apply api_unencodable | left; reflexivity]. }
  destruct (api_cases env data o w u1 u2 H1 H2) as (r & new & Run & C).
  exists r, (requested w new). split; [exact Run|].
  assert (S : forall pre,
             r = secondary_answer env (trace w ++ pre) u2 ->
             new = pre ++ [Fetch GET u2] ->
             r = QRApiService.unavailable
             \/ exists u2 pre b d,
                  QRApiService.buildQuickChartUrl data
                    (QRApiService.style_size (QRApiService.resolve o))
                    (QRApiService.style_format (QRApiService.resolve o)) = Ret u2
                  /\ network env (trace w ++ pre) GET u2 = Response true (Some b)
                  /\ file_reader env b = Some d
                  /\ r = QRApiService.served u2 d
                  /\ requested w new = requested w (pre ++ [Fetch GET u2])).
  { intros pre R N. unfold secondary_answer in R.
    destruct (network env (trace w ++ pre) GET u2) as [|[|] [b|]] eqn:G;
      try (left; exact R).
    destruct (file_reader env b) as [d|] eqn:F; [|left; exact R].
    right. exists u2, pre, b, d. rewrite N. repeat split; assumption. }
  destruct C as [(pb & ok & b & d & P & G & F & R & N)|[(_ & N & R)|(_ & N & R)]].
  - right. left. exists u1, pb, ok, b, d. rewrite N. repeat split; assumption.
  - destruct (S [Fetch HEAD u1] R N) as [U|X]; [left; exact U|right; right; exact X].
  - destruct (S [Fetch HEAD u1; Fetch GET u1] R N) as [U|X];
      [left; exact U|right; right; exact X].
Qed.

(** C5, as amended.  The primary tier issues a HEAD probe before its
    full transfer, and when the probe is rejected or answers with a
    non-success status no full transfer from the primary provider is
    attempted; the secondary tier issues its full transfer, a single GET,
    without any probe, and fails (the result is the fixed failure object)
    when that request is rejected, answers with a non-success status or
    has no readable body. *)
Theorem probe_only_on_primary (env : Env) (data : js_string)
        (o : QRApiService.options) (w : world) (u1 u2 : js_string) :
  QRApiService.buildQRServerUrl data (QRApiService.resolve o) = Ret u1 ->
  QRApiService.buildQuickChartUrl data
    (QRApiService.style_size (QRApiService.resolve o))
    (QRApiService.style_format (QRApiService.resolve o)) = Ret u2 ->
  exists r new,
    QRApiService.generateQRWithAPI env data o w = (Ret r, requested w new)
    /\ if probe_ok (network env (trace w) HEAD u1)
       then exists rest,
              new = Fetch HEAD u1 :: Fetch GET u1 :: rest
              /\ (rest = []
                  \/ rest = [Fetch GET u2]
                     /\ r = match network env
                                    (trace w ++ [Fetch HEAD u1; Fetch GET u1])
                                    GET u2 with
                            | Response true (Some b) =>
                                match file_reader env b with
                                | Some d => QRApiService.served u2 d
                                | None => QRApiService.unavailable
                                end
                            | _ => QRApiService.unavailable
                            end)
       else new = [Fetch HEAD u1; Fetch GET u2]
            /\ r = match network env (trace w ++ [Fetch HEAD u1]) GET u2 with
                   | Response true (Some b) =>
                       match file_reader env b with
                       | Some d => QRApiService.served u2 d
                       | None => QRApiService.unavailable
                       end
                   | _ => QRApiService.unavailable
                   end.
Proof.
  intros H1 H2.
  destruct (api_cases env data o w u1 u2 H1 H2) as (r & new & Run & C).
  exists r, new. split; [exact Run|].
  destruct C as [(pb & ok & b & d & P & G & F & R & N)|[(P & N & R)|(P & N & R)]].
  - rewrite P. cbn [probe_ok]. exists []. split; [exact N|left; reflexivity].
  - rewrite P. split; [exact N|exact R].
  - rewrite P. exists [Fetch GET u2]. split; [exact N|]. right.
    split; [reflexivity|]. exact R.
Qed.

(** With no provider reachable: one probe of the primary URL, one
    transfer from the secondary, and the fixed failure. *)
Lemma probe_only_on_primary_witness :
  QRApiService.buildQRServerUrl (str "E1") (QRApiService.resolve no_options)
  = Ret primary_url_E1
  /\ QRApiService.buildQuickChartUrl (str "E1") 300 png = Ret secondary_url_E1
  /\ exists r new,
       QRApiService.generateQRWithAPI network_down (str "E1") no_options start
       = (Ret r, requested start new)
       /\ new = [Fetch HEAD primary_url_E1; Fetch GET secondary_url_E1]
       /\ r = QRApiService.unavailable.
Proof.
  split; [reflexivity|]. split; [reflexivity|].
  destruct (probe_only_on_primary network_down (str "E1") no_options start
              primary_url_E1 secondary_url_E1 eq_refl eq_refl)
    as (r & new & Run & N & R).
  exists r, new. split; [exact Run|]. split; [exact N|exact R].
Defined.

(** ** The tracking code *)



(** ** The round trip of a generated payload *)

Lemma lookup_enriched (l : props) (u : js_string) (ts : Z) (k : js_string) :
  distinct_keys l = true ->
  lookup k (QRService.enrich (VObj l) u ts)
  = match lookup k (enrichment u ts) with
    | Some x => Some x
    | None => lookup k l
    end.
Proof.
  intros D. rewrite enrich_object, lookup_define_props by reflexivity.
  now rewrite lookup_spread.
Qed.

Lemma reread_enrichment (l : props) (u : js_string) (ts : Z) (k : js_string)
      (x : value) :
  well_formed (VObj l) = true ->
  lookup k (enrichment u ts) = Some x ->
  is_undefined x = false ->
  read (normalize (VObj (QRService.enrich (VObj l) u ts))) k = Ret (normalize x).
Proof.
  intros Hl L U. pose proof Hl as Hl'. apply well_formed_props in Hl' as [D _].
  cbn [normalize]. apply read_object.
  erewrite lookup_normalize; [| |reflexivity].
  - rewrite lookup_enriched by assumption. rewrite L, U. reflexivity.
  - rewrite enrich_object. apply distinct_define_props, distinct_define_props.
    reflexivity.
Qed.

(** C1.  For every well-formed payload whose [batchId], [eventId] and
    [type] are non-empty strings, the string [generateQR] serializes and
    hands to the provider client and, when the providers deliver nothing,
    to the local renderer (the payload spread, then [trackingUrl],
    [timestamp] and [version]) is accepted by [parseQRData], and the data
    object it returns has the original [batchId], [eventId] and [type]
    beside the three properties [generateQR] added. *)
Theorem generate_parse_roundtrip (env : Env) (data : value) (title : js_string)
        (w : world) (batchId eventId type : js_string) :
  well_formed data = true ->
  safe_integer (clock env (clock_reads w)) = true ->
  read data (str "batchId") = Ret (VStr batchId) -> batchId <> [] ->
  read data (str "eventId") = Ret (VStr eventId) -> eventId <> [] ->
  read data (str "type") = Ret (VStr type) -> type <> [] ->
  exists s d ra new,
    payload_string env data w = Ret s
    /\ QRApiService.generateQRWithAPI env s QRService.api_options (tick w)
       = (Ret ra, requested (tick w) new)
    /\ QRService.generateQR env data title w
       = (if subtle_crypto env then
            match QRService.usable ra with
            | Some image =>
                (Ret (QRService.succeeded image
                        (Some (origin env ++ str "/track/" ++ eventId))
                        (Some (hash_of s))),
                 requested (tick w) new)
            | None =>
                (rendering env s fallback_render
                   (Some (origin env ++ str "/track/" ++ eventId))
                   (Some (hash_of s)),
                 rendered (requested (tick w) new) s fallback_render)
            end
          else (Ret (failure (Some (Worded (TypeError NoSubtleCrypto)))), tick w))
    /\ QRService.parseQRData s = Ret (QRService.parsed (Some d))
    /\ read d (str "batchId") = Ret (VStr batchId)
    /\ read d (str "eventId") = Ret (VStr eventId)
    /\ read d (str "type") = Ret (VStr type)
    /\ read d (str "trackingUrl")
       = Ret (VStr (origin env ++ str "/track/" ++ eventId))
    /\ read d (str "timestamp") = Ret (VNum (Int (clock env (clock_reads w))))
    /\ read d (str "version") = Ret (VStr (str "1.0")).
Proof.
  intros Hw Hts Hb Nb He Ne Ht Nt.
  destruct (read_string_object _ _ _ Hb) as (l & -> & Lb).
  destruct (read_string_object _ _ _ He) as (l' & El & Le). inversion El; subst l'.
  destruct (read_string_object _ _ _ Ht) as (l' & El' & Lt). inversion El'; subst l'.
  set (ts := clock env (clock_reads w)) in *.
  set (u := origin env ++ str "/track/" ++ eventId).
  assert (Hu : QRService.tracking_url env (VObj l) = Ret u).
  { unfold QRService.tracking_url. rewrite He. reflexivity. }
  set (s := serialize (VObj (QRService.enrich (VObj l) u ts))).
  destruct (api_trace env s QRService.api_options (tick w))
    as (ra & new & Ha & _).
  exists s, (normalize (VObj (QRService.enrich (VObj l) u ts))), ra, new.
  assert (Rb := reread_enriched l u ts (str "batchId") batchId Hw eq_refl Lb).
  assert (Re := reread_enriched l u ts (str "eventId") eventId Hw eq_refl Le).
  assert (Rt := reread_enriched l u ts (str "type") type Hw eq_refl Lt).
  split. { unfold payload_string. rewrite Hu. reflexivity. }
  split; [exact Ha|].
  split.
  { rewrite generateQR_run, Hu. cbv zeta. unfold enriched_string. fold ts. fold s.
    destruct (subtle_crypto env); [|reflexivity]. rewrite Ha. reflexivity. }
  split.
  { unfold QRService.parseQRData, QRApiService.validateQRData, JSON_parse.
    unfold s. rewrite parse_serialize by now apply enrich_well_formed.
    cbn [obind]. rewrite Rb. cbn [obind]. rewrite (truthy_string _ Nb). cbn [negb].
    rewrite Re. cbn [obind]. rewrite (truthy_string _ Ne). cbn [negb].
    rewrite Rt. cbn [obind]. rewrite (truthy_string _ Nt). cbn [negb].
    reflexivity. }
  split; [exact Rb|]. split; [exact Re|]. split; [exact Rt|].
  split; [exact (reread_enrichment l u ts (str "trackingUrl") (VStr u) Hw
                   eq_refl eq_refl)|].
  split; [exact (reread_enrichment l u ts (str "timestamp") (VNum (Int ts)) Hw
                   eq_refl eq_refl)|].
  exact (reread_enrichment l u ts (str "version") (VStr (str "1.0")) Hw
           eq_refl eq_refl).
Qed.

(** The sample payload, with every provider unreachable: the renderer is
    handed the string that parses back. *)
Lemma generate_parse_roundtrip_witness :
  well_formed sample_payload = true
  /\ safe_integer (clock offline (clock_reads start)) = true
  /\ exists s d ra new,
      payload_string offline sample_payload start = Ret s
      /\ QRApiService.generateQRWithAPI offline s QRService.api_options (tick start)
         = (Ret ra, requested (tick start) new)
      /\ QRService.generateQR offline sample_payload (str "Batch B1") start
         = match QRService.usable ra with
           | Some image =>
               (Ret (QRService.succeeded image
                       (Some (str "https://app.example/track/E1"))
                       (Some (hash_of s))),
                requested (tick start) new)
           | None =>
               (rendering offline s fallback_render
                  (Some (str "https://app.example/track/E1")) (Some (hash_of s)),
                rendered (requested (tick start) new) s fallback_render)
           end
      /\ QRService.parseQRData s = Ret (QRService.parsed (Some d))
      /\ read d (str "batchId") = Ret (VStr (str "B1"))
      /\ read d (str "eventId") = Ret (VStr (str "E1"))
      /\ read d (str "type") = Ret (VStr (str "collection"))
      /\ read d (str "trackingUrl")
         = Ret (VStr (str "https://app.example/track/E1"))
      /\ read d (str "timestamp") = Ret (VNum (Int 1700000000000))
      /\ read d (str "version") = Ret (VStr (str "1.0")).
Proof.
  split; [reflexivity|]. split; [reflexivity|].
  exact (generate_parse_roundtrip offline sample_payload (str "Batch B1") start
           (str "B1") (str "E1") (str "collection")
           eq_refl eq_refl eq_refl
           (fun E => match E in _ = y return
                       match y with [] => False | _ => True end
                     with eq_refl => I end)
           eq_refl
           (fun E => match E in _ = y return
                       match y with [] => False | _ => True end
                     with eq_refl => I end)
           eq_refl
           (fun E => match E in _ = y return
                       match y with [] => False | _ => True end
                     with eq_refl => I end)).
Defined.

(** ** The content hash *)






(** ** The stage wrappers *)

Lemma stage_encodes (env : Env) (w : world) (l payload : props)
      (o : QRService.enhanced_options) (eventId : js_string) :
  subtle_crypto env = true ->
  QRApiService.default true (QRService.useAPI o) = true ->
  QRService.tracking_url env (VObj l)
  = Ret (origin env ++ str "/track/" ++ eventId) ->
  batch_string env (VObj l) (origin env ++ str "/track/" ++ eventId) w
  = serialize (VObj payload) ->
  well_formed (VObj payload) = true ->
  normalize (VObj payload) = VObj payload ->
  encodes env w (QRService.generateEnhancedQR env (VObj l) o w) eventId payload.
Proof.
  intros Hc Ha Hu Hs Hw Hn.
  exists (hash_of (enriched_string env (VObj l)
                     (origin env ++ str "/track/" ++ eventId) w)).
  split.
  - rewrite (enhanced_request env (VObj l) o w _ Hu Hc Ha), Hs. reflexivity.
  - rewrite parse_serialize by exact Hw. now rewrite Hn.
Qed.

(** X15.  Each stage wrapper has the providers encode exactly the object
    with the given [batchId] and [eventId], its stage as [type], the
    given name as [participant], the tracking URL, the second reading of
    the clock, the version and the network name, and for a collection the
    given [herbSpecies]: the [method] of [generateProcessingQR] and the
    [productName] of [generateManufacturingQR] are in no property of the
    encoded object. *)
Theorem stage_wrappers_encode_participant (env : Env) (w : world)
        (batchId eventId name other : js_string) :
  subtle_crypto env = true ->
  safe_integer (clock env (S (clock_reads w))) = true ->
  name <> [] ->
  encodes env w
    (QRService.generateCollectionQR env batchId eventId other name w) eventId
    (stage_payload env w (str "collection") batchId eventId (Some other) name)
  /\ encodes env w
       (QRService.generateQualityTestQR env batchId eventId name w) eventId
       (stage_payload env w (str "quality_test") batchId eventId None name)
  /\ encodes env w
       (QRService.generateProcessingQR env batchId eventId name other w) eventId
       (stage_payload env w (str "processing") batchId eventId None name)
  /\ encodes env w
       (QRService.generateManufacturingQR env batchId eventId name other w) eventId
       (stage_payload env w (str "manufacturing") batchId eventId None name).
Proof.
  intros Hc Hts Hn. destruct name as [|c name]; [congruence|].
  assert (W : forall type h,
             well_formed (VObj (stage_payload env w type batchId eventId h
                                  (c :: name))) = true).
  { intros type [h|]; unfold stage_payload; cbn [app];
      cbn [well_formed distinct_keys has_key forallb snd];
      rewrite Hts; reflexivity. }
  repeat split;
    (apply stage_encodes;
     [exact Hc | reflexivity | reflexivity | reflexivity | apply W | reflexivity]).
Qed.

(** A processing stage: the method is neither a property of the encoded
    object nor one of a batch payload's names. *)
Lemma stage_wrappers_encode_participant_witness :
  encodes offline start
    (QRService.generateProcessingQR offline (str "B1") (str "E2") (str "Bob")
       (str "drying") start)
    (str "E2")
    [(str "batchId", VStr (str "B1")); (str "eventId", VStr (str "E2"));
     (str "type", VStr (str "processing")); (str "participant", VStr (str "Bob"));
     (str "trackingUrl", VStr (str "https://app.example/track/E2"));
     (str "timestamp", VNum (Int 1700000000000));
     (str "version", VStr (str "1.0"));
     (str "network", VStr (str "hyperledger-fabric"))].
Proof.
  exact (proj1 (proj2 (proj2
           (stage_wrappers_encode_participant offline start (str "B1") (str "E2")
              (str "Bob") (str "drying") eq_refl eq_refl
              (fun E => match E in _ = y return
                          match y with [] => False | _ => True end
                        with eq_refl => I end))))).
Defined.
